(** * Audio visualizer: canvas rendering and resource lifecycle

    A shallow embedding of the visualizer components of the repository
    (AudioVisualizer, LiveAudioVisualizer, TextAudioVisualizer and
    RecordingVisualizer) and the properties of their drawing routines and
    of their start/stop lifecycle.

    Conventions.
    - A JavaScript number is modelled as an exact rational ([Q]); integer
      results of [Math.floor] are in [Z].  Division by zero, which in the
      source yields an infinity or NaN, is made explicit where the source can
      reach it ([ExtZ]).
      Exact arithmetic is the arithmetic of the source (binary64) on whole
      numbers below 2^53; where a result depends on that (the number of
      spectrum bars, their place against the right edge, the digits of a
      printed time) the theorem is stated for such values.
    - A [Uint8Array] snapshot is a [list Z]; reading outside it yields
      [None] (the source reads [undefined]).
    - The browser objects (canvas context, audio graph, frame scheduler,
      timers, oscillator) are modelled by the calls the components make on
      them and by the little state those calls are specified to change; an
      oscillator node can be started once.
    - A handler runs to its end before the next event.  After a handler React
      renders again and runs the effects whose dependencies changed.  In
      [LiveAudioVisualizer.step] and [Recorder.click] an [async] handler is
      one step, taken when the promise it awaits settles; [Listener] splits
      [startListening] at its [await] and lets every other event, the unmount
      included, come in between. *)

From Stdlib Require Import String ZArith QArith Qround Qfield List Bool Lia.
From Stdlib Require Import Ascii DecimalString DecimalZ Lqa Floats.
Import ListNotations.

Local Open Scope string_scope.
Local Open Scope list_scope.
Local Open Scope Q_scope.

(** ** Outcome of a routine that may throw or fail to terminate *)

Inductive result (A : Type) : Type :=
| Ok (a : A)
| Throws
| Loops.

Arguments Ok {A} a.
Arguments Throws {A}.
Arguments Loops {A}.

Definition bind {A B : Type} (r : result A) (k : A -> result B) : result B :=
  match r with
  | Ok a => k a
  | Throws => Throws
  | Loops => Loops
  end.

(** ** Canvas *)

(** What [ctx.fillStyle] is set to: a colour, or the two-stop gradient made
    by [createLinearGradient] and [addColorStop]. *)
Inductive FillStyle : Type :=
| Solid (color : string)
| Gradient (x0 y0 x1 y1 : Q) (stops : list (Q * string)).

Inductive CanvasCall : Type :=
| clearRect (x y w h : Q)
| setFillStyle (f : FillStyle)
| fillRect (x y w h : Q)
| setLineWidth (w : Q)
| setStrokeStyle (color : string)
| beginPath
| moveTo (x y : Q)
| lineTo (x y : Q)
| stroke.

(** The props of a visualizer; [shade] is the fixed second gradient colour
    of the component (['#00cc66'] or ['#1d4ed8']). *)
Record RenderConfig : Type := {
  width : Q;
  height : Q;
  barWidth : Q;
  barGap : Q;
  barColor : string;
  backgroundColor : string;
  shade : string
}.

Definition Snapshot : Type := list Z.

(** [data[i]] on a typed array. *)
Definition sample (data : Snapshot) (i : Z) : option Z :=
  if (i <? 0)%Z then None else nth_error data (Z.to_nat i).

Definition background (cfg : RenderConfig) : list CanvasCall :=
  [ clearRect 0 0 (width cfg) (height cfg);
    setFillStyle (Solid (backgroundColor cfg));
    fillRect 0 0 (width cfg) (height cfg) ].

(** *** drawWaveform *)

(** The body of [for (let i = 0; i < data.length; i++)], from index [i] with
    the running abscissa [x], over the samples still to plot. *)
Fixpoint waveform_loop (cfg : RenderConfig) (sliceWidth : Q)
    (i : nat) (x : Q) (data : Snapshot) : list CanvasCall :=
  match data with
  | [] => []
  | s :: rest =>
      let v := inject_Z s / 128 in
      let y := (v * height cfg) / 2 in
      (if Nat.eqb i 0 then moveTo x y else lineTo x y)
        :: waveform_loop cfg sliceWidth (S i) (x + sliceWidth) rest
  end.

(** [sliceWidth] is read in the loop body only, so on an empty snapshot
    (where the source divides by zero) its value does not matter. *)
Definition drawWaveform (cfg : RenderConfig) (data : Snapshot) : list CanvasCall :=
  background cfg
  ++ [ setLineWidth 2; setStrokeStyle (barColor cfg); beginPath ]
  ++ (let sliceWidth := width cfg / inject_Z (Z.of_nat (length data)) in
      waveform_loop cfg sliceWidth 0 0 data)
  ++ [ lineTo (width cfg) (height cfg / 2); stroke ].

(** The points of the path a list of calls builds, in order. *)
Definition path_points (calls : list CanvasCall) : list (Q * Q) :=
  flat_map (fun c => match c with
                     | moveTo x y => [(x, y)]
                     | lineTo x y => [(x, y)]
                     | _ => []
                     end) calls.



(** *** drawSpectrum *)

(** An integer as [Math.floor] returns it, with the non-finite values. *)
Inductive ExtZ : Type :=
| Fin (z : Z)
| PosInf
| NegInf
| NotANumber.

(** [Math.floor(a / b)], on exact rationals.  The source rounds the quotient
    to binary64 before it takes the floor ([bar_quotient]); the two agree when
    [a] and [b] are whole numbers below 2^53. *)
Definition floor_div (a b : Q) : ExtZ :=
  if Qeq_bool b 0 then
    match Qcompare a 0 with
    | Gt => PosInf
    | Lt => NegInf
    | Eq => NotANumber
    end
  else Fin (Qfloor (a / b)).

Definition barCount (cfg : RenderConfig) : ExtZ :=
  floor_div (width cfg) (barWidth cfg + barGap cfg).

(** [Math.floor(data.length / barCount)] for a finite, non-zero [barCount]. *)
Definition step (data : Snapshot) (bc : Z) : Z :=
  Qfloor (inject_Z (Z.of_nat (length data)) / inject_Z bc).

Record Bar : Type := {
  bar_index : Z;         (* dataIndex *)
  bar_value : Z;         (* data[dataIndex] *)
  bar_x : Q;
  bar_y : Q;
  bar_height : Q
}.

(** One iteration of the loop, up to the two canvas calls. *)
Definition spectrum_bar (cfg : RenderConfig) (data : Snapshot) (stp : Z) (i : Z)
  : option Bar :=
  let dataIndex := (i * stp)%Z in
  match sample data dataIndex with
  | None => None
  | Some value =>
      let barHeight := (inject_Z value / 255) * height cfg in
      let x := inject_Z i * (barWidth cfg + barGap cfg) in
      let y := height cfg - barHeight in
      Some {| bar_index := dataIndex; bar_value := value;
              bar_x := x; bar_y := y; bar_height := barHeight |}
  end.

Definition draw_bar (cfg : RenderConfig) (b : Bar) : list CanvasCall :=
  [ setFillStyle (Gradient (bar_x b) (bar_y b) (bar_x b) (height cfg)
                    [(0, barColor cfg); (1, shade cfg)]);
    fillRect (bar_x b) (bar_y b) (barWidth cfg) (bar_height b) ].

(** [for (let i = 0; i < barCount; i++)], [n] iterations from [i].  A sample
    read outside the snapshot is [undefined], the bar's geometry is then not
    a number and [createLinearGradient] rejects it with a TypeError. *)
Fixpoint spectrum_loop (cfg : RenderConfig) (data : Snapshot) (stp : Z)
    (i : Z) (n : nat) : result (list Bar) :=
  match n with
  | O => Ok []
  | S n' =>
      match spectrum_bar cfg data stp i with
      | None => Throws
      | Some b =>
          bind (spectrum_loop cfg data stp (i + 1) n') (fun bs => Ok (b :: bs))
      end
  end.

(** The bars [drawSpectrum] draws, in order. *)
Definition spectrum_bars (cfg : RenderConfig) (data : Snapshot) : result (list Bar) :=
  match barCount cfg with
  | Fin bc => spectrum_loop cfg data (step data bc) 0 (Z.to_nat bc)
  | PosInf =>
      (* the step is 0 and every iteration reads [data[0]] *)
      match sample data 0 with
      | Some _ => Loops
      | None => Throws
      end
  | NegInf => Ok []
  | NotANumber => Ok []
  end.

Definition drawSpectrum (cfg : RenderConfig) (data : Snapshot)
  : result (list CanvasCall) :=
  bind (spectrum_bars cfg data)
       (fun bs => Ok (background cfg ++ flat_map (draw_bar cfg) bs)).

(** ** The browser, as far as the components use it *)

Definition Handle : Type := positive.

(** Nodes of the audio graph of one [AudioContext]. *)
Inductive Node : Type :=
| MediaStreamSource (ctx stream : Handle)
| Analyser (ctx : Handle)
| Destination (ctx : Handle).

(** How [navigator.mediaDevices.getUserMedia] settles. *)
Inductive MediaError : Type :=
| PermissionDenied
| DeviceUnavailable.

Inductive MediaResult : Type :=
| Granted
| Rejected (e : MediaError).

Inductive VisualizationType : Type :=
| waveform
| spectrum.

Inductive Ref : Type :=
| AnimationFrameRef
| AudioContextRef
| AnalyserRef
| StreamRef
| SourceRef
| MediaRecorderRef
| CanvasRef
| FrequencyModulation
| GainModulation.

(** What a handler does, in program order: calls on browser objects, writes
    to refs and React state updates. *)
Inductive Action : Type :=
| GetUserMedia (r : MediaResult)
| NewAudioContext (ctx : Handle)
| CreateAnalyser (ctx : Handle) (fftSize : Z) (smoothingTimeConstant : Q)
| CreateMediaStreamSource (ctx stream : Handle)
| Connect (src dst : Node)
| Disconnect (n : Node)
| StopTracks (stream : Handle)
| CloseContext (ctx : Handle)
| ResumeContext (ctx : Handle)
| NewMediaRecorder (stream : Handle)
| RecorderStart (timeslice : Z)
| OscillatorStart (osc : Handle)
| OscillatorStop (osc : Handle)
| SetInterval (id : Handle) (ms : Z)
| ClearInterval (id : Handle)
| SpeechCancel
| RequestAnimationFrame (id : Handle)
| CancelAnimationFrame (id : Handle)
| ReadSnapshot (vt : VisualizationType)
| Draw (calls : list CanvasCall)
| Assign (r : Ref)
| Clear (r : Ref)
| SetError (e : option string)
| SetActive (b : bool)
| SetState (name : string)
| ConsoleLog (msg : string)
| ConsoleError (msg : string).

Record Browser : Type := {
  pending : list (Handle * bool);  (* scheduled frame callbacks: id, and the
                                      activity flag their closure captured *)
  fresh : Handle;                  (* next unused handle *)
  capturing : list Handle;         (* streams whose tracks are live *)
  contexts : list Handle;          (* audio contexts not yet closed *)
  edges : list (Node * Node)       (* connections of the audio graph *)
}.

Definition set_pending (p : list (Handle * bool)) (b : Browser) : Browser :=
  {| pending := p; fresh := fresh b; capturing := capturing b;
     contexts := contexts b; edges := edges b |}.

Definition set_fresh (f : Handle) (b : Browser) : Browser :=
  {| pending := pending b; fresh := f; capturing := capturing b;
     contexts := contexts b; edges := edges b |}.

Definition set_capturing (c : list Handle) (b : Browser) : Browser :=
  {| pending := pending b; fresh := fresh b; capturing := c;
     contexts := contexts b; edges := edges b |}.

Definition set_contexts (c : list Handle) (b : Browser) : Browser :=
  {| pending := pending b; fresh := fresh b; capturing := capturing b;
     contexts := c; edges := edges b |}.

Definition set_edges (e : list (Node * Node)) (b : Browser) : Browser :=
  {| pending := pending b; fresh := fresh b; capturing := capturing b;
     contexts := contexts b; edges := e |}.

Definition remove_handle (h : Handle) (l : list Handle) : list Handle :=
  filter (fun h' => negb (Pos.eqb h h')) l.

Definition cancel_frame (id : Handle) (b : Browser) : Browser :=
  set_pending (filter (fun f => negb (Pos.eqb id (fst f))) (pending b)) b.

Definition node_eqb (a b : Node) : bool :=
  match a, b with
  | MediaStreamSource c s, MediaStreamSource c' s' => Pos.eqb c c' && Pos.eqb s s'
  | Analyser c, Analyser c' => Pos.eqb c c'
  | Destination c, Destination c' => Pos.eqb c c'
  | _, _ => false
  end.

(** [node.disconnect()] removes every outgoing connection of the node. *)
Definition disconnect_node (n : Node) (b : Browser) : Browser :=
  set_edges (filter (fun e => negb (node_eqb n (fst e))) (edges b)) b.

(** [dst] can be reached from [src] along the connections. *)
Inductive reaches (g : list (Node * Node)) : Node -> Node -> Prop :=
| reaches_edge a b : In (a, b) g -> reaches g a b
| reaches_trans a b c : In (a, b) g -> reaches g b c -> reaches g a c.

Definition is_destination (n : Node) : bool :=
  match n with Destination _ => true | _ => false end.

(** ** A state-and-trace monad for the handlers *)

Section Handlers.
Context {S : Type}.

Definition M (A : Type) : Type := S -> A * S * list Action.

Definition ret {A} (a : A) : M A := fun w => (a, w, []).

Definition seq_bind {A B} (m : M A) (k : A -> M B) : M B :=
  fun w =>
    let '(a, w1, t1) := m w in
    let '(b, w2, t2) := k a w1 in
    (b, w2, t1 ++ t2).

Definition act (a : Action) (f : S -> S) : M unit :=
  fun w => (tt, f w, [a]).

(** [if (ref.current) { ... }] *)
Definition whenSome {A} (r : S -> option A) (k : A -> M unit) : M unit :=
  fun w => match r w with
           | Some a => k a w
           | None => (tt, w, [])
           end.

Definition state_of {A} (x : A * S * list Action) : S := snd (fst x).
Definition trace_of {A} (x : A * S * list Action) : list Action := snd x.
End Handlers.

Arguments M : clear implicits.

Declare Scope handler_scope.
Delimit Scope handler_scope with handler.
Notation "x <- m ;; k" := (seq_bind m (fun x => k))
  (at level 61, m at next level, right associativity) : handler_scope.
Notation "m ;; k" := (seq_bind m (fun _ => k))
  (at level 61, right associativity) : handler_scope.

Local Open Scope handler_scope.

(** ** LiveAudioVisualizer *)

Module LiveAudioVisualizer.

Record World : Type := {
  (* React state *)
  isListening : bool;
  error : option string;
  (* refs *)
  canvasRef : bool;          (* the canvas is mounted and has a 2D context *)
  animationFrameRef : option Handle;
  audioContextRef : option Handle;
  analyserRef : option Node;
  streamRef : option Handle;
  sourceRef : option Node;
  (* the browser *)
  browser : Browser
}.

Record Props : Type := {
  visualizationType : VisualizationType;
  config : RenderConfig
}.

Definition setIsListening (b : bool) : M World unit :=
  act (SetActive b) (fun w =>
    {| isListening := b; error := error w; canvasRef := canvasRef w;
       animationFrameRef := animationFrameRef w;
       audioContextRef := audioContextRef w; analyserRef := analyserRef w;
       streamRef := streamRef w; sourceRef := sourceRef w;
       browser := browser w |}).

Definition setError (e : option string) : M World unit :=
  act (SetError e) (fun w =>
    {| isListening := isListening w; error := e; canvasRef := canvasRef w;
       animationFrameRef := animationFrameRef w;
       audioContextRef := audioContextRef w; analyserRef := analyserRef w;
       streamRef := streamRef w; sourceRef := sourceRef w;
       browser := browser w |}).

Definition with_animationFrameRef (r : option Handle) (w : World) : World :=
  {| isListening := isListening w; error := error w; canvasRef := canvasRef w;
     animationFrameRef := r;
     audioContextRef := audioContextRef w; analyserRef := analyserRef w;
     streamRef := streamRef w; sourceRef := sourceRef w;
     browser := browser w |}.

Definition with_audioContextRef (r : option Handle) (w : World) : World :=
  {| isListening := isListening w; error := error w; canvasRef := canvasRef w;
     animationFrameRef := animationFrameRef w;
     audioContextRef := r; analyserRef := analyserRef w;
     streamRef := streamRef w; sourceRef := sourceRef w;
     browser := browser w |}.

Definition with_analyserRef (r : option Node) (w : World) : World :=
  {| isListening := isListening w; error := error w; canvasRef := canvasRef w;
     animationFrameRef := animationFrameRef w;
     audioContextRef := audioContextRef w; analyserRef := r;
     streamRef := streamRef w; sourceRef := sourceRef w;
     browser := browser w |}.

Definition with_streamRef (r : option Handle) (w : World) : World :=
  {| isListening := isListening w; error := error w; canvasRef := canvasRef w;
     animationFrameRef := animationFrameRef w;
     audioContextRef := audioContextRef w; analyserRef := analyserRef w;
     streamRef := r; sourceRef := sourceRef w;
     browser := browser w |}.

Definition with_sourceRef (r : option Node) (w : World) : World :=
  {| isListening := isListening w; error := error w; canvasRef := canvasRef w;
     animationFrameRef := animationFrameRef w;
     audioContextRef := audioContextRef w; analyserRef := analyserRef w;
     streamRef := streamRef w; sourceRef := r;
     browser := browser w |}.

Definition with_canvasRef (c : bool) (w : World) : World :=
  {| isListening := isListening w; error := error w; canvasRef := c;
     animationFrameRef := animationFrameRef w;
     audioContextRef := audioContextRef w; analyserRef := analyserRef w;
     streamRef := streamRef w; sourceRef := sourceRef w;
     browser := browser w |}.

Definition on_browser (f : Browser -> Browser) (w : World) : World :=
  {| isListening := isListening w; error := error w; canvasRef := canvasRef w;
     animationFrameRef := animationFrameRef w;
     audioContextRef := audioContextRef w; analyserRef := analyserRef w;
     streamRef := streamRef w; sourceRef := sourceRef w;
     browser := f (browser w) |}.

(** Allocation of a browser object. *)
Definition alloc : M World Handle :=
  fun w => (fresh (browser w), on_browser (fun b => set_fresh (Pos.succ (fresh b)) b) w, []).

Definition cancelAnimationFrame (id : Handle) : M World unit :=
  act (CancelAnimationFrame id) (on_browser (cancel_frame id)).

(** [requestAnimationFrame(animate)], for the [animate] of a render in which
    [isListening] was [captured]. *)
Definition requestAnimationFrame (captured : bool) : M World Handle :=
  id <- alloc ;;
  act (RequestAnimationFrame id)
      (on_browser (fun b => set_pending (pending b ++ [(id, captured)]) b)) ;;
  ret id.

Definition connect (a b : Node) : M World unit :=
  act (Connect a b) (on_browser (fun br => set_edges (edges br ++ [(a, b)]) br)).

(** The lifecycle states, read off the component: it is Active while
    [isListening]; it is in Error when it is not listening and shows an error
    message; it is Idle when it is not listening and holds no stream, source,
    context or analyser.  The message is a state variable of its own, so a
    component in Error that holds no resource is Idle as well. *)
Definition active (w : World) : bool := isListening w.


Definition idle (w : World) : bool :=
  negb (isListening w)
  && match streamRef w, sourceRef w, audioContextRef w, analyserRef w with
     | None, None, None, None => true
     | _, _, _, _ => false
     end.

(** *** animate *)

(** [animate] of a render in which [isListening] was [captured]; [snap] is
    what the analyser hands out on this frame. *)
Definition animate (p : Props) (captured : bool) (snap : Snapshot) (w : World)
  : result (unit * World * list Action) :=
  match analyserRef w with
  | None => Ok (tt, w, [])
  | Some _ =>
      if negb (canvasRef w) || negb captured then Ok (tt, w, [])
      else
        bind (match visualizationType p with
              | waveform => Ok (drawWaveform (config p) snap)
              | spectrum => drawSpectrum (config p) snap
              end)
             (fun calls =>
                Ok ((act (ReadSnapshot (visualizationType p)) (fun w => w) ;;
                     act (Draw calls) (fun w => w) ;;
                     id <- requestAnimationFrame captured ;;
                     act (Assign AnimationFrameRef)
                         (with_animationFrameRef (Some id))) w))
  end.

(** *** startListening *)

Definition startListening (r : MediaResult) : M World unit :=
  setError None ;;
  act (GetUserMedia r) (fun w => w) ;;
  match r with
  | Rejected _ =>
      act (ConsoleError "Error starting live audio:") (fun w => w) ;;
      setError (Some "Failed to access microphone. Please check permissions.")
  | Granted =>
      stream <- alloc ;;
      act (Assign StreamRef)
          (fun w => with_streamRef (Some stream)
                      (on_browser (fun b => set_capturing (stream :: capturing b) b) w)) ;;
      audioContext <- alloc ;;
      act (NewAudioContext audioContext)
          (on_browser (fun b => set_contexts (audioContext :: contexts b) b)) ;;
      act (Assign AudioContextRef) (with_audioContextRef (Some audioContext)) ;;
      let analyser := Analyser audioContext in
      act (CreateAnalyser audioContext 2048 (8 # 10)) (fun w => w) ;;
      act (Assign AnalyserRef) (with_analyserRef (Some analyser)) ;;
      let source := MediaStreamSource audioContext stream in
      act (CreateMediaStreamSource audioContext stream) (fun w => w) ;;
      act (Assign SourceRef) (with_sourceRef (Some source)) ;;
      connect source analyser ;;
      connect analyser (Destination audioContext) ;;
      setIsListening true ;;
      act (ConsoleLog "Live audio visualization started") (fun w => w)
  end.

(** *** stopListening *)

Definition stopListening : M World unit :=
  whenSome animationFrameRef cancelAnimationFrame ;;
  whenSome streamRef (fun stream =>
    act (StopTracks stream)
        (on_browser (fun b => set_capturing (remove_handle stream (capturing b)) b)) ;;
    act (Clear StreamRef) (with_streamRef None)) ;;
  whenSome sourceRef (fun source =>
    act (Disconnect source) (on_browser (disconnect_node source)) ;;
    act (Clear SourceRef) (with_sourceRef None)) ;;
  whenSome audioContextRef (fun audioContext =>
    act (CloseContext audioContext)
        (on_browser (fun b => set_contexts (remove_handle audioContext (contexts b)) b)) ;;
    act (Clear AudioContextRef) (with_audioContextRef None)) ;;
  act (Clear AnalyserRef) (with_analyserRef None) ;;
  setIsListening false ;;
  act (ConsoleLog "Live audio visualization stopped") (fun w => w).

(** *** Effects and events *)

(** Running a handler after a computation that may have thrown. *)
Definition and_then (x : unit * World * list Action)
    (k : World -> result (unit * World * list Action))
  : result (unit * World * list Action) :=
  bind (k (state_of x))
       (fun y => Ok (tt, state_of y, trace_of x ++ trace_of y)).

(** The effect with dependencies [[isListening, animate]]: its cleanup and
    its body, for a render in which [isListening] has the value in [w]. *)
Definition effect_cleanup : M World unit :=
  whenSome animationFrameRef cancelAnimationFrame.

Definition animation_effect (p : Props) (snap : Snapshot) (w : World)
  : result (unit * World * list Action) :=
  match isListening w, analyserRef w with
  | true, Some _ => animate p (isListening w) snap w
  | _, _ => Ok (whenSome animationFrameRef cancelAnimationFrame w)
  end.

(** React re-renders after a handler; the effect is run again only when
    [isListening] changed from [old]. *)
Definition commit (p : Props) (old : bool) (snap : Snapshot)
    (x : unit * World * list Action) : result (unit * World * list Action) :=
  if Bool.eqb old (isListening (state_of x)) then Ok x
  else and_then x (fun w => and_then (effect_cleanup w) (animation_effect p snap)).

Inductive Event : Type :=
| Click (r : MediaResult) (snap : Snapshot)  (* the control button; [r] is how
                                                 the microphone request settles *)
| Frame (id : Handle) (snap : Snapshot)      (* the browser runs a scheduled callback *)
| Rerender (snap : Snapshot)                 (* a prop the animation effect depends
                                                 on changed: the effect runs again *)
| Unmount.

Definition captured_by (id : Handle) (w : World) : option bool :=
  option_map snd (find (fun f => Pos.eqb id (fst f)) (pending (browser w))).

(** A click is handled to its end: the microphone request of a start
    settles, with [r], before the next event.  The component is mounted while
    [canvasRef] holds.  [Listener] below has the other interleavings. *)
Definition step (p : Props) (w : World) (e : Event)
  : result (unit * World * list Action) :=
  match e with
  | Click r snap =>
      if canvasRef w then
        commit p (isListening w) snap
               ((if isListening w then stopListening else startListening r) w)
      else Ok (tt, w, [])
  | Frame id snap =>
      match captured_by id w with
      | Some captured => animate p captured snap (on_browser (cancel_frame id) w)
      | None => Ok (tt, w, [])
      end
  | Rerender snap =>
      if canvasRef w then and_then (effect_cleanup w) (animation_effect p snap)
      else Ok (tt, w, [])
  | Unmount =>
      Ok ((effect_cleanup ;; stopListening ;;
           act (Clear CanvasRef) (with_canvasRef false)) w)
  end.

Definition initial : World :=
  {| isListening := false; error := None; canvasRef := true;
     animationFrameRef := None; audioContextRef := None; analyserRef := None;
     streamRef := None; sourceRef := None;
     browser := {| pending := []; fresh := 1%positive; capturing := [];
                   contexts := []; edges := [] |} |}.

(** At most one frame callback is scheduled; it is the one the ref holds,
    it was made by a render in which [isListening] held, and the component is
    still listening. *)
Definition one_pending (w : World) : Prop :=
  pending (browser w) = []
  \/ exists id, pending (browser w) = [(id, true)]
                /\ animationFrameRef w = Some id
                /\ isListening w = true.

(** The states the component can be in; the props may differ from one
    event to the next. *)
Inductive reachable : World -> Prop :=
| reachable_initial : reachable initial
| reachable_step p w e w' t :
    reachable w -> step p w e = Ok (tt, w', t) -> reachable w'.

End LiveAudioVisualizer.

(** ** AudioVisualizer *)

Module AudioVisualizer.

(** The analyser and the playing flag are props here, captured by [animate]
    together with the rest. *)
Record Props : Type := {
  analyser : option Node;
  isPlaying : bool;
  visualizationType : VisualizationType;
  config : RenderConfig
}.

Record World : Type := {
  canvasRef : bool;
  animationFrameRef : option Handle;
  browser : Browser
}.

Definition with_canvasRef (v : bool) (w : World) : World :=
  {| canvasRef := v; animationFrameRef := animationFrameRef w;
     browser := browser w |}.

Definition with_animationFrameRef (v : option Handle) (w : World) : World :=
  {| canvasRef := canvasRef w; animationFrameRef := v;
     browser := browser w |}.

Definition with_browser (v : Browser) (w : World) : World :=
  {| canvasRef := canvasRef w; animationFrameRef := animationFrameRef w;
     browser := v |}.

Definition requestAnimationFrame (captured : bool) : M World Handle :=
  fun w =>
    let id := fresh (browser w) in
    (id,
     with_browser (set_pending (pending (browser w) ++ [(id, captured)])
                     (set_fresh (Pos.succ id) (browser w))) w,
     [RequestAnimationFrame id]).

Definition animate (p : Props) (snap : Snapshot) (w : World)
  : result (unit * World * list Action) :=
  match analyser p with
  | None => Ok (tt, w, [])
  | Some _ =>
      if negb (canvasRef w) || negb (isPlaying p) then Ok (tt, w, [])
      else
        bind (match visualizationType p with
              | waveform => Ok (drawWaveform (config p) snap)
              | spectrum => drawSpectrum (config p) snap
              end)
             (fun calls =>
                Ok ((act (ReadSnapshot (visualizationType p)) (fun w => w) ;;
                     act (Draw calls) (fun w => w) ;;
                     id <- requestAnimationFrame (isPlaying p) ;;
                     act (Assign AnimationFrameRef)
                         (with_animationFrameRef (Some id))) w))
  end.

End AudioVisualizer.

(** ** RecordingVisualizer *)

Module RecordingVisualizer.

Record World : Type := {
  isRecording : bool;
  recordingTime : Z;
  error : option string;
  recordedChunks : list Handle;
  recordingChunks : list Handle;
  animationFrameRef : option Handle;
  audioContextRef : option Handle;
  analyserRef : option Node;
  streamRef : option Handle;
  sourceRef : option Node;
  mediaRecorderRef : option Handle;
  browser : Browser
}.

Definition with_isRecording (v : bool) (w : World) : World :=
  {| isRecording := v; recordingTime := recordingTime w; error := error w;
     recordedChunks := recordedChunks w;
     recordingChunks := recordingChunks w;
     animationFrameRef := animationFrameRef w;
     audioContextRef := audioContextRef w; analyserRef := analyserRef w;
     streamRef := streamRef w; sourceRef := sourceRef w;
     mediaRecorderRef := mediaRecorderRef w; browser := browser w |}.

Definition with_recordingTime (v : Z) (w : World) : World :=
  {| isRecording := isRecording w; recordingTime := v; error := error w;
     recordedChunks := recordedChunks w;
     recordingChunks := recordingChunks w;
     animationFrameRef := animationFrameRef w;
     audioContextRef := audioContextRef w; analyserRef := analyserRef w;
     streamRef := streamRef w; sourceRef := sourceRef w;
     mediaRecorderRef := mediaRecorderRef w; browser := browser w |}.

Definition with_error (v : option string) (w : World) : World :=
  {| isRecording := isRecording w; recordingTime := recordingTime w;
     error := v; recordedChunks := recordedChunks w;
     recordingChunks := recordingChunks w;
     animationFrameRef := animationFrameRef w;
     audioContextRef := audioContextRef w; analyserRef := analyserRef w;
     streamRef := streamRef w; sourceRef := sourceRef w;
     mediaRecorderRef := mediaRecorderRef w; browser := browser w |}.

Definition with_recordedChunks (v : list Handle) (w : World) : World :=
  {| isRecording := isRecording w; recordingTime := recordingTime w;
     error := error w; recordedChunks := v;
     recordingChunks := recordingChunks w;
     animationFrameRef := animationFrameRef w;
     audioContextRef := audioContextRef w; analyserRef := analyserRef w;
     streamRef := streamRef w; sourceRef := sourceRef w;
     mediaRecorderRef := mediaRecorderRef w; browser := browser w |}.

Definition with_recordingChunks (v : list Handle) (w : World) : World :=
  {| isRecording := isRecording w; recordingTime := recordingTime w;
     error := error w; recordedChunks := recordedChunks w;
     recordingChunks := v; animationFrameRef := animationFrameRef w;
     audioContextRef := audioContextRef w; analyserRef := analyserRef w;
     streamRef := streamRef w; sourceRef := sourceRef w;
     mediaRecorderRef := mediaRecorderRef w; browser := browser w |}.

Definition with_audioContextRef (v : option Handle) (w : World) : World :=
  {| isRecording := isRecording w; recordingTime := recordingTime w;
     error := error w; recordedChunks := recordedChunks w;
     recordingChunks := recordingChunks w;
     animationFrameRef := animationFrameRef w; audioContextRef := v;
     analyserRef := analyserRef w; streamRef := streamRef w;
     sourceRef := sourceRef w; mediaRecorderRef := mediaRecorderRef w;
     browser := browser w |}.

Definition with_analyserRef (v : option Node) (w : World) : World :=
  {| isRecording := isRecording w; recordingTime := recordingTime w;
     error := error w; recordedChunks := recordedChunks w;
     recordingChunks := recordingChunks w;
     animationFrameRef := animationFrameRef w;
     audioContextRef := audioContextRef w; analyserRef := v;
     streamRef := streamRef w; sourceRef := sourceRef w;
     mediaRecorderRef := mediaRecorderRef w; browser := browser w |}.

Definition with_streamRef (v : option Handle) (w : World) : World :=
  {| isRecording := isRecording w; recordingTime := recordingTime w;
     error := error w; recordedChunks := recordedChunks w;
     recordingChunks := recordingChunks w;
     animationFrameRef := animationFrameRef w;
     audioContextRef := audioContextRef w; analyserRef := analyserRef w;
     streamRef := v; sourceRef := sourceRef w;
     mediaRecorderRef := mediaRecorderRef w; browser := browser w |}.

Definition with_sourceRef (v : option Node) (w : World) : World :=
  {| isRecording := isRecording w; recordingTime := recordingTime w;
     error := error w; recordedChunks := recordedChunks w;
     recordingChunks := recordingChunks w;
     animationFrameRef := animationFrameRef w;
     audioContextRef := audioContextRef w; analyserRef := analyserRef w;
     streamRef := streamRef w; sourceRef := v;
     mediaRecorderRef := mediaRecorderRef w; browser := browser w |}.

Definition with_mediaRecorderRef (v : option Handle) (w : World) : World :=
  {| isRecording := isRecording w; recordingTime := recordingTime w;
     error := error w; recordedChunks := recordedChunks w;
     recordingChunks := recordingChunks w;
     animationFrameRef := animationFrameRef w;
     audioContextRef := audioContextRef w; analyserRef := analyserRef w;
     streamRef := streamRef w; sourceRef := sourceRef w;
     mediaRecorderRef := v; browser := browser w |}.

Definition with_browser (v : Browser) (w : World) : World :=
  {| isRecording := isRecording w; recordingTime := recordingTime w;
     error := error w; recordedChunks := recordedChunks w;
     recordingChunks := recordingChunks w;
     animationFrameRef := animationFrameRef w;
     audioContextRef := audioContextRef w; analyserRef := analyserRef w;
     streamRef := streamRef w; sourceRef := sourceRef w;
     mediaRecorderRef := mediaRecorderRef w; browser := v |}.

Definition alloc : M World Handle :=
  fun w =>
    (fresh (browser w),
     with_browser (set_fresh (Pos.succ (fresh (browser w))) (browser w)) w,
     []).

Definition on_browser (f : Browser -> Browser) (w : World) : World :=
  with_browser (f (browser w)) w.

Definition connect (a b : Node) : M World unit :=
  act (Connect a b) (on_browser (fun br => set_edges (edges br ++ [(a, b)]) br)).

(** [suspended]: the context is created in the suspended state. *)
Definition startRecording (r : MediaResult) (suspended : bool) : M World unit :=
  act (SetError None) (with_error None) ;;
  act (SetState "recordedChunks") (with_recordedChunks []) ;;
  act (SetState "recordingTime") (with_recordingTime 0%Z) ;;
  act (GetUserMedia r) (fun w => w) ;;
  match r with
  | Rejected _ =>
      act (ConsoleError "Error starting recording:") (fun w => w) ;;
      act (SetError (Some "Failed to access microphone. Please check permissions."))
          (with_error (Some "Failed to access microphone. Please check permissions."))
  | Granted =>
      stream <- alloc ;;
      act (Assign StreamRef)
          (fun w => with_streamRef (Some stream)
                      (on_browser (fun b => set_capturing (stream :: capturing b) b) w)) ;;
      audioContext <- alloc ;;
      act (NewAudioContext audioContext)
          (on_browser (fun b => set_contexts (audioContext :: contexts b) b)) ;;
      act (Assign AudioContextRef) (with_audioContextRef (Some audioContext)) ;;
      (if suspended then act (ResumeContext audioContext) (fun w => w) else ret tt) ;;
      let analyser := Analyser audioContext in
      act (CreateAnalyser audioContext 2048 (8 # 10)) (fun w => w) ;;
      act (Assign AnalyserRef) (with_analyserRef (Some analyser)) ;;
      let source := MediaStreamSource audioContext stream in
      act (CreateMediaStreamSource audioContext stream) (fun w => w) ;;
      act (Assign SourceRef) (with_sourceRef (Some source)) ;;
      connect source analyser ;;
      (* Don't connect to destination to avoid feedback *)
      act (ConsoleLog "Audio setup complete:") (fun w => w) ;;
      mediaRecorder <- alloc ;;
      act (NewMediaRecorder stream) (fun w => w) ;;
      act (Assign MediaRecorderRef) (with_mediaRecorderRef (Some mediaRecorder)) ;;
      act (SetState "recordingChunks") (with_recordingChunks []) ;;
      act (RecorderStart 1000) (fun w => w) ;;
      act (SetActive true) (with_isRecording true) ;;
      act (ConsoleLog "Recording with visualization started") (fun w => w)
  end.

Definition initial : World :=
  {| isRecording := false; recordingTime := 0%Z; error := None;
     recordedChunks := []; recordingChunks := [];
     animationFrameRef := None; audioContextRef := None; analyserRef := None;
     streamRef := None; sourceRef := None; mediaRecorderRef := None;
     browser := {| pending := []; fresh := 1%positive; capturing := [];
                   contexts := []; edges := [] |} |}.

End RecordingVisualizer.

(** ** TextAudioVisualizer: the speech source *)

Module TextAudioVisualizer.

(** The component state, the variables of one [speakText] call that its
    utterance handlers close over ([oscillator], [frequencyModulation],
    [gainModulation]), and the browser: the oscillator, and the interval
    timers that are set.  An [OscillatorNode] can be started once: [started]
    is its "source started" flag, set by the first [start()] and never reset;
    [oscillating] tells whether it is producing its tone, which it does from
    [start()] to [stop()]. *)
Record World : Type := {
  isPlaying : bool;
  isPaused : bool;
  currentTime : Q;
  error : option string;
  sourceRef : option Handle;
  oscillator : Handle;
  frequencyModulation : option Handle;
  gainModulation : option Handle;
  started : bool;
  oscillating : bool;
  intervals : list (Handle * Z);
  fresh_timer : Handle
}.

Definition with_isPlaying (v : bool) (w : World) : World :=
  {| isPlaying := v; isPaused := isPaused w; currentTime := currentTime w;
     error := error w; sourceRef := sourceRef w; oscillator := oscillator w;
     frequencyModulation := frequencyModulation w;
     gainModulation := gainModulation w; started := started w;
     oscillating := oscillating w;
     intervals := intervals w; fresh_timer := fresh_timer w |}.

Definition with_isPaused (v : bool) (w : World) : World :=
  {| isPlaying := isPlaying w; isPaused := v; currentTime := currentTime w;
     error := error w; sourceRef := sourceRef w; oscillator := oscillator w;
     frequencyModulation := frequencyModulation w;
     gainModulation := gainModulation w; started := started w;
     oscillating := oscillating w;
     intervals := intervals w; fresh_timer := fresh_timer w |}.

Definition with_currentTime (v : Q) (w : World) : World :=
  {| isPlaying := isPlaying w; isPaused := isPaused w; currentTime := v;
     error := error w; sourceRef := sourceRef w; oscillator := oscillator w;
     frequencyModulation := frequencyModulation w;
     gainModulation := gainModulation w; started := started w;
     oscillating := oscillating w;
     intervals := intervals w; fresh_timer := fresh_timer w |}.

Definition with_error (v : option string) (w : World) : World :=
  {| isPlaying := isPlaying w; isPaused := isPaused w;
     currentTime := currentTime w; error := v; sourceRef := sourceRef w;
     oscillator := oscillator w;
     frequencyModulation := frequencyModulation w;
     gainModulation := gainModulation w; started := started w;
     oscillating := oscillating w;
     intervals := intervals w; fresh_timer := fresh_timer w |}.

Definition with_sourceRef (v : option Handle) (w : World) : World :=
  {| isPlaying := isPlaying w; isPaused := isPaused w;
     currentTime := currentTime w; error := error w; sourceRef := v;
     oscillator := oscillator w;
     frequencyModulation := frequencyModulation w;
     gainModulation := gainModulation w; started := started w;
     oscillating := oscillating w;
     intervals := intervals w; fresh_timer := fresh_timer w |}.

Definition with_frequencyModulation (v : option Handle) (w : World) : World :=
  {| isPlaying := isPlaying w; isPaused := isPaused w;
     currentTime := currentTime w; error := error w;
     sourceRef := sourceRef w; oscillator := oscillator w;
     frequencyModulation := v; gainModulation := gainModulation w;
     started := started w; oscillating := oscillating w;
     intervals := intervals w; fresh_timer := fresh_timer w |}.

Definition with_gainModulation (v : option Handle) (w : World) : World :=
  {| isPlaying := isPlaying w; isPaused := isPaused w;
     currentTime := currentTime w; error := error w;
     sourceRef := sourceRef w; oscillator := oscillator w;
     frequencyModulation := frequencyModulation w; gainModulation := v;
     started := started w; oscillating := oscillating w;
     intervals := intervals w; fresh_timer := fresh_timer w |}.

(** The oscillator after a successful [start()] ([on] true) or [stop()]. *)
Definition with_oscillating (on : bool) (w : World) : World :=
  {| isPlaying := isPlaying w; isPaused := isPaused w;
     currentTime := currentTime w; error := error w;
     sourceRef := sourceRef w; oscillator := oscillator w;
     frequencyModulation := frequencyModulation w;
     gainModulation := gainModulation w; started := true;
     oscillating := on;
     intervals := intervals w; fresh_timer := fresh_timer w |}.

Definition with_intervals (v : list (Handle * Z)) (w : World) : World :=
  {| isPlaying := isPlaying w; isPaused := isPaused w;
     currentTime := currentTime w; error := error w;
     sourceRef := sourceRef w; oscillator := oscillator w;
     frequencyModulation := frequencyModulation w;
     gainModulation := gainModulation w; started := started w;
     oscillating := oscillating w;
     intervals := v; fresh_timer := fresh_timer w |}.

Definition with_fresh_timer (v : Handle) (w : World) : World :=
  {| isPlaying := isPlaying w; isPaused := isPaused w;
     currentTime := currentTime w; error := error w;
     sourceRef := sourceRef w; oscillator := oscillator w;
     frequencyModulation := frequencyModulation w;
     gainModulation := gainModulation w; started := started w;
     oscillating := oscillating w;
     intervals := intervals w; fresh_timer := v |}.

(** A handler that may throw: it yields [None] when a call in it threw, with
    the state and the calls made up to and including that call. *)
Definition Handler : Type := M World (option unit).

Definition returns (m : M World unit) : Handler :=
  fun w => let '(_, w1, t1) := m w in (Some tt, w1, t1).

Definition and_next (m k : Handler) : Handler :=
  fun w =>
    let '(r, w1, t1) := m w in
    match r with
    | None => (None, w1, t1)
    | Some _ => let '(r2, w2, t2) := k w1 in (r2, w2, t1 ++ t2)
    end.

Local Notation "m >> k" := (and_next m k)
  (at level 62, right associativity, only parsing).

Definition setInterval (ms : Z) : M World Handle :=
  fun w =>
    let id := fresh_timer w in
    (id,
     with_intervals (intervals w ++ [(id, ms)]) (with_fresh_timer (Pos.succ id) w),
     [SetInterval id ms]).

Definition clearInterval (id : Handle) : M World unit :=
  act (ClearInterval id)
      (fun w => with_intervals
                  (filter (fun t => negb (Pos.eqb id (fst t))) (intervals w)) w).

(** [oscillator.start()]: an InvalidStateError when the node has been started
    before. *)
Definition oscillator_start : Handler :=
  fun w =>
    if started w then (None, w, [OscillatorStart (oscillator w)])
    else (Some tt, with_oscillating true w, [OscillatorStart (oscillator w)]).

(** [oscillator.stop()]: an InvalidStateError when the node has never been
    started; a node that has stopped stays stopped. *)
Definition oscillator_stop : Handler :=
  fun w =>
    if started w then (Some tt, with_oscillating false w, [OscillatorStop (oscillator w)])
    else (None, w, [OscillatorStop (oscillator w)]).

Definition startModulation : M World unit :=
  f <- setInterval 100 ;;
  act (Assign FrequencyModulation) (with_frequencyModulation (Some f)) ;;
  g <- setInterval 50 ;;
  act (Assign GainModulation) (with_gainModulation (Some g)).

Definition stopModulation : M World unit :=
  whenSome frequencyModulation clearInterval ;;
  whenSome gainModulation clearInterval.

Definition onstart : Handler :=
  returns (act (SetActive true) (with_isPlaying true) ;;
           act (SetState "isPaused") (with_isPaused false)) >>
  oscillator_start >>
  returns (startModulation ;;
           act (ConsoleLog "Speech started with visualization") (fun w => w)).

Definition onend : Handler :=
  returns (act (SetActive false) (with_isPlaying false) ;;
           act (SetState "isPaused") (with_isPaused false) ;;
           act (SetState "currentTime") (with_currentTime 0)) >>
  oscillator_stop >>
  returns (stopModulation ;;
           act (ConsoleLog "Speech ended") (fun w => w)).

Definition onpause : Handler :=
  returns (act (SetState "isPaused") (with_isPaused true)) >>
  oscillator_stop >>
  returns (stopModulation ;;
           act (ConsoleLog "Speech paused") (fun w => w)).

Definition onresume : Handler :=
  returns (act (SetState "isPaused") (with_isPaused false)) >>
  oscillator_start >>
  returns (startModulation ;;
           act (ConsoleLog "Speech resumed") (fun w => w)).

Definition onerror (e : string) : Handler :=
  returns (act (SetError (Some ("Speech synthesis error: " ++ e)%string))
               (with_error (Some ("Speech synthesis error: " ++ e)%string)) ;;
           act (SetActive false) (with_isPlaying false) ;;
           act (SetState "isPaused") (with_isPaused false)) >>
  oscillator_stop >>
  returns stopModulation.

Definition stopSpeech : Handler :=
  returns (act SpeechCancel (fun w => w)) >>
  (fun w => match sourceRef w with
            | Some _ =>
                (oscillator_stop >>
                 returns (act (Clear SourceRef) (with_sourceRef None))) w
            | None => (Some tt, w, [])
            end) >>
  returns (act (SetActive false) (with_isPlaying false) ;;
           act (SetState "isPaused") (with_isPaused false) ;;
           act (SetState "currentTime") (with_currentTime 0)).

(** The events of an utterance. *)
Inductive UtteranceEvent : Type :=
| Start
| End
| Pause
| Resume
| Failure (e : string).

Definition handle (e : UtteranceEvent) : Handler :=
  match e with
  | Start => onstart
  | End => onend
  | Pause => onpause
  | Resume => onresume
  | Failure msg => onerror msg
  end.

(** The engine dispatches the events one after the other; an exception in a
    handler is reported and ends that handler only. *)
Fixpoint run (es : list UtteranceEvent) (w : World) : World :=
  match es with
  | [] => w
  | e :: rest => run rest (state_of (handle e w))
  end.

(** The state the speech engine has an utterance in, and the events it
    dispatches from each. *)
Inductive UtteranceState : Type :=
| Queued
| Speaking
| Paused
| Finished.

Definition dispatch (s : UtteranceState) (e : UtteranceEvent) : option UtteranceState :=
  match s, e with
  | Queued, Start => Some Speaking
  | Queued, Failure _ => Some Finished
  | Speaking, Pause => Some Paused
  | Paused, Resume => Some Speaking
  | Speaking, End => Some Finished
  | Speaking, Failure _ => Some Finished
  | Paused, End => Some Finished
  | Paused, Failure _ => Some Finished
  | _, _ => None
  end.

Fixpoint dispatched (s : UtteranceState) (es : list UtteranceEvent) : option UtteranceState :=
  match es with
  | [] => Some s
  | e :: rest =>
      match dispatch s e with
      | Some s' => dispatched s' rest
      | None => None
      end
  end.

(** The state right after [speakText] has created the oscillator [osc] and
    handed the utterance to the engine. *)
Definition spoken (osc : Handle) (next_timer : Handle) : World :=
  {| isPlaying := false; isPaused := false; currentTime := 0; error := None;
     sourceRef := Some osc; oscillator := osc;
     frequencyModulation := None; gainModulation := None;
     started := false; oscillating := false;
     intervals := []; fresh_timer := next_timer |}.

(** The oscillator and its two modulation timers are on exactly while the
    utterance is being spoken. *)
Definition in_sync (s : UtteranceState) (w : World) : Prop :=
  match s with
  | Speaking =>
      oscillating w = true
      /\ exists f g, intervals w = [(f, 100%Z); (g, 50%Z)]
                     /\ frequencyModulation w = Some f
                     /\ gainModulation w = Some g
  | _ => oscillating w = false /\ intervals w = []
  end.

(** The calls of a handler on the oscillator and on the timers. *)
Definition audio_calls (t : list Action) : list Action :=
  filter (fun a => match a with
                   | OscillatorStart _ | OscillatorStop _
                   | SetInterval _ _ | ClearInterval _ => true
                   | _ => false
                   end) t.

Definition resumes (e : UtteranceEvent) : bool :=
  match e with
  | Resume => true
  | _ => false
  end.

End TextAudioVisualizer.

(** ** formatTime *)

(** The same function is in TextAudioVisualizer, RecordingVisualizer and the
    playback controls. *)
Module Time.

(** [Number.prototype.toString] on a whole number below 2^53 in absolute
    value, which a double holds exactly and the source prints digit by
    digit. *)
Definition toString (z : Z) : string := NilZero.string_of_int (Z.to_int z).

(** Truncation towards zero, and the remainder [a % b], which has the sign of
    the dividend. *)
Definition Qtrunc (x : Q) : Z := if Qle_bool 0 x then Qfloor x else Qceiling x.

Definition remainder (a b : Q) : Q := a - b * inject_Z (Qtrunc (a / b)).

Fixpoint replicate (n : nat) (c : ascii) : string :=
  match n with
  | O => EmptyString
  | S n' => String c (replicate n' c)
  end.

(** [s.padStart(targetLength, c)] for a one-character pad string. *)
Definition padStart (targetLength : nat) (c : ascii) (s : string) : string :=
  (replicate (targetLength - String.length s) c ++ s)%string.

Definition formatTime (time : Q) : string :=
  let mins := Qfloor (time / 60) in
  let secs := Qfloor (remainder time 60) in
  (toString mins ++ ":" ++ padStart 2 "0" (toString secs))%string.

Definition is_digit (c : ascii) : bool :=
  (48 <=? nat_of_ascii c)%nat && (nat_of_ascii c <=? 57)%nat.

End Time.

(** ** TabView *)

Module TabView.

Section Tabs.
Context {Content : Type}.

Record Tab : Type := {
  id : string;
  label : string;
  content : Content
}.

(** [a || b] on strings that may be [undefined]: the empty string is falsy. *)
Definition or_else (a : option string) (b : option string) : option string :=
  match a with
  | Some EmptyString => b
  | Some _ => a
  | None => b
  end.

(** The initial state: [defaultTab || tabs[0]?.id || '']. *)
Definition initialTab (tabs : list Tab) (defaultTab : option string) : string :=
  match or_else (or_else defaultTab (option_map id (hd_error tabs))) (Some EmptyString) with
  | Some s => s
  | None => EmptyString
  end.

(** The click handler of the button of [tab]. *)
Definition onClick (tab : Tab) (activeTab : string) : string := id tab.

(** [tabs.find(tab => tab.id === activeTab)?.content] *)
Definition shown (tabs : list Tab) (activeTab : string) : option Content :=
  option_map content (find (fun tab => String.eqb (id tab) activeTab) tabs).

(** The buttons drawn as selected. *)
Definition highlighted (tabs : list Tab) (activeTab : string) : list Tab :=
  filter (fun tab => String.eqb activeTab (id tab)) tabs.

End Tabs.

Arguments Tab : clear implicits.

End TabView.

(** ** Definitions used in the statements *)

(** What a [Uint8Array] holds. *)
Definition byte_samples (data : Snapshot) : Prop :=
  Forall (fun s => (0 <= s <= 255)%Z) data.

(** What a list of calls paints: the rectangles it fills, in order, each with
    the fill style in force when it is filled; [style] is the fill style
    before the first call. *)
Fixpoint filled (style : FillStyle) (calls : list CanvasCall)
  : list (FillStyle * (Q * Q * Q * Q)) :=
  match calls with
  | [] => []
  | setFillStyle f :: rest => filled f rest
  | fillRect x y w h :: rest => (style, (x, y, w, h)) :: filled style rest
  | _ :: rest => filled style rest
  end.

(** A whole number below 2^53 in absolute value ([Number.isSafeInteger]).
    Sums, products and floored quotients of such numbers that stay in this
    range are the same in binary64 and in exact arithmetic, so for props of
    this kind the number of bars and their abscissas are those of the
    source. *)
Definition safe_integer (q : Q) : Prop :=
  exists z : Z, q == inject_Z z /\ (Z.abs z < 2 ^ 53)%Z.


Definition three_tabs : list (TabView.Tab nat) :=
  [ {| TabView.id := "file"; TabView.label := "File"; TabView.content := 1%nat |};
    {| TabView.id := "live"; TabView.label := "Live"; TabView.content := 2%nat |};
    {| TabView.id := "text"; TabView.label := "Text"; TabView.content := 3%nat |} ].


(** The defaults of LiveAudioVisualizer's props. *)
Definition live_defaults : RenderConfig :=
  {| width := 800; height := 200; barWidth := 4; barGap := 2;
     barColor := "#3b82f6"; backgroundColor := "#ffffff"; shade := "#1d4ed8" |}.

(** The ordinate the loop gives a sample. *)
Definition sample_y (cfg : RenderConfig) (s : Z) : Q :=
  (inject_Z s / 128 * height cfg) / 2.

Definition live_props : LiveAudioVisualizer.Props :=
  {| LiveAudioVisualizer.visualizationType := spectrum; LiveAudioVisualizer.config := live_defaults |}.

(** What [animate] draws. *)
Definition draw (p : LiveAudioVisualizer.Props) (snap : Snapshot)
  : result (list CanvasCall) :=
  match LiveAudioVisualizer.visualizationType p with
  | waveform => Ok (drawWaveform (LiveAudioVisualizer.config p) snap)
  | spectrum => drawSpectrum (LiveAudioVisualizer.config p) snap
  end.

(** The seconds field of [k]: two digits that spell [k]. *)
Definition two_digits_check (k : Z) : bool :=
  match Time.padStart 2 "0" (Time.toString k) with
  | String a (String b EmptyString) =>
      Time.is_digit a && Time.is_digit b
      && (k =? 10 * (Z.of_nat (nat_of_ascii a) - 48) + (Z.of_nat (nat_of_ascii b) - 48))%Z
  | _ => false
  end.

(** ** LiveAudioVisualizer: every interleaving *)

(** [LiveAudioVisualizer.step] handles a click to its end: the microphone
    request of a start settles before the next event.  [startListening] is
    async, though: between its call of [getUserMedia] and the moment the
    request settles the component handles other events, the start button is
    still offered, and the component may be unmounted.  [Listener] takes the
    two halves of [startListening] as two events. *)
Module Listener.

(** The component, whether it is mounted, and the number of calls of
    [getUserMedia] that have not settled yet.  [canvasRef] of the component
    holds while it is mounted and its canvas gives a 2D context. *)
Record World : Type := {
  component : LiveAudioVisualizer.World;
  mounted : bool;
  requests : nat
}.

(** [startListening] up to its [await] ... *)
Definition request : M LiveAudioVisualizer.World unit :=
  LiveAudioVisualizer.setError None.

(** ... and from there on, once the request has settled with [r]. *)
Definition settled (r : MediaResult) : M LiveAudioVisualizer.World unit :=
  act (GetUserMedia r) (fun w => w) ;;
  match r with
  | Rejected _ =>
      act (ConsoleError "Error starting live audio:") (fun w => w) ;;
      LiveAudioVisualizer.setError
        (Some "Failed to access microphone. Please check permissions.")
  | Granted =>
      stream <- LiveAudioVisualizer.alloc ;;
      act (Assign StreamRef)
          (fun w => LiveAudioVisualizer.with_streamRef (Some stream)
                      (LiveAudioVisualizer.on_browser
                         (fun b => set_capturing (stream :: capturing b) b) w)) ;;
      audioContext <- LiveAudioVisualizer.alloc ;;
      act (NewAudioContext audioContext)
          (LiveAudioVisualizer.on_browser
             (fun b => set_contexts (audioContext :: contexts b) b)) ;;
      act (Assign AudioContextRef)
          (LiveAudioVisualizer.with_audioContextRef (Some audioContext)) ;;
      let analyser := Analyser audioContext in
      act (CreateAnalyser audioContext 2048 (8 # 10)) (fun w => w) ;;
      act (Assign AnalyserRef) (LiveAudioVisualizer.with_analyserRef (Some analyser)) ;;
      let source := MediaStreamSource audioContext stream in
      act (CreateMediaStreamSource audioContext stream) (fun w => w) ;;
      act (Assign SourceRef) (LiveAudioVisualizer.with_sourceRef (Some source)) ;;
      LiveAudioVisualizer.connect source analyser ;;
      LiveAudioVisualizer.connect analyser (Destination audioContext) ;;
      LiveAudioVisualizer.setIsListening true ;;
      act (ConsoleLog "Live audio visualization started") (fun w => w)
  end.

(** React drops the state updates of a component that is unmounted: the
    refs and the browser are as the handler left them ([new]), the state is
    what it was ([old]). *)
Definition dropped_updates (old new : LiveAudioVisualizer.World)
  : LiveAudioVisualizer.World :=
  {| LiveAudioVisualizer.isListening := LiveAudioVisualizer.isListening old;
     LiveAudioVisualizer.error := LiveAudioVisualizer.error old;
     LiveAudioVisualizer.canvasRef := LiveAudioVisualizer.canvasRef new;
     LiveAudioVisualizer.animationFrameRef := LiveAudioVisualizer.animationFrameRef new;
     LiveAudioVisualizer.audioContextRef := LiveAudioVisualizer.audioContextRef new;
     LiveAudioVisualizer.analyserRef := LiveAudioVisualizer.analyserRef new;
     LiveAudioVisualizer.streamRef := LiveAudioVisualizer.streamRef new;
     LiveAudioVisualizer.sourceRef := LiveAudioVisualizer.sourceRef new;
     LiveAudioVisualizer.browser := LiveAudioVisualizer.browser new |}.

Inductive Event : Type :=
| Click (snap : Snapshot)                    (* the control button *)
| Settle (r : MediaResult) (snap : Snapshot) (* a microphone request settles *)
| Frame (id : Handle) (snap : Snapshot)      (* the browser runs a scheduled callback *)
| Rerender (snap : Snapshot)                 (* a prop the animation effect depends
                                                on changed: the effect runs again *)
| Unmount.

(** The component after a handler, in a world that is otherwise as [w] with
    [n] requests pending. *)
Definition within (w : World) (n : nat)
    (x : result (unit * LiveAudioVisualizer.World * list Action))
  : result (unit * World * list Action) :=
  bind x (fun y => Ok (tt,
                       {| component := state_of y; mounted := mounted w; requests := n |},
                       trace_of y)).

(** [snap] is what the analyser hands out, should the event draw a frame. *)
Definition step (p : LiveAudioVisualizer.Props) (w : World) (e : Event)
  : result (unit * World * list Action) :=
  let c := component w in
  match e with
  | Click snap =>
      (* onClick={isListening ? stopListening : startListening} *)
      if mounted w then
        if LiveAudioVisualizer.isListening c
        then within w (requests w)
               (LiveAudioVisualizer.commit p true snap (LiveAudioVisualizer.stopListening c))
        else within w (S (requests w))
               (LiveAudioVisualizer.commit p false snap (request c))
      else Ok (tt, w, [])
  | Settle r snap =>
      match requests w with
      | O => Ok (tt, w, [])
      | S n =>
          if mounted w
          then within w n
                 (LiveAudioVisualizer.commit p (LiveAudioVisualizer.isListening c) snap
                    (settled r c))
          else Ok (tt,
                   {| component := dropped_updates c (state_of (settled r c));
                      mounted := false; requests := n |},
                   trace_of (settled r c))
      end
  | Frame id snap =>
      match LiveAudioVisualizer.captured_by id c with
      | Some captured =>
          within w (requests w)
            (LiveAudioVisualizer.animate p captured snap
               (LiveAudioVisualizer.on_browser (cancel_frame id) c))
      | None => Ok (tt, w, [])
      end
  | Rerender snap =>
      if mounted w
      then within w (requests w)
             (LiveAudioVisualizer.and_then (LiveAudioVisualizer.effect_cleanup c)
                (LiveAudioVisualizer.animation_effect p snap))
      else Ok (tt, w, [])
  | Unmount =>
      if mounted w
      then within {| component := c; mounted := false; requests := requests w |}
             (requests w)
             (Ok ((LiveAudioVisualizer.effect_cleanup ;;
                   LiveAudioVisualizer.stopListening ;;
                   act (Clear CanvasRef) (LiveAudioVisualizer.with_canvasRef false)) c))
      else Ok (tt, w, [])
  end.

(** The component as it is mounted; [context2d] tells whether its canvas
    gives a 2D context. *)
Definition initial (context2d : bool) : World :=
  {| component := LiveAudioVisualizer.with_canvasRef context2d LiveAudioVisualizer.initial;
     mounted := true; requests := 0 |}.

Inductive reachable : World -> Prop :=
| reachable_initial context2d : reachable (initial context2d)
| reachable_step p w e w' t :
    reachable w -> step p w e = Ok (tt, w', t) -> reachable w'.

(** A sequence of events, each with the props of the render it meets. *)
Fixpoint run (es : list (LiveAudioVisualizer.Props * Event)) (w : World) : result World :=
  match es with
  | [] => Ok w
  | (p, e) :: rest => bind (step p w e) (fun x => run rest (state_of x))
  end.

End Listener.

(** The stream the refs name is live and the context they name is open, the
    source feeds the analyser and the analyser the destination; or the four
    refs are clear. *)
Definition refs_coherent (c : LiveAudioVisualizer.World) : Prop :=
  match LiveAudioVisualizer.streamRef c with
  | Some stream =>
      exists ctx,
        LiveAudioVisualizer.audioContextRef c = Some ctx
        /\ LiveAudioVisualizer.analyserRef c = Some (Analyser ctx)
        /\ LiveAudioVisualizer.sourceRef c = Some (MediaStreamSource ctx stream)
        /\ In stream (capturing (LiveAudioVisualizer.browser c))
        /\ In ctx (contexts (LiveAudioVisualizer.browser c))
        /\ In (MediaStreamSource ctx stream, Analyser ctx)
              (edges (LiveAudioVisualizer.browser c))
        /\ In (Analyser ctx, Destination ctx) (edges (LiveAudioVisualizer.browser c))
  | None =>
      LiveAudioVisualizer.audioContextRef c = None
      /\ LiveAudioVisualizer.analyserRef c = None
      /\ LiveAudioVisualizer.sourceRef c = None
  end.

(** Every stream and context the browser holds was made before the next
    handle. *)
Definition handles_below (c : LiveAudioVisualizer.World) : Prop :=
  Forall (fun h => (h < fresh (LiveAudioVisualizer.browser c))%positive)
         (capturing (LiveAudioVisualizer.browser c))
  /\ Forall (fun h => (h < fresh (LiveAudioVisualizer.browser c))%positive)
            (contexts (LiveAudioVisualizer.browser c)).

(** What holds of the audio resources in every state: the refs are coherent;
    the mounted component is listening exactly when its refs are set; the
    unmounted one is not listening and has no canvas. *)
Definition audio_invariant (m : bool) (c : LiveAudioVisualizer.World) : Prop :=
  refs_coherent c
  /\ handles_below c
  /\ (if m
      then LiveAudioVisualizer.isListening c
           = match LiveAudioVisualizer.streamRef c with Some _ => true | None => false end
      else LiveAudioVisualizer.isListening c = false
           /\ LiveAudioVisualizer.canvasRef c = false).

(** What holds of the render loop in every state: at most one frame
    callback is scheduled, none without a canvas, and exactly one while the
    component listens and has its canvas. *)
Definition frames_invariant (c : LiveAudioVisualizer.World) : Prop :=
  LiveAudioVisualizer.one_pending c
  /\ (LiveAudioVisualizer.canvasRef c = false ->
      pending (LiveAudioVisualizer.browser c) = [])
  /\ (LiveAudioVisualizer.isListening c = true ->
      LiveAudioVisualizer.canvasRef c = true ->
      exists id, pending (LiveAudioVisualizer.browser c) = [(id, true)]
                 /\ LiveAudioVisualizer.animationFrameRef c = Some id).

Definition listener_invariant (w : Listener.World) : Prop :=
  audio_invariant (Listener.mounted w) (Listener.component w)
  /\ frames_invariant (Listener.component w).

(** Two states of the component that differ in the render loop only: in the
    scheduled callbacks, the frame ref and the handle counter. *)
Definition same_audio (c c' : LiveAudioVisualizer.World) : Prop :=
  LiveAudioVisualizer.isListening c' = LiveAudioVisualizer.isListening c
  /\ LiveAudioVisualizer.error c' = LiveAudioVisualizer.error c
  /\ LiveAudioVisualizer.canvasRef c' = LiveAudioVisualizer.canvasRef c
  /\ LiveAudioVisualizer.streamRef c' = LiveAudioVisualizer.streamRef c
  /\ LiveAudioVisualizer.sourceRef c' = LiveAudioVisualizer.sourceRef c
  /\ LiveAudioVisualizer.audioContextRef c' = LiveAudioVisualizer.audioContextRef c
  /\ LiveAudioVisualizer.analyserRef c' = LiveAudioVisualizer.analyserRef c
  /\ capturing (LiveAudioVisualizer.browser c') = capturing (LiveAudioVisualizer.browser c)
  /\ contexts (LiveAudioVisualizer.browser c') = contexts (LiveAudioVisualizer.browser c)
  /\ edges (LiveAudioVisualizer.browser c') = edges (LiveAudioVisualizer.browser c)
  /\ (fresh (LiveAudioVisualizer.browser c) <= fresh (LiveAudioVisualizer.browser c'))%positive.

(** The state [LiveAudioVisualizer.stopListening] ends in, field by field. *)
Definition stopped_listening (c : LiveAudioVisualizer.World) : LiveAudioVisualizer.World :=
  let b := LiveAudioVisualizer.browser c in
  {| LiveAudioVisualizer.isListening := false;
     LiveAudioVisualizer.error := LiveAudioVisualizer.error c;
     LiveAudioVisualizer.canvasRef := LiveAudioVisualizer.canvasRef c;
     LiveAudioVisualizer.animationFrameRef := LiveAudioVisualizer.animationFrameRef c;
     LiveAudioVisualizer.audioContextRef := None;
     LiveAudioVisualizer.analyserRef := None;
     LiveAudioVisualizer.streamRef := None;
     LiveAudioVisualizer.sourceRef := None;
     LiveAudioVisualizer.browser :=
       {| pending := match LiveAudioVisualizer.animationFrameRef c with
                     | Some id => filter (fun f => negb (Pos.eqb id (fst f))) (pending b)
                     | None => pending b
                     end;
          fresh := fresh b;
          capturing := match LiveAudioVisualizer.streamRef c with
                       | Some stream => remove_handle stream (capturing b)
                       | None => capturing b
                       end;
          contexts := match LiveAudioVisualizer.audioContextRef c with
                      | Some ctx => remove_handle ctx (contexts b)
                      | None => contexts b
                      end;
          edges := match LiveAudioVisualizer.sourceRef c with
                   | Some source =>
                       filter (fun e => negb (node_eqb source (fst e))) (edges b)
                   | None => edges b
                   end |} |}.

(** The state the continuation of a granted [startListening] ends in. *)
Definition granted (c : LiveAudioVisualizer.World) : LiveAudioVisualizer.World :=
  let b := LiveAudioVisualizer.browser c in
  let stream := fresh b in
  let ctx := Pos.succ stream in
  {| LiveAudioVisualizer.isListening := true;
     LiveAudioVisualizer.error := LiveAudioVisualizer.error c;
     LiveAudioVisualizer.canvasRef := LiveAudioVisualizer.canvasRef c;
     LiveAudioVisualizer.animationFrameRef := LiveAudioVisualizer.animationFrameRef c;
     LiveAudioVisualizer.audioContextRef := Some ctx;
     LiveAudioVisualizer.analyserRef := Some (Analyser ctx);
     LiveAudioVisualizer.streamRef := Some stream;
     LiveAudioVisualizer.sourceRef := Some (MediaStreamSource ctx stream);
     LiveAudioVisualizer.browser :=
       {| pending := pending b;
          fresh := Pos.succ ctx;
          capturing := stream :: capturing b;
          contexts := ctx :: contexts b;
          edges := (edges b ++ [(MediaStreamSource ctx stream, Analyser ctx)])
                   ++ [(Analyser ctx, Destination ctx)] |} |}.

(** The browser holds no stream and no context but those the refs name. *)
Definition holds_only_named (c : LiveAudioVisualizer.World) : Prop :=
  capturing (LiveAudioVisualizer.browser c)
  = match LiveAudioVisualizer.streamRef c with Some stream => [stream] | None => [] end
  /\ contexts (LiveAudioVisualizer.browser c)
     = match LiveAudioVisualizer.audioContextRef c with Some ctx => [ctx] | None => [] end.

(** A stream that is live and that no handler will stop: the component is
    unmounted, or its stream ref names another stream or none. *)
Definition leaked (w : Listener.World) (stream : Handle) : Prop :=
  In stream (capturing (LiveAudioVisualizer.browser (Listener.component w)))
  /\ (Listener.mounted w = false
      \/ LiveAudioVisualizer.streamRef (Listener.component w) <> Some stream).

(** LiveAudioVisualizer after a granted start whose first frame has been
    drawn. *)
Definition listening_state : LiveAudioVisualizer.World :=
  {| LiveAudioVisualizer.isListening := true;
     LiveAudioVisualizer.error := None;
     LiveAudioVisualizer.canvasRef := true;
     LiveAudioVisualizer.animationFrameRef := Some 3%positive;
     LiveAudioVisualizer.audioContextRef := Some 2%positive;
     LiveAudioVisualizer.analyserRef := Some (Analyser 2%positive);
     LiveAudioVisualizer.streamRef := Some 1%positive;
     LiveAudioVisualizer.sourceRef := Some (MediaStreamSource 2%positive 1%positive);
     LiveAudioVisualizer.browser :=
       {| pending := [(3%positive, true)]; fresh := 4%positive;
          capturing := [1%positive]; contexts := [2%positive];
          edges := [(MediaStreamSource 2%positive 1%positive, Analyser 2%positive);
                    (Analyser 2%positive, Destination 2%positive)] |} |}.

(** The mounted component listening, with no request pending, and with one
    (the start button was clicked twice before the first request settled). *)
Definition listening : Listener.World :=
  {| Listener.component := listening_state;
     Listener.mounted := true; Listener.requests := 0 |}.

Definition overlapping : Listener.World :=
  {| Listener.component := listening_state;
     Listener.mounted := true; Listener.requests := 1 |}.

(** The component unmounted while its request was pending, after the request
    has been granted. *)
Definition abandoned : Listener.World :=
  {| Listener.component :=
       {| LiveAudioVisualizer.isListening := false;
          LiveAudioVisualizer.error := None;
          LiveAudioVisualizer.canvasRef := false;
          LiveAudioVisualizer.animationFrameRef := None;
          LiveAudioVisualizer.audioContextRef := Some 2%positive;
          LiveAudioVisualizer.analyserRef := Some (Analyser 2%positive);
          LiveAudioVisualizer.streamRef := Some 1%positive;
          LiveAudioVisualizer.sourceRef := Some (MediaStreamSource 2%positive 1%positive);
          LiveAudioVisualizer.browser :=
            {| pending := []; fresh := 3%positive;
               capturing := [1%positive]; contexts := [2%positive];
               edges := [(MediaStreamSource 2%positive 1%positive, Analyser 2%positive);
                         (Analyser 2%positive, Destination 2%positive)] |} |};
     Listener.mounted := false; Listener.requests := 0 |}.

(** The mounted component after a click on the start button: one request is
    pending. *)
Definition requesting : Listener.World :=
  {| Listener.component := LiveAudioVisualizer.initial;
     Listener.mounted := true; Listener.requests := 1 |}.

(** ** RecordingVisualizer: stopping, and the render after a start *)

Module Recorder.

(** The component of [RecordingVisualizer], whether it is mounted with its
    canvas, and the MediaRecorders the component has started and has not
    called [stop()] on.  This follows the calls of the component, not the
    recorder's own state: the browser ends a recorder by itself once the
    tracks it records have ended. *)
Record World : Type := {
  component : RecordingVisualizer.World;
  mounted : bool;
  recording : list Handle
}.

Definition on_component (f : RecordingVisualizer.World -> RecordingVisualizer.World)
    (w : World) : World :=
  {| component := f (component w); mounted := mounted w; recording := recording w |}.

Definition set_recording (r : list Handle) (w : World) : World :=
  {| component := component w; mounted := mounted w; recording := r |}.

Definition set_animationFrameRef (r : option Handle) (c : RecordingVisualizer.World)
  : RecordingVisualizer.World :=
  {| RecordingVisualizer.isRecording := RecordingVisualizer.isRecording c;
     RecordingVisualizer.recordingTime := RecordingVisualizer.recordingTime c;
     RecordingVisualizer.error := RecordingVisualizer.error c;
     RecordingVisualizer.recordedChunks := RecordingVisualizer.recordedChunks c;
     RecordingVisualizer.recordingChunks := RecordingVisualizer.recordingChunks c;
     RecordingVisualizer.animationFrameRef := r;
     RecordingVisualizer.audioContextRef := RecordingVisualizer.audioContextRef c;
     RecordingVisualizer.analyserRef := RecordingVisualizer.analyserRef c;
     RecordingVisualizer.streamRef := RecordingVisualizer.streamRef c;
     RecordingVisualizer.sourceRef := RecordingVisualizer.sourceRef c;
     RecordingVisualizer.mediaRecorderRef := RecordingVisualizer.mediaRecorderRef c;
     RecordingVisualizer.browser := RecordingVisualizer.browser c |}.

(** [startRecording]; [mediaRecorder.start(1000)] starts the new recorder. *)
Definition startRecording (r : MediaResult) (suspended : bool) (w : World) : World :=
  let c := state_of (RecordingVisualizer.startRecording r suspended (component w)) in
  {| component := c;
     mounted := mounted w;
     recording := match r, RecordingVisualizer.mediaRecorderRef c with
                  | Granted, Some rec => rec :: recording w
                  | _, _ => recording w
                  end |}.

(** [if (ref.current) { ... }] on the component. *)
Definition when_ref {A} (r : RecordingVisualizer.World -> option A)
    (k : A -> World -> World) (w : World) : World :=
  match r (component w) with
  | Some a => k a w
  | None => w
  end.

(** [stopRecording] of a render in which [isRecording] had the value
    [isRecording]: the callback is made again only when that state changes. *)
Definition stopRecording (isRecording : bool) (w : World) : World :=
  let w := when_ref RecordingVisualizer.mediaRecorderRef
             (fun rec w => if isRecording
                           then set_recording (remove_handle rec (recording w)) w
                           else w) w in
  let w := when_ref RecordingVisualizer.animationFrameRef
             (fun id => on_component (RecordingVisualizer.on_browser (cancel_frame id))) w in
  let w := when_ref RecordingVisualizer.streamRef
             (fun stream w =>
                on_component (RecordingVisualizer.with_streamRef None)
                  (on_component (RecordingVisualizer.on_browser
                     (fun b => set_capturing (remove_handle stream (capturing b)) b)) w)) w in
  let w := when_ref RecordingVisualizer.sourceRef
             (fun source w =>
                on_component (RecordingVisualizer.with_sourceRef None)
                  (on_component (RecordingVisualizer.on_browser (disconnect_node source)) w)) w in
  let w := when_ref RecordingVisualizer.audioContextRef
             (fun ctx w =>
                on_component (RecordingVisualizer.with_audioContextRef None)
                  (on_component (RecordingVisualizer.on_browser
                     (fun b => set_contexts (remove_handle ctx (contexts b)) b)) w)) w in
  let w := on_component (RecordingVisualizer.with_mediaRecorderRef None) w in
  let w := on_component (RecordingVisualizer.with_analyserRef None) w in
  on_component (RecordingVisualizer.with_isRecording false) w.

(** [animate] of a render in which [isRecording] was [captured]. *)
Definition animate (p : LiveAudioVisualizer.Props) (captured : bool) (snap : Snapshot)
    (w : World) : result World :=
  match RecordingVisualizer.analyserRef (component w) with
  | None => Ok w
  | Some _ =>
      if negb (mounted w) || negb captured then Ok w
      else
        bind (draw p snap)
             (fun _ =>
                let id := fresh (RecordingVisualizer.browser (component w)) in
                Ok (on_component
                      (fun c => set_animationFrameRef (Some id)
                                  (RecordingVisualizer.on_browser
                                     (fun b => set_pending (pending b ++ [(id, captured)])
                                                 (set_fresh (Pos.succ id) b)) c)) w))
  end.

Definition cancel_scheduled : World -> World :=
  when_ref RecordingVisualizer.animationFrameRef
    (fun id => on_component (RecordingVisualizer.on_browser (cancel_frame id))).

(** A re-render in which [isRecording] is no longer [old].  Two effects
    depend on it and touch the resources: the animation effect, with
    dependencies [[isRecording, animate]], and the effect whose cleanup calls
    [stopRecording], with dependencies [[stopRecording]] (a new callback
    whenever [isRecording] changes).  React first runs the cleanups of the
    previous render, then the bodies of this one. *)
Definition rerender (p : LiveAudioVisualizer.Props) (old : bool) (snap : Snapshot)
    (w : World) : result World :=
  let w := cancel_scheduled w in       (* cleanup of the animation effect *)
  let w := stopRecording old w in      (* cleanup of the effect on stopRecording *)
  match negb old, RecordingVisualizer.analyserRef (component w) with
  | true, Some _ => animate p (negb old) snap w
  | _, _ => Ok (cancel_scheduled w)
  end.

(** The renders that follow a handler, until the state the last render saw
    is the state the component is in. *)
Definition commit (p : LiveAudioVisualizer.Props) (old : bool) (snap : Snapshot)
    (w : World) : result World :=
  let seen := RecordingVisualizer.isRecording (component w) in
  if Bool.eqb old seen then Ok w
  else
    bind (rerender p old snap w)
         (fun w1 =>
            if Bool.eqb (RecordingVisualizer.isRecording (component w1)) seen then Ok w1
            else rerender p seen snap w1).

(** A click on the control button, [isRecording ? stopRecording : startRecording]. *)
Definition click (p : LiveAudioVisualizer.Props) (r : MediaResult) (suspended : bool)
    (snap : Snapshot) (w : World) : result World :=
  if mounted w then
    let old := RecordingVisualizer.isRecording (component w) in
    commit p old snap
           (if old then stopRecording old w else startRecording r suspended w)
  else Ok w.

Definition initial : World :=
  {| component := RecordingVisualizer.initial; mounted := true; recording := [] |}.

End Recorder.

(** The state [Recorder.stopRecording] ends in, field by field. *)
Definition stopped (isRecording : bool) (w : Recorder.World) : Recorder.World :=
  let c := Recorder.component w in
  let b := RecordingVisualizer.browser c in
  {| Recorder.component :=
       {| RecordingVisualizer.isRecording := false;
          RecordingVisualizer.recordingTime := RecordingVisualizer.recordingTime c;
          RecordingVisualizer.error := RecordingVisualizer.error c;
          RecordingVisualizer.recordedChunks := RecordingVisualizer.recordedChunks c;
          RecordingVisualizer.recordingChunks := RecordingVisualizer.recordingChunks c;
          RecordingVisualizer.animationFrameRef := RecordingVisualizer.animationFrameRef c;
          RecordingVisualizer.audioContextRef := None;
          RecordingVisualizer.analyserRef := None;
          RecordingVisualizer.streamRef := None;
          RecordingVisualizer.sourceRef := None;
          RecordingVisualizer.mediaRecorderRef := None;
          RecordingVisualizer.browser :=
            {| pending := match RecordingVisualizer.animationFrameRef c with
                          | Some id => filter (fun f => negb (Pos.eqb id (fst f))) (pending b)
                          | None => pending b
                          end;
               fresh := fresh b;
               capturing := match RecordingVisualizer.streamRef c with
                            | Some stream => remove_handle stream (capturing b)
                            | None => capturing b
                            end;
               contexts := match RecordingVisualizer.audioContextRef c with
                           | Some ctx => remove_handle ctx (contexts b)
                           | None => contexts b
                           end;
               edges := match RecordingVisualizer.sourceRef c with
                        | Some source =>
                            filter (fun e => negb (node_eqb source (fst e))) (edges b)
                        | None => edges b
                        end |} |};
     Recorder.mounted := Recorder.mounted w;
     Recorder.recording :=
       match RecordingVisualizer.mediaRecorderRef c, isRecording with
       | Some rec, true => remove_handle rec (Recorder.recording w)
       | _, _ => Recorder.recording w
       end |}.

(** ** TextAudioVisualizer: the audio graph and the progress of the speech *)

Module SpeechGraph.

(** The nodes TextAudioVisualizer makes: one gain node, analyser and
    destination for the component, and an oscillator, a band-pass filter and
    a gain per utterance. *)
Inductive SpeechNode : Type :=
| Gain
| SpeechAnalyser
| SpeechDestination
| Oscillator (osc : Handle)
| Filter (osc : Handle)
| OscillatorGain (osc : Handle).

Record World : Type := {
  error : option string;
  duration : option Q;          (* [None]: not a finite number *)
  audioContextRef : option Handle;
  analyserRef : option SpeechNode;
  gainNodeRef : option SpeechNode;
  sourceRef : option Handle;
  contexts : list Handle;       (* the audio contexts that were created *)
  connections : list (SpeechNode * SpeechNode);
  utterances : list Handle;     (* oscillators of the utterances handed to the engine *)
  next : Handle
}.

Definition initializeAudioContext (w : World) : World :=
  match audioContextRef w with
  | Some _ => w
  | None =>
      {| error := error w; duration := duration w;
         audioContextRef := Some (next w);
         analyserRef := Some SpeechAnalyser;
         gainNodeRef := Some Gain;
         sourceRef := sourceRef w;
         contexts := next w :: contexts w;
         connections := connections w
                        ++ [(Gain, SpeechAnalyser); (SpeechAnalyser, SpeechDestination)];
         utterances := utterances w;
         next := Pos.succ (next w) |}
  end.

(** [(text.length * 0.1) / rate] *)
Definition estimatedDuration (length : nat) (rate : Q) : option Q :=
  if Qeq_bool rate 0 then None
  else Some (inject_Z (Z.of_nat length) * (1 # 10) / rate).

(** [speakText]; [supported] tells whether [window.speechSynthesis] exists. *)
Definition speakText (supported : bool) (length : nat) (rate : Q) (w : World) : World :=
  if negb supported then
    {| error := Some "Speech synthesis is not supported in this browser.";
       duration := duration w; audioContextRef := audioContextRef w;
       analyserRef := analyserRef w; gainNodeRef := gainNodeRef w;
       sourceRef := sourceRef w; contexts := contexts w;
       connections := connections w; utterances := utterances w; next := next w |}
  else
    let w := initializeAudioContext w in
    let osc := next w in
    {| error := None;
       duration := estimatedDuration length rate;
       audioContextRef := audioContextRef w;
       analyserRef := analyserRef w; gainNodeRef := gainNodeRef w;
       sourceRef := Some osc;
       contexts := contexts w;
       connections := connections w
                      ++ [(Oscillator osc, Filter osc); (Filter osc, OscillatorGain osc);
                          (OscillatorGain osc, Gain)];
       utterances := osc :: utterances w;
       next := Pos.succ osc |}.

(** The interval that advances the shown time while speaking:
    [prev => { const newTime = prev + 0.1; return newTime >= duration ? 0 : newTime }] *)
Definition tick (duration : Q) (prev : Q) : Q :=
  let newTime := prev + (1 # 10) in
  if Qle_bool duration newTime then 0 else newTime.

Fixpoint ticks (n : nat) (duration : Q) (currentTime : Q) : Q :=
  match n with
  | O => currentTime
  | S n' => ticks n' duration (tick duration currentTime)
  end.

(** The width of the progress bar, in percent. *)
Definition progress (currentTime duration : Q) : Q := currentTime / duration * 100.

Definition initial : World :=
  {| error := None; duration := Some 0; audioContextRef := None; analyserRef := None;
     gainNodeRef := None; sourceRef := None; contexts := []; connections := [];
     utterances := []; next := 1%positive |}.

Fixpoint speak_times (n : nat) (length : nat) (rate : Q) (w : World) : World :=
  match n with
  | O => w
  | S n' => speakText true length rate (speak_times n' length rate w)
  end.

End SpeechGraph.

(** The chain that carries the tone of one utterance to the output. *)
Definition tone_chain (osc : Handle) : list (SpeechGraph.SpeechNode * SpeechGraph.SpeechNode) :=
  [ (SpeechGraph.Oscillator osc, SpeechGraph.Filter osc);
    (SpeechGraph.Filter osc, SpeechGraph.OscillatorGain osc);
    (SpeechGraph.OscillatorGain osc, SpeechGraph.Gain);
    (SpeechGraph.Gain, SpeechGraph.SpeechAnalyser);
    (SpeechGraph.SpeechAnalyser, SpeechGraph.SpeechDestination) ].

(** ** AudioVisualizer: the animation effect *)

Module Player.

Definition cancel_scheduled (w : AudioVisualizer.World) : AudioVisualizer.World :=
  match AudioVisualizer.animationFrameRef w with
  | Some id => AudioVisualizer.with_browser (cancel_frame id (AudioVisualizer.browser w)) w
  | None => w
  end.

(** The effect with dependencies [[isPlaying, analyser, animate]], when a
    render with the props [p] finds one of them changed: the cleanup of the
    previous render, then the body. *)
Definition effect (p : AudioVisualizer.Props) (snap : Snapshot) (w : AudioVisualizer.World)
  : result (unit * AudioVisualizer.World * list Action) :=
  let w := cancel_scheduled w in
  match AudioVisualizer.isPlaying p, AudioVisualizer.analyser p with
  | true, Some _ => AudioVisualizer.animate p snap w
  | _, _ => Ok (tt, cancel_scheduled w, [])
  end.

(** The browser runs the scheduled callback [id]: it is the [animate] of the
    render whose effect scheduled it. *)
Definition frame (p : AudioVisualizer.Props) (id : Handle) (snap : Snapshot)
    (w : AudioVisualizer.World) : result (unit * AudioVisualizer.World * list Action) :=
  match find (fun f => Pos.eqb id (fst f)) (pending (AudioVisualizer.browser w)) with
  | Some _ =>
      AudioVisualizer.animate p snap
        (AudioVisualizer.with_browser (cancel_frame id (AudioVisualizer.browser w)) w)
  | None => Ok (tt, w, [])
  end.

(** At most one callback is scheduled, the one the ref holds. *)
Definition one_scheduled (w : AudioVisualizer.World) : Prop :=
  pending (AudioVisualizer.browser w) = []
  \/ exists id c, pending (AudioVisualizer.browser w) = [(id, c)]
                  /\ AudioVisualizer.animationFrameRef w = Some id.

End Player.

Definition playing_props : AudioVisualizer.Props :=
  {| AudioVisualizer.analyser := Some (Analyser 1%positive);
     AudioVisualizer.isPlaying := true;
     AudioVisualizer.visualizationType := waveform;
     AudioVisualizer.config := live_defaults |}.

Definition player_mounted : AudioVisualizer.World :=
  {| AudioVisualizer.canvasRef := true;
     AudioVisualizer.animationFrameRef := None;
     AudioVisualizer.browser :=
       {| pending := []; fresh := 1%positive; capturing := [];
          contexts := []; edges := [] |} |}.

(** * Properties of the drawing routines *)

Lemma path_points_app (a b : list CanvasCall) :
  path_points (a ++ b) = path_points a ++ path_points b.
Proof. unfold path_points. apply flat_map_app. Qed.


Lemma waveform_loop_points cfg sw i x data :
  path_points (waveform_loop cfg sw i x data)
  = match data with
    | [] => []
    | s :: rest =>
        (x, sample_y cfg s) :: path_points (waveform_loop cfg sw (S i) (x + sw) rest)
    end.
Proof. destruct data as [|s rest]; [reflexivity|]. simpl. destruct (Nat.eqb i 0); reflexivity. Qed.

Lemma waveform_loop_length cfg sw data : forall i x,
  length (path_points (waveform_loop cfg sw i x data)) = length data.
Proof.
  induction data as [|s rest IH]; intros i x; rewrite waveform_loop_points.
  - reflexivity.
  - simpl. now rewrite IH.
Qed.

Lemma waveform_loop_nth cfg sw data : forall i x k s,
  nth_error data k = Some s ->
  exists x', nth_error (path_points (waveform_loop cfg sw i x data)) k
             = Some (x', sample_y cfg s)
             /\ x' == x + inject_Z (Z.of_nat k) * sw.
Proof.
  induction data as [|s0 rest IH]; intros i x k s Hk.
  - destruct k; discriminate.
  - rewrite waveform_loop_points. destruct k as [|k].
    + inversion Hk; subst. exists x. split; [reflexivity|]. simpl. ring.
    + simpl in Hk. destruct (IH (S i) (x + sw) k s Hk) as [x' [Hn Hx]].
      exists x'. split; [exact Hn|].
      rewrite Hx, Nat2Z.inj_succ. unfold Z.succ. rewrite inject_Z_plus. ring.
Qed.


Lemma drawWaveform_points_eq cfg data :
  path_points (drawWaveform cfg data)
  = path_points (waveform_loop cfg (width cfg / inject_Z (Z.of_nat (length data))) 0 0 data)
    ++ [(width cfg, height cfg / 2)].
Proof.
  unfold drawWaveform. rewrite !path_points_app. reflexivity.
Qed.






(** *** Spectrum *)

Lemma barCount_finite (cfg : RenderConfig) :
  0 < barWidth cfg + barGap cfg ->
  barCount cfg = Fin (Qfloor (width cfg / (barWidth cfg + barGap cfg))).
Proof.
  intros Hpos. unfold barCount, floor_div.
  destruct (Qeq_bool (barWidth cfg + barGap cfg) 0) eqn:E; [|reflexivity].
  apply Qeq_bool_eq in E. rewrite E in Hpos. discriminate.
Qed.

Lemma step_div (data : Snapshot) (bc : Z) :
  step data bc = (Z.of_nat (length data) / bc)%Z.
Proof. unfold step. symmetry. apply Zdiv_Qdiv. Qed.

(** Decimation stays inside the snapshot. *)
Lemma decimated_index_bound (n bc i : Z) :
  (1 <= n)%Z -> (0 <= i < bc)%Z -> (0 <= i * (n / bc) < n)%Z.
Proof.
  intros Hn Hi.
  assert (Hq : (0 <= n / bc)%Z) by (apply Z.div_pos; lia).
  assert (Hm : (bc * (n / bc) <= n)%Z) by (apply Z.mul_div_le; lia).
  nia.
Qed.

Lemma sample_in_range (data : Snapshot) (k : Z) :
  (0 <= k < Z.of_nat (length data))%Z -> exists v, sample data k = Some v.
Proof.
  intros Hk. unfold sample.
  destruct (k <? 0)%Z eqn:E; [apply Z.ltb_lt in E; lia|].
  destruct (nth_error data (Z.to_nat k)) as [v|] eqn:En; [eauto|].
  apply nth_error_None in En. lia.
Qed.

Lemma spectrum_loop_ok cfg data stp : forall n i,
  (forall j, (i <= j < i + Z.of_nat n)%Z ->
             (0 <= j * stp < Z.of_nat (length data))%Z) ->
  exists bars,
    spectrum_loop cfg data stp i n = Ok bars
    /\ length bars = n
    /\ forall k b, nth_error bars k = Some b ->
                   spectrum_bar cfg data stp (i + Z.of_nat k) = Some b.
Proof.
  induction n as [|n IH]; intros i Hr.
  - exists []. repeat split. intros [|k] b; discriminate.
  - cbn [spectrum_loop].
    destruct (sample_in_range data (i * stp)%Z) as [v Hv]; [apply Hr; lia|].
    unfold spectrum_bar at 1. rewrite Hv.
    destruct (IH (i + 1)%Z) as [bars [Hl [Hlen Hnth]]]; [intros j Hj; apply Hr; lia|].
    rewrite Hl. cbn [bind]. eexists. split; [reflexivity|]. split; [simpl; lia|].
    intros [|k] b Hb.
    + inversion Hb; subst. rewrite Z.add_0_r. unfold spectrum_bar. rewrite Hv. reflexivity.
    + simpl in Hb. apply Hnth in Hb. rewrite <- Hb. f_equal. lia.
Qed.

Lemma filled_background (cfg : RenderConfig) (rest : list CanvasCall) (style : FillStyle) :
  filled style (background cfg ++ rest)
  = (Solid (backgroundColor cfg), (0, 0, width cfg, height cfg))
      :: filled (Solid (backgroundColor cfg)) rest.
Proof. reflexivity. Qed.

Lemma filled_draw_bars (cfg : RenderConfig) (bars : list Bar) : forall style,
  filled style (flat_map (draw_bar cfg) bars)
  = map (fun b => (Gradient (bar_x b) (bar_y b) (bar_x b) (height cfg)
                     [(0, barColor cfg); (1, shade cfg)],
                   (bar_x b, bar_y b, barWidth cfg, bar_height b))) bars.
Proof.
  induction bars as [|b bars IH]; intros style; [reflexivity|].
  cbn [flat_map draw_bar app filled map]. rewrite IH. reflexivity.
Qed.

(** The bars of a snapshot that is not empty: as many as the bar count, each
    computed by one iteration of the loop. *)
Lemma spectrum_bars_ok (cfg : RenderConfig) (data : Snapshot) :
  0 < barWidth cfg + barGap cfg ->
  data <> [] ->
  let bc := Qfloor (width cfg / (barWidth cfg + barGap cfg)) in
  let stp := (Z.of_nat (length data) / bc)%Z in
  exists bars,
    spectrum_bars cfg data = Ok bars
    /\ length bars = Z.to_nat bc
    /\ forall i b, nth_error bars i = Some b ->
                   spectrum_bar cfg data stp (Z.of_nat i) = Some b.
Proof.
  intros Hpos Hne bc stp.
  assert (Hn : (1 <= Z.of_nat (length data))%Z)
    by (destruct data; [congruence | simpl length; lia]).
  destruct (spectrum_loop_ok cfg data stp (Z.to_nat bc) 0%Z) as [bars [Hl [Hlen Hnth]]].
  { intros j Hj. apply decimated_index_bound; lia. }
  exists bars. split; [|split; [exact Hlen | exact Hnth]].
  unfold spectrum_bars. rewrite (barCount_finite cfg Hpos). fold bc.
  rewrite step_div. exact Hl.
Qed.

Lemma spectrum_bar_fields (cfg : RenderConfig) (data : Snapshot) (stp i : Z) (b : Bar) :
  spectrum_bar cfg data stp i = Some b ->
  exists v,
    sample data (i * stp) = Some v
    /\ bar_index b = (i * stp)%Z
    /\ bar_value b = v
    /\ bar_x b = inject_Z i * (barWidth cfg + barGap cfg)
    /\ bar_height b = inject_Z v / 255 * height cfg
    /\ bar_y b = height cfg - bar_height b.
Proof.
  unfold spectrum_bar. destruct (sample data (i * stp)) as [v|]; [|discriminate].
  intros H. exists v. injection H as <-. repeat split.
Qed.

(** What [drawSpectrum] paints on a snapshot that is not empty: the
    background, then one rectangle for each bar the loop computes, filled
    with the bar's gradient. *)
Lemma drawSpectrum_paints (cfg : RenderConfig) (data : Snapshot) :
  0 < barWidth cfg + barGap cfg ->
  data <> [] ->
  let bc := Qfloor (width cfg / (barWidth cfg + barGap cfg)) in
  let stp := (Z.of_nat (length data) / bc)%Z in
  exists calls rects,
    drawSpectrum cfg data = Ok calls
    /\ (forall style,
          filled style calls
          = (Solid (backgroundColor cfg), (0, 0, width cfg, height cfg)) :: rects)
    /\ length rects = Z.to_nat bc
    /\ (forall i f x y w h,
          nth_error rects i = Some (f, (x, y, w, h)) ->
          exists value,
            sample data (Z.of_nat i * stp) = Some value
            /\ h = inject_Z value / 255 * height cfg
            /\ y = height cfg - h
            /\ x = inject_Z (Z.of_nat i) * (barWidth cfg + barGap cfg)
            /\ w = barWidth cfg
            /\ f = Gradient x y x (height cfg) [(0, barColor cfg); (1, shade cfg)]).
Proof.
  intros Hpos Hne bc stp.
  destruct (spectrum_bars_ok cfg data Hpos Hne) as [bars [Hok [Hlen Hnth]]].
  fold bc in Hlen. fold bc stp in Hnth.
  exists (background cfg ++ flat_map (draw_bar cfg) bars).
  eexists. split; [unfold drawSpectrum; rewrite Hok; reflexivity|].
  split; [intros style; rewrite filled_background, filled_draw_bars; reflexivity|].
  split; [rewrite length_map; exact Hlen|].
  intros i f x y w h Hi. rewrite nth_error_map in Hi.
  destruct (nth_error bars i) as [b|] eqn:Hb; [|discriminate].
  cbn [option_map] in Hi. injection Hi as <- <- <- <- <-.
  apply Hnth, spectrum_bar_fields in Hb.
  destruct Hb as [v [Hs [_ [_ [Hx [Hh Hy]]]]]].
  exists v. rewrite Hy, Hh, Hx. repeat split. exact Hs.
Qed.


(** The snapshot must not be empty: with at least one bar to draw, an empty
    snapshot makes the first read [undefined] and the draw throws. *)
Lemma drawSpectrum_empty_snapshot (cfg : RenderConfig) :
  0 < barWidth cfg + barGap cfg ->
  barWidth cfg + barGap cfg <= width cfg ->
  drawSpectrum cfg [] = Throws.
Proof.
  intros Hpos Hle. unfold drawSpectrum, spectrum_bars.
  rewrite (barCount_finite cfg Hpos).
  assert (Hbc : (1 <= Qfloor (width cfg / (barWidth cfg + barGap cfg)))%Z).
  { change 1%Z with (Qfloor 1). apply Qfloor_resp_le.
    apply Qle_shift_div_l; [exact Hpos|]. rewrite Qmult_1_l. exact Hle. }
  destruct (Z.to_nat (Qfloor (width cfg / (barWidth cfg + barGap cfg)))) as [|n] eqn:E;
    [lia|].
  cbn [spectrum_loop]. unfold spectrum_bar, sample. cbn [Z.mul].
  destruct (step [] (Qfloor (width cfg / (barWidth cfg + barGap cfg)))); reflexivity.
Qed.



(** C10.  For a snapshot of length n >= 1 and a config with
    0 < barWidth + barGap <= width, barCount is at least 1 and every index
    i * floor(n / barCount), 0 <= i < barCount, that the spectrum draw reads
    is inside the snapshot, so the read yields a sample; this also when
    barCount exceeds n. *)
Theorem drawSpectrum_index_in_bounds (cfg : RenderConfig) (data : Snapshot) (i : Z) :
  (1 <= length data)%nat ->
  0 < barWidth cfg + barGap cfg ->
  barWidth cfg + barGap cfg <= width cfg ->
  exists bc,
    barCount cfg = Fin bc
    /\ (1 <= bc)%Z
    /\ ((0 <= i < bc)%Z ->
        (0 <= i * step data bc < Z.of_nat (length data))%Z
        /\ exists v, sample data (i * step data bc) = Some v).
Proof.
  intros Hn Hpos Hle.
  exists (Qfloor (width cfg / (barWidth cfg + barGap cfg))).
  split; [apply barCount_finite; exact Hpos|]. split.
  - change 1%Z with (Qfloor 1). apply Qfloor_resp_le.
    apply Qle_shift_div_l; [exact Hpos|]. rewrite Qmult_1_l. exact Hle.
  - intros Hi. rewrite step_div.
    assert (Hb : (0 <= i * (Z.of_nat (length data) / Qfloor (width cfg / (barWidth cfg + barGap cfg)))
                  < Z.of_nat (length data))%Z)
      by (apply decimated_index_bound; lia).
    split; [exact Hb | apply sample_in_range; exact Hb].
Qed.

Lemma drawSpectrum_index_in_bounds_witness :
  (0 <= 132 * step (repeat 0%Z 100) 133 < 100)%Z
  /\ sample (repeat 0%Z 100) (132 * step (repeat 0%Z 100) 133) = Some 0%Z.
Proof.
  destruct (drawSpectrum_index_in_bounds live_defaults (repeat 0%Z 100) 132)
    as [bc [Hbc [_ H]]].
  - simpl. lia.
  - reflexivity.
  - vm_compute. discriminate.
  - assert (E : bc = 133%Z) by (vm_compute in Hbc; injection Hbc; auto).
    subst bc. destruct H as [Hr [v Hv]]; [lia|].
    split; [exact Hr|]. rewrite Hv. vm_compute in Hv. exact (eq_sym Hv).
Defined.

(** * Properties of the lifecycle *)

Lemma filter_idem {A} (f : A -> bool) (l : list A) :
  filter f (filter f l) = filter f l.
Proof.
  induction l as [|a l IH]; [reflexivity|]. simpl.
  destruct (f a) eqn:E; simpl; [rewrite E, IH; reflexivity | exact IH].
Qed.

(** C9.  The trace of [stopListening]: cancel the pending frame callback,
    stop the stream's tracks, disconnect the source node, close the audio
    context, clear the analyser ref, in this order; whether a step is taken
    depends on its own ref alone, and the analyser ref is cleared always. *)
Theorem stopListening_order (w : LiveAudioVisualizer.World) :
  trace_of (LiveAudioVisualizer.stopListening w)
  = match LiveAudioVisualizer.animationFrameRef w with
    | Some id => [CancelAnimationFrame id]
    | None => []
    end
    ++ match LiveAudioVisualizer.streamRef w with
       | Some stream => [StopTracks stream; Clear StreamRef]
       | None => []
       end
    ++ match LiveAudioVisualizer.sourceRef w with
       | Some source => [Disconnect source; Clear SourceRef]
       | None => []
       end
    ++ match LiveAudioVisualizer.audioContextRef w with
       | Some ctx => [CloseContext ctx; Clear AudioContextRef]
       | None => []
       end
    ++ [Clear AnalyserRef; SetActive false;
        ConsoleLog "Live audio visualization stopped"].
Proof.
  destruct w as [li er cv [id|] [ctx|] an [stream|] [source|] br]; reflexivity.
Qed.

(** C5.  [stopListening] is idempotent: after one call the component is not
    listening and holds no stream, source, context or analyser (Idle); a
    second call leaves that state as it is; no call records an error. *)
Theorem stopListening_idempotent (w : LiveAudioVisualizer.World) :
  let w1 := state_of (LiveAudioVisualizer.stopListening w) in
  let w2 := state_of (LiveAudioVisualizer.stopListening w1) in
  w2 = w1
  /\ LiveAudioVisualizer.idle w1 = true
  /\ LiveAudioVisualizer.isListening w1 = false
  /\ LiveAudioVisualizer.streamRef w1 = None
  /\ LiveAudioVisualizer.sourceRef w1 = None
  /\ LiveAudioVisualizer.audioContextRef w1 = None
  /\ LiveAudioVisualizer.analyserRef w1 = None
  /\ LiveAudioVisualizer.error w1 = LiveAudioVisualizer.error w
  /\ (forall e, ~ In (SetError e) (trace_of (LiveAudioVisualizer.stopListening w)
                                   ++ trace_of (LiveAudioVisualizer.stopListening w1))).
Proof.
  destruct w as [li er cv [id|] [ctx|] an [stream|] [source|] [pe fr ca co ed]];
    (split; [cbv [state_of LiveAudioVisualizer.stopListening seq_bind whenSome act fst snd
                   LiveAudioVisualizer.animationFrameRef LiveAudioVisualizer.streamRef LiveAudioVisualizer.sourceRef
                   LiveAudioVisualizer.audioContextRef LiveAudioVisualizer.cancelAnimationFrame
                   LiveAudioVisualizer.setIsListening LiveAudioVisualizer.on_browser LiveAudioVisualizer.with_streamRef
                   LiveAudioVisualizer.with_sourceRef LiveAudioVisualizer.with_audioContextRef
                   LiveAudioVisualizer.with_analyserRef LiveAudioVisualizer.browser LiveAudioVisualizer.isListening LiveAudioVisualizer.error
                   LiveAudioVisualizer.canvasRef LiveAudioVisualizer.analyserRef];
             cbv [cancel_frame set_pending set_capturing set_contexts set_edges
                  disconnect_node pending fresh capturing contexts edges];
             rewrite ?filter_idem; reflexivity
           | repeat split; try reflexivity;
             intros e Hin; cbn in Hin;
             repeat (destruct Hin as [Hin|Hin]; [discriminate|]); exact Hin ]).
Qed.

(** *** The microphone graph *)

Lemma startListening_granted_edges (w : LiveAudioVisualizer.World) :
  let ctx := Pos.succ (fresh (LiveAudioVisualizer.browser w)) in
  let stream := fresh (LiveAudioVisualizer.browser w) in
  let w' := state_of (LiveAudioVisualizer.startListening Granted w) in
  edges (LiveAudioVisualizer.browser w')
  = edges (LiveAudioVisualizer.browser w)
    ++ [(MediaStreamSource ctx stream, Analyser ctx); (Analyser ctx, Destination ctx)]
  /\ LiveAudioVisualizer.sourceRef w' = Some (MediaStreamSource ctx stream)
  /\ LiveAudioVisualizer.analyserRef w' = Some (Analyser ctx).
Proof.
  destruct w as [li er cv af ac an st so [pe fr ca co ed]].
  cbn. rewrite <- app_assoc. repeat split.
Qed.

(** RecordingVisualizer builds the same graph without the second connection:
    starting a recording adds no connection into a destination. *)
Lemma startRecording_no_destination (r : MediaResult) (suspended : bool)
    (w : RecordingVisualizer.World) :
  let w' := state_of (RecordingVisualizer.startRecording r suspended w) in
  forall e, In e (edges (RecordingVisualizer.browser w')) ->
            In e (edges (RecordingVisualizer.browser w)) \/ is_destination (snd e) = false.
Proof.
  destruct w as [a b c d e0 f g h i j k [pe fr ca co ed]].
  destruct r as [|err], suspended; cbn; intros e Hin; auto;
    apply in_app_or in Hin; destruct Hin as [Hin|[Hin|[]]]; auto;
    subst e; right; reflexivity.
Qed.

(** C1 (what the code does).  After [startListening] is granted the
    microphone, the analyser that the stream source feeds is connected to
    the destination of the context: the audible output is reached from the
    microphone source. *)
Theorem startListening_reaches_destination (w : LiveAudioVisualizer.World) :
  let w' := state_of (LiveAudioVisualizer.startListening Granted w) in
  exists src an dst,
    LiveAudioVisualizer.sourceRef w' = Some src
    /\ LiveAudioVisualizer.analyserRef w' = Some an
    /\ is_destination dst = true
    /\ In (src, an) (edges (LiveAudioVisualizer.browser w'))
    /\ In (an, dst) (edges (LiveAudioVisualizer.browser w'))
    /\ reaches (edges (LiveAudioVisualizer.browser w')) src dst.
Proof.
  intros w'. destruct (startListening_granted_edges w) as [He [Hs Ha]].
  fold w' in He, Hs, Ha.
  set (ctx := Pos.succ (fresh (LiveAudioVisualizer.browser w))) in *.
  set (stream := fresh (LiveAudioVisualizer.browser w)) in *.
  assert (H1 : In (MediaStreamSource ctx stream, Analyser ctx) (edges (LiveAudioVisualizer.browser w')))
    by (rewrite He; apply in_or_app; right; simpl; auto).
  assert (H2 : In (Analyser ctx, Destination ctx) (edges (LiveAudioVisualizer.browser w')))
    by (rewrite He; apply in_or_app; right; simpl; auto).
  exists (MediaStreamSource ctx stream), (Analyser ctx), (Destination ctx).
  repeat split; auto.
  eapply reaches_trans; [exact H1|]. apply reaches_edge. exact H2.
Qed.

(** *** The render loop *)

Lemma whenSome_cancel_pending (w : LiveAudioVisualizer.World) :
  LiveAudioVisualizer.one_pending w ->
  let w' := state_of (LiveAudioVisualizer.effect_cleanup w) in
  pending (LiveAudioVisualizer.browser w') = []
  /\ LiveAudioVisualizer.isListening w' = LiveAudioVisualizer.isListening w
  /\ LiveAudioVisualizer.error w' = LiveAudioVisualizer.error w
  /\ LiveAudioVisualizer.canvasRef w' = LiveAudioVisualizer.canvasRef w
  /\ LiveAudioVisualizer.analyserRef w' = LiveAudioVisualizer.analyserRef w
  /\ LiveAudioVisualizer.animationFrameRef w' = LiveAudioVisualizer.animationFrameRef w.
Proof.
  intros [Hp|[id [Hp [Hr Hl]]]] w'; subst w';
    unfold LiveAudioVisualizer.effect_cleanup, whenSome, state_of.
  - destruct (LiveAudioVisualizer.animationFrameRef w) as [id|] eqn:E; cbn; rewrite ?Hp, ?E; auto 10.
  - rewrite Hr. cbn. rewrite Hp. cbn. rewrite Pos.eqb_refl. auto 10.
Qed.

(** What a call of [animate] can do: nothing, or read, draw and schedule
    one callback. *)
Lemma animate_cases (p : LiveAudioVisualizer.Props) (c : bool) (snap : Snapshot) (w w' : LiveAudioVisualizer.World)
    (t : list Action) :
  LiveAudioVisualizer.animate p c snap w = Ok (tt, w', t) ->
  (w' = w /\ t = [])
  \/ (exists calls,
        c = true /\ LiveAudioVisualizer.canvasRef w = true /\ LiveAudioVisualizer.analyserRef w <> None
        /\ t = [ReadSnapshot (LiveAudioVisualizer.visualizationType p); Draw calls;
                RequestAnimationFrame (fresh (LiveAudioVisualizer.browser w));
                Assign AnimationFrameRef]
        /\ pending (LiveAudioVisualizer.browser w')
           = pending (LiveAudioVisualizer.browser w) ++ [(fresh (LiveAudioVisualizer.browser w), true)]
        /\ LiveAudioVisualizer.animationFrameRef w' = Some (fresh (LiveAudioVisualizer.browser w))
        /\ LiveAudioVisualizer.isListening w' = LiveAudioVisualizer.isListening w
        /\ LiveAudioVisualizer.error w' = LiveAudioVisualizer.error w).
Proof.
  unfold LiveAudioVisualizer.animate. destruct (LiveAudioVisualizer.analyserRef w) as [an|] eqn:Ea.
  - destruct (LiveAudioVisualizer.canvasRef w) eqn:Ec, c; cbn [negb orb];
      try (intros H; inversion H; auto; fail).
    destruct (match LiveAudioVisualizer.visualizationType p with
              | waveform => Ok (drawWaveform (LiveAudioVisualizer.config p) snap)
              | spectrum => drawSpectrum (LiveAudioVisualizer.config p) snap
              end) as [calls| |]; cbn [bind]; try discriminate.
    intros H. inversion H; subst. right. exists calls.
    repeat split; try reflexivity. congruence.
  - intros H. inversion H. auto.
Qed.

Lemma state_of_seq {S A B} (m : M S A) (k : M S B) (w : S) :
  state_of ((m ;; k) w) = state_of (k (state_of (m w))).
Proof.
  unfold seq_bind, state_of. destruct (m w) as [[a w1] t1]. cbn.
  destruct (k w1) as [[b w2] t2]. reflexivity.
Qed.

Lemma and_then_Ok (x : unit * LiveAudioVisualizer.World * list Action)
    (k : LiveAudioVisualizer.World -> result (unit * LiveAudioVisualizer.World * list Action))
    (w' : LiveAudioVisualizer.World) (t : list Action) :
  LiveAudioVisualizer.and_then x k = Ok (tt, w', t) ->
  exists w1 t1, k (state_of x) = Ok (tt, w1, t1) /\ w' = w1 /\ t = trace_of x ++ t1.
Proof.
  unfold LiveAudioVisualizer.and_then. destruct (k (state_of x)) as [[[[] w1] t1]| |]; cbn; try discriminate.
  intros H. inversion H. eauto.
Qed.

Lemma stopListening_state (w : LiveAudioVisualizer.World) :
  LiveAudioVisualizer.one_pending w ->
  let w1 := state_of (LiveAudioVisualizer.stopListening w) in
  pending (LiveAudioVisualizer.browser w1) = []
  /\ LiveAudioVisualizer.isListening w1 = false
  /\ LiveAudioVisualizer.canvasRef w1 = LiveAudioVisualizer.canvasRef w
  /\ LiveAudioVisualizer.error w1 = LiveAudioVisualizer.error w
  /\ LiveAudioVisualizer.analyserRef w1 = None.
Proof.
  intros Hinv.
  assert (Hp : pending (LiveAudioVisualizer.browser (state_of (LiveAudioVisualizer.effect_cleanup w))) = [])
    by apply (whenSome_cancel_pending w Hinv).
  revert Hp. unfold LiveAudioVisualizer.effect_cleanup.
  destruct w as [li er cv [id|] [ctx|] an [stream|] [source|] [pe fr ca co ed]];
    cbn; intros Hp; repeat split; exact Hp.
Qed.

Lemma startListening_rejected_state (e : MediaError) (w : LiveAudioVisualizer.World) :
  let w1 := state_of (LiveAudioVisualizer.startListening (Rejected e) w) in
  LiveAudioVisualizer.error w1 = Some "Failed to access microphone. Please check permissions."
  /\ LiveAudioVisualizer.isListening w1 = LiveAudioVisualizer.isListening w
  /\ LiveAudioVisualizer.browser w1 = LiveAudioVisualizer.browser w
  /\ LiveAudioVisualizer.canvasRef w1 = LiveAudioVisualizer.canvasRef w
  /\ LiveAudioVisualizer.animationFrameRef w1 = LiveAudioVisualizer.animationFrameRef w
  /\ LiveAudioVisualizer.analyserRef w1 = LiveAudioVisualizer.analyserRef w
  /\ LiveAudioVisualizer.streamRef w1 = LiveAudioVisualizer.streamRef w
  /\ trace_of (LiveAudioVisualizer.startListening (Rejected e) w)
     = [SetError None; GetUserMedia (Rejected e);
        ConsoleError "Error starting live audio:";
        SetError (Some "Failed to access microphone. Please check permissions.")].
Proof. repeat split. Qed.

Lemma startListening_granted_state (w : LiveAudioVisualizer.World) :
  let w1 := state_of (LiveAudioVisualizer.startListening Granted w) in
  LiveAudioVisualizer.isListening w1 = true
  /\ pending (LiveAudioVisualizer.browser w1) = pending (LiveAudioVisualizer.browser w)
  /\ LiveAudioVisualizer.canvasRef w1 = LiveAudioVisualizer.canvasRef w
  /\ LiveAudioVisualizer.animationFrameRef w1 = LiveAudioVisualizer.animationFrameRef w
  /\ LiveAudioVisualizer.analyserRef w1 <> None.
Proof. repeat split. cbn. discriminate. Qed.

Lemma animation_effect_pending (p : LiveAudioVisualizer.Props) (snap : Snapshot)
    (w w' : LiveAudioVisualizer.World) (t : list Action) :
  pending (LiveAudioVisualizer.browser w) = [] ->
  LiveAudioVisualizer.animation_effect p snap w = Ok (tt, w', t) ->
  LiveAudioVisualizer.one_pending w'
  /\ (LiveAudioVisualizer.isListening w = false ->
      pending (LiveAudioVisualizer.browser w') = []
      /\ (forall a, In a t -> exists id, a = CancelAnimationFrame id)).
Proof.
  intros Hp. unfold LiveAudioVisualizer.animation_effect.
  destruct (LiveAudioVisualizer.isListening w) eqn:El.
  - destruct (LiveAudioVisualizer.analyserRef w) as [an|] eqn:Ea.
    + intros H. apply animate_cases in H.
      destruct H as [[-> ->]|[calls [_ [_ [_ [_ [Hpe [Hr [Hl _]]]]]]]]].
      * split; [left; exact Hp | discriminate].
      * split; [|discriminate]. right. exists (fresh (LiveAudioVisualizer.browser w)).
        rewrite Hpe, Hp, Hr, Hl. auto.
    + unfold whenSome. destruct (LiveAudioVisualizer.animationFrameRef w) as [id|];
        intros H; inversion H; subst; clear H;
        (split; [left; cbn; rewrite ?Hp; reflexivity | discriminate]).
  - unfold whenSome. destruct (LiveAudioVisualizer.animationFrameRef w) as [id|];
      intros H; inversion H; subst; clear H.
    + split; [left | intros _; split]; cbn; rewrite ?Hp; cbn; try reflexivity.
      intros a [<-|[]]. eauto.
    + split; [left; exact Hp | intros _; split; [exact Hp | intros a []]].
Qed.

Lemma step_preserves_one_pending (p : LiveAudioVisualizer.Props) (w w' : LiveAudioVisualizer.World)
    (e : LiveAudioVisualizer.Event) (t : list Action) :
  LiveAudioVisualizer.one_pending w ->
  LiveAudioVisualizer.step p w e = Ok (tt, w', t) ->
  LiveAudioVisualizer.one_pending w'.
Proof.
  intros Hinv. destruct e as [r snap|id snap|snap|]; cbn [LiveAudioVisualizer.step].
  - destruct (LiveAudioVisualizer.canvasRef w) eqn:Ec; [|intros H; inversion H; subst; exact Hinv].
    unfold LiveAudioVisualizer.commit. destruct (LiveAudioVisualizer.isListening w) eqn:El.
    + destruct (stopListening_state w Hinv) as [Hp [Hl [_ [_ _]]]].
      rewrite Hl. cbn [Bool.eqb]. intros H.
      apply and_then_Ok in H. destruct H as [w1 [t1 [H [-> _]]]].
      apply and_then_Ok in H. destruct H as [w2 [t2 [H [-> _]]]].
      apply animation_effect_pending in H; [apply H|].
      apply whenSome_cancel_pending. left. exact Hp.
    + assert (Hp : pending (LiveAudioVisualizer.browser w) = []).
      { destruct Hinv as [Hp|[id [_ [_ Hl]]]]; [exact Hp | congruence]. }
      destruct r as [|err].
      * destruct (startListening_granted_state w) as [Hl [Hp1 _]].
        rewrite Hl. cbn [Bool.eqb]. intros H.
        apply and_then_Ok in H. destruct H as [w1 [t1 [H [-> _]]]].
        apply and_then_Ok in H. destruct H as [w2 [t2 [H [-> _]]]].
        apply animation_effect_pending in H; [apply H|].
        apply whenSome_cancel_pending. left. rewrite Hp1. exact Hp.
      * destruct (startListening_rejected_state err w) as [_ [Hl [Hb _]]].
        rewrite Hl, El. cbn [Bool.eqb]. intros H. inversion H; subst.
        left. exact Hp.
  - unfold LiveAudioVisualizer.captured_by.
    destruct (find (fun f => Pos.eqb id (fst f)) (pending (LiveAudioVisualizer.browser w)))
      as [[id' c]|] eqn:Ef; cbn [option_map snd];
      [|intros H; inversion H; subst; exact Hinv].
    destruct Hinv as [Hp|[id0 [Hp [Hr Hl]]]]; [rewrite Hp in Ef; discriminate|].
    rewrite Hp in Ef. cbn in Ef.
    destruct (Pos.eqb id id0) eqn:Ei; [|discriminate].
    inversion Ef; subst id' c. apply Pos.eqb_eq in Ei. subst id0.
    intros H. apply animate_cases in H.
    assert (Hp0 : pending (LiveAudioVisualizer.browser (LiveAudioVisualizer.on_browser (cancel_frame id) w)) = []).
    { cbn. rewrite Hp. cbn. rewrite Pos.eqb_refl. reflexivity. }
    destruct H as [[-> ->]|[calls [_ [_ [_ [_ [Hpe [Hr' [Hl' _]]]]]]]]].
    + left. exact Hp0.
    + right. eexists. rewrite Hpe, Hp0, Hr', Hl'. cbn. auto.
  - destruct (LiveAudioVisualizer.canvasRef w);
      [|intros H; inversion H; subst; exact Hinv].
    intros H. apply and_then_Ok in H. destruct H as [w1 [t1 [H [-> _]]]].
    apply animation_effect_pending in H; [apply H|].
    apply whenSome_cancel_pending. exact Hinv.
  - intros H. inversion H as [H1]. clear H.
    assert (Hw : w' = state_of ((LiveAudioVisualizer.effect_cleanup;; LiveAudioVisualizer.stopListening;;
                   act (Clear CanvasRef) (LiveAudioVisualizer.with_canvasRef false)) w))
      by (rewrite H1; reflexivity).
    rewrite !state_of_seq in Hw. subst w'. left.
    cbn [act state_of fst snd LiveAudioVisualizer.with_canvasRef LiveAudioVisualizer.browser].
    apply stopListening_state. left. apply whenSome_cancel_pending. exact Hinv.
Qed.

(** A listening component with its frame callback scheduled is reachable. *)
Lemma listening_is_reachable :
  exists w id,
    LiveAudioVisualizer.reachable w
    /\ LiveAudioVisualizer.active w = true
    /\ pending (LiveAudioVisualizer.browser w) = [(id, true)].
Proof.
  destruct (LiveAudioVisualizer.step live_props LiveAudioVisualizer.initial
              (LiveAudioVisualizer.Click Granted (repeat 0%Z 1024)))
    as [[[[] w] t]| |] eqn:E; try (vm_compute in E; discriminate).
  exists w, 3%positive. split.
  - eapply LiveAudioVisualizer.reachable_step;
      [apply LiveAudioVisualizer.reachable_initial | exact E].
  - vm_compute in E. inversion E. split; reflexivity.
Qed.

Lemma reachable_one_pending (w : LiveAudioVisualizer.World) :
  LiveAudioVisualizer.reachable w -> LiveAudioVisualizer.one_pending w.
Proof.
  induction 1 as [|p w e w' t _ IH Hstep].
  - left. reflexivity.
  - eapply step_preserves_one_pending; eassumption.
Qed.



(** C6.  [animate], in LiveAudioVisualizer and in AudioVisualizer, returns
    without reading, drawing or scheduling when its activity flag is false or
    there is no analyser; and in every reachable state of LiveAudioVisualizer
    a frame callback that does anything runs while the component is listening
    and has its analyser, and no callback is scheduled while it is not
    listening. *)
Theorem animate_guard :
  (forall p c snap w,
      c = false \/ LiveAudioVisualizer.analyserRef w = None ->
      LiveAudioVisualizer.animate p c snap w = Ok (tt, w, []))
  /\ (forall p snap w,
        AudioVisualizer.isPlaying p = false \/ AudioVisualizer.analyser p = None ->
        AudioVisualizer.animate p snap w = Ok (tt, w, []))
  /\ (forall p w id snap w' t,
        LiveAudioVisualizer.reachable w ->
        LiveAudioVisualizer.step p w (LiveAudioVisualizer.Frame id snap) = Ok (tt, w', t) ->
        t <> [] ->
        LiveAudioVisualizer.active w = true /\ LiveAudioVisualizer.analyserRef w <> None)
  /\ (forall w,
        LiveAudioVisualizer.reachable w ->
        LiveAudioVisualizer.active w = false ->
        pending (LiveAudioVisualizer.browser w) = []).
Proof.
  split; [|split; [|split]].
  - intros p c snap w [->|Ha]; unfold LiveAudioVisualizer.animate.
    + destruct (LiveAudioVisualizer.analyserRef w); [|reflexivity].
      rewrite orb_true_r. reflexivity.
    + rewrite Ha. reflexivity.
  - intros p snap w [Hp|Ha]; unfold AudioVisualizer.animate.
    + destruct (AudioVisualizer.analyser p); [|reflexivity].
      rewrite Hp, orb_true_r. reflexivity.
    + rewrite Ha. reflexivity.
  - intros p w id snap w' t Hreach Hstep Ht.
    apply reachable_one_pending in Hreach. cbn [LiveAudioVisualizer.step] in Hstep.
    unfold LiveAudioVisualizer.captured_by in Hstep.
    destruct Hreach as [Hp|[id0 [Hp [_ Hl]]]]; rewrite Hp in Hstep; cbn in Hstep.
    + inversion Hstep; subst. congruence.
    + destruct (Pos.eqb id id0); cbn in Hstep; [|inversion Hstep; subst; congruence].
      apply animate_cases in Hstep.
      destruct Hstep as [[_ ->]|[calls [_ [_ [Ha _]]]]]; [congruence|].
      split; [exact Hl | exact Ha].
  - intros w Hreach Hact. apply reachable_one_pending in Hreach.
    destruct Hreach as [Hp|[id [_ [_ Hl]]]]; [exact Hp|].
    unfold LiveAudioVisualizer.active in Hact. congruence.
Qed.

Lemma animate_guard_witness :
  LiveAudioVisualizer.animate live_props false (repeat 0%Z 1024) LiveAudioVisualizer.initial
  = Ok (tt, LiveAudioVisualizer.initial, []).
Proof.
  apply (proj1 animate_guard). left. reflexivity.
Defined.

(** *** The speech source *)

(** A second [start()] throws: once the oscillator has been started, the
    resume handler ends at its [oscillator.start()], after [setIsPaused] and
    before [startModulation]. *)
Lemma onresume_throws (w : TextAudioVisualizer.World) :
  TextAudioVisualizer.started w = true ->
  TextAudioVisualizer.handle TextAudioVisualizer.Resume w
  = (None, TextAudioVisualizer.with_isPaused false w,
     [SetState "isPaused"; OscillatorStart (TextAudioVisualizer.oscillator w)]).
Proof.
  intros Hs. destruct w as [pl pa ct er so osc fm gm st on iv ft].
  cbn in Hs. subst st. reflexivity.
Qed.

(** Up to the first resume the handlers keep the oscillator and the timers
    in step with the utterance. *)
Lemma handle_in_sync (s0 s1 : TextAudioVisualizer.UtteranceState)
    (e : TextAudioVisualizer.UtteranceEvent) (w : TextAudioVisualizer.World) :
  TextAudioVisualizer.dispatch s0 e = Some s1 ->
  TextAudioVisualizer.resumes e = false ->
  TextAudioVisualizer.in_sync s0 w ->
  TextAudioVisualizer.started w
  = match s0 with TextAudioVisualizer.Queued => false | _ => true end ->
  let w1 := state_of (TextAudioVisualizer.handle e w) in
  TextAudioVisualizer.in_sync s1 w1
  /\ (s1 <> TextAudioVisualizer.Finished -> TextAudioVisualizer.started w1 = true).
Proof.
  destruct w as [pl pa ct er so osc fm gm st on iv ft].
  destruct s0, e; cbn [TextAudioVisualizer.dispatch]; intros Hd; inversion Hd; subst; clear Hd;
    cbn [TextAudioVisualizer.resumes]; intros Hres; try discriminate;
    cbn [TextAudioVisualizer.in_sync TextAudioVisualizer.oscillating TextAudioVisualizer.intervals
         TextAudioVisualizer.frequencyModulation TextAudioVisualizer.gainModulation
         TextAudioVisualizer.started];
    intros Hs ->.
  - (* Queued, Start *)
    destruct Hs as [-> ->]. cbn. split; [split; [reflexivity|]; eauto | reflexivity].
  - (* Queued, Failure *)
    destruct Hs as [-> ->]. cbn. split; [auto | congruence].
  - (* Speaking, End *)
    destruct Hs as [-> [f [g [-> [-> ->]]]]]. cbn. rewrite Pos.eqb_refl. cbn.
    destruct (Pos.eqb f g); cbn; rewrite ?Pos.eqb_refl; cbn; split; auto; congruence.
  - (* Speaking, Pause *)
    destruct Hs as [-> [f [g [-> [-> ->]]]]]. cbn. rewrite Pos.eqb_refl. cbn.
    destruct (Pos.eqb f g); cbn; rewrite ?Pos.eqb_refl; cbn; split; auto.
  - (* Speaking, Failure *)
    destruct Hs as [-> [f [g [-> [-> ->]]]]]. cbn. rewrite Pos.eqb_refl. cbn.
    destruct (Pos.eqb f g); cbn; rewrite ?Pos.eqb_refl; cbn; split; auto; congruence.
  - (* Paused, End *)
    destruct Hs as [-> ->]. destruct fm, gm; cbn; split; auto; congruence.
  - (* Paused, Failure *)
    destruct Hs as [-> ->]. destruct fm, gm; cbn; split; auto; congruence.
Qed.

Lemma run_in_sync (es : list TextAudioVisualizer.UtteranceEvent) :
  forall (s0 s : TextAudioVisualizer.UtteranceState) (w : TextAudioVisualizer.World),
    TextAudioVisualizer.dispatched s0 es = Some s ->
    existsb TextAudioVisualizer.resumes es = false ->
    TextAudioVisualizer.in_sync s0 w ->
    (s0 <> TextAudioVisualizer.Finished ->
     TextAudioVisualizer.started w
     = match s0 with TextAudioVisualizer.Queued => false | _ => true end) ->
    TextAudioVisualizer.in_sync s (TextAudioVisualizer.run es w)
    /\ (s <> TextAudioVisualizer.Finished ->
        TextAudioVisualizer.started (TextAudioVisualizer.run es w)
        = match s with TextAudioVisualizer.Queued => false | _ => true end).
Proof.
  induction es as [|e rest IH]; intros s0 s w Hd Hres Hs Hst; cbn in *.
  - inversion Hd; subst. split; assumption.
  - destruct (TextAudioVisualizer.dispatch s0 e) as [s1|] eqn:E; [|discriminate].
    apply orb_false_iff in Hres. destruct Hres as [Hre Hrest].
    assert (Hnf : s0 <> TextAudioVisualizer.Finished)
      by (intros ->; discriminate).
    destruct (handle_in_sync s0 s1 e w E Hre Hs (Hst Hnf)) as [Hs1 Hst1].
    apply (IH s1 s); [exact Hd | exact Hrest | exact Hs1 |].
    intros Hf. rewrite (Hst1 Hf).
    destruct s0, e; cbn in E; inversion E; reflexivity.
Qed.

Lemma handle_oscillator (e : TextAudioVisualizer.UtteranceEvent)
    (w : TextAudioVisualizer.World) :
  TextAudioVisualizer.oscillator (state_of (TextAudioVisualizer.handle e w))
  = TextAudioVisualizer.oscillator w.
Proof.
  destruct w as [pl pa ct er so osc [f|] [g|] [|] on iv ft]; destruct e; reflexivity.
Qed.

Lemma run_oscillator (es : list TextAudioVisualizer.UtteranceEvent) :
  forall w, TextAudioVisualizer.oscillator (TextAudioVisualizer.run es w)
            = TextAudioVisualizer.oscillator w.
Proof.
  induction es as [|e rest IH]; intros w; [reflexivity|].
  cbn [TextAudioVisualizer.run]. rewrite IH. apply handle_oscillator.
Qed.

Lemma run_snoc (es : list TextAudioVisualizer.UtteranceEvent)
    (e : TextAudioVisualizer.UtteranceEvent) :
  forall w, TextAudioVisualizer.run (es ++ [e]) w
            = state_of (TextAudioVisualizer.handle e (TextAudioVisualizer.run es w)).
Proof.
  induction es as [|e0 rest IH]; intros w; [reflexivity|].
  cbn [app TextAudioVisualizer.run]. apply IH.
Qed.

(** C7 (the code departs from it).  The utterance is started, paused and
    resumed.  Up to the pause the oscillator and the timers follow it.  The
    resume handler then calls [start()] on the oscillator that has been
    started before: the call throws, the handler ends there, the modulation
    timers are not set again and the oscillator stays stopped, while the
    engine is speaking the utterance. *)
Theorem onresume_cannot_restart_oscillator (osc next_timer : Handle) :
  let paused := TextAudioVisualizer.run
                  [TextAudioVisualizer.Start; TextAudioVisualizer.Pause]
                  (TextAudioVisualizer.spoken osc next_timer) in
  let resumed := TextAudioVisualizer.run
                   [TextAudioVisualizer.Start; TextAudioVisualizer.Pause;
                    TextAudioVisualizer.Resume]
                   (TextAudioVisualizer.spoken osc next_timer) in
  TextAudioVisualizer.dispatched TextAudioVisualizer.Queued
    [TextAudioVisualizer.Start; TextAudioVisualizer.Pause; TextAudioVisualizer.Resume]
  = Some TextAudioVisualizer.Speaking
  /\ TextAudioVisualizer.in_sync TextAudioVisualizer.Speaking
       (TextAudioVisualizer.run [TextAudioVisualizer.Start]
          (TextAudioVisualizer.spoken osc next_timer))
  /\ TextAudioVisualizer.in_sync TextAudioVisualizer.Paused paused
  /\ TextAudioVisualizer.handle TextAudioVisualizer.Resume paused
     = (None, TextAudioVisualizer.with_isPaused false paused,
        [SetState "isPaused"; OscillatorStart osc])
  /\ TextAudioVisualizer.oscillating resumed = false
  /\ TextAudioVisualizer.intervals resumed = []
  /\ ~ TextAudioVisualizer.in_sync TextAudioVisualizer.Speaking resumed.
Proof.
  cbv zeta.
  assert (H0 : TextAudioVisualizer.in_sync TextAudioVisualizer.Queued
                 (TextAudioVisualizer.spoken osc next_timer))
    by (split; reflexivity).
  split; [reflexivity|].
  split.
  { apply (run_in_sync [TextAudioVisualizer.Start] TextAudioVisualizer.Queued);
      [reflexivity | reflexivity | exact H0 | reflexivity]. }
  rewrite (run_snoc [TextAudioVisualizer.Start; TextAudioVisualizer.Pause]
             TextAudioVisualizer.Resume (TextAudioVisualizer.spoken osc next_timer)
           : TextAudioVisualizer.run
               [TextAudioVisualizer.Start; TextAudioVisualizer.Pause;
                TextAudioVisualizer.Resume]
               (TextAudioVisualizer.spoken osc next_timer) = _).
  destruct (run_in_sync [TextAudioVisualizer.Start; TextAudioVisualizer.Pause]
              TextAudioVisualizer.Queued TextAudioVisualizer.Paused
              (TextAudioVisualizer.spoken osc next_timer)
              eq_refl eq_refl H0 (fun _ => eq_refl)) as [Hsync Hst].
  specialize (Hst ltac:(discriminate)).
  pose proof (run_oscillator [TextAudioVisualizer.Start; TextAudioVisualizer.Pause]
                (TextAudioVisualizer.spoken osc next_timer)) as Hosc.
  change (TextAudioVisualizer.oscillator (TextAudioVisualizer.spoken osc next_timer))
    with osc in Hosc.
  clear H0.
  generalize dependent (TextAudioVisualizer.run
                          [TextAudioVisualizer.Start; TextAudioVisualizer.Pause]
                          (TextAudioVisualizer.spoken osc next_timer)).
  intros paused Hsync Hst Hosc.
  rewrite (onresume_throws paused Hst), Hosc.
  split; [exact Hsync|]. split; [reflexivity|].
  destruct Hsync as [Ho Hi].
  cbn [state_of fst snd TextAudioVisualizer.with_isPaused TextAudioVisualizer.oscillating
       TextAudioVisualizer.intervals TextAudioVisualizer.in_sync].
  split; [exact Ho|]. split; [exact Hi|].
  intros [H _]. congruence.
Qed.

(** The stop button stops the oscillator of the current utterance and leaves
    the timers to the end or error event that cancelling the speech makes the
    engine dispatch. *)
Lemma stopSpeech_stops_oscillator (w : TextAudioVisualizer.World) :
  TextAudioVisualizer.audio_calls (trace_of (TextAudioVisualizer.stopSpeech w))
  = match TextAudioVisualizer.sourceRef w with
    | Some _ => [OscillatorStop (TextAudioVisualizer.oscillator w)]
    | None => []
    end.
Proof.
  destruct w as [pl pa ct er [so|] osc fm gm [|] on iv ft]; reflexivity.
Qed.

(** * Further properties *)

(** ** formatTime *)

Lemma Qfloor_unique (x : Q) (z : Z) :
  inject_Z z <= x -> x < inject_Z (z + 1) -> Qfloor x = z.
Proof.
  intros Hl Hu.
  assert (H1 : (z <= Qfloor x)%Z).
  { rewrite <- (Qfloor_Z z). apply Qfloor_resp_le. exact Hl. }
  assert (H2 : (Qfloor x < z + 1)%Z).
  { rewrite Zlt_Qlt. eapply Qle_lt_trans; [apply Qfloor_le | exact Hu]. }
  lia.
Qed.

Lemma Qfloor_bounds (x : Q) : inject_Z (Qfloor x) <= x /\ x < inject_Z (Qfloor x + 1).
Proof. split; [apply Qfloor_le | apply Qlt_floor]. Qed.

(** For a time that is not negative, the two fields are the quotient and
    the remainder of the whole seconds by 60. *)
Lemma formatTime_fields (time : Q) :
  0 <= time ->
  Qfloor (time / 60) = (Qfloor time / 60)%Z
  /\ Qfloor (Time.remainder time 60) = (Qfloor time mod 60)%Z.
Proof.
  intros Hpos.
  destruct (Qfloor_bounds time) as [Hl Hu].
  set (s := Qfloor time) in *.
  assert (Hs : (0 <= s)%Z).
  { unfold s. rewrite <- (Qfloor_Z 0). apply Qfloor_resp_le. exact Hpos. }
  pose proof (Z.div_mod s 60 ltac:(lia)) as Hdm.
  pose proof (Z.mod_pos_bound s 60 ltac:(lia)) as Hmb.
  set (m := (s / 60)%Z) in *. set (r := (s mod 60)%Z) in *.
  assert (Hsq : inject_Z s == inject_Z 60 * inject_Z m + inject_Z r).
  { rewrite <- inject_Z_mult, <- inject_Z_plus. rewrite <- Hdm. reflexivity. }
  assert (Hs1 : inject_Z (s + 1) == inject_Z s + 1).
  { rewrite inject_Z_plus. reflexivity. }
  assert (Hr0 : 0 <= inject_Z r)
    by (change (inject_Z 0 <= inject_Z r); rewrite <- Zle_Qle; lia).
  assert (Hr59 : inject_Z r + 1 <= 60).
  { assert (H : inject_Z (r + 1) <= inject_Z 60) by (rewrite <- Zle_Qle; lia).
    rewrite inject_Z_plus in H. exact H. }
  assert (Hm : Qfloor (time / 60) = m).
  { apply Qfloor_unique.
    - apply Qle_shift_div_l; [reflexivity|].
      eapply Qle_trans; [|exact Hl]. rewrite Hsq.
      setoid_replace (inject_Z m * 60) with (inject_Z 60 * inject_Z m + 0) by (simpl; ring).
      apply Qplus_le_r. exact Hr0.
    - apply Qlt_shift_div_r; [reflexivity|].
      eapply Qlt_le_trans; [exact Hu|]. rewrite Hs1, Hsq, inject_Z_plus.
      setoid_replace ((inject_Z m + inject_Z 1) * 60)
        with (inject_Z 60 * inject_Z m + 60) by (simpl; ring).
      rewrite <- Qplus_assoc. apply Qplus_le_r. exact Hr59. }
  split; [exact Hm|].
  unfold Time.remainder, Time.Qtrunc.
  assert (Hq : Qle_bool 0 (time / 60) = true).
  { apply Qle_bool_iff. apply Qle_shift_div_l; [reflexivity|].
    rewrite Qmult_0_l. exact Hpos. }
  rewrite Hq, Hm. apply Qfloor_unique.
  - apply (Qplus_le_l _ _ (60 * inject_Z m)).
    setoid_replace (time - 60 * inject_Z m + 60 * inject_Z m) with time by ring.
    eapply Qle_trans; [|exact Hl]. rewrite Hsq.
    setoid_replace (inject_Z r + 60 * inject_Z m)
      with (inject_Z 60 * inject_Z m + inject_Z r) by (simpl; ring).
    apply Qle_refl.
  - apply (Qplus_lt_l _ _ (60 * inject_Z m)).
    setoid_replace (time - 60 * inject_Z m + 60 * inject_Z m) with time by ring.
    eapply Qlt_le_trans; [exact Hu|]. rewrite Hs1, Hsq, inject_Z_plus.
    setoid_replace (inject_Z r + inject_Z 1 + 60 * inject_Z m)
      with (inject_Z 60 * inject_Z m + inject_Z r + 1) by (simpl; ring).
    apply Qle_refl.
Qed.

Lemma two_digits (k : Z) :
  (0 <= k < 60)%Z ->
  exists a b,
    Time.padStart 2 "0" (Time.toString k) = String a (String b EmptyString)
    /\ Time.is_digit a = true /\ Time.is_digit b = true
    /\ k = (10 * (Z.of_nat (nat_of_ascii a) - 48) + (Z.of_nat (nat_of_ascii b) - 48))%Z.
Proof.
  intros Hk.
  assert (Hall : forallb two_digits_check (map Z.of_nat (seq 0 60)) = true)
    by (vm_compute; reflexivity).
  rewrite forallb_forall in Hall.
  assert (Hin : In k (map Z.of_nat (seq 0 60))).
  { replace k with (Z.of_nat (Z.to_nat k)) by lia. apply in_map, in_seq. lia. }
  specialize (Hall k Hin). unfold two_digits_check in Hall.
  destruct (Time.padStart 2 "0" (Time.toString k)) as [|a [|b [|c r]]];
    try discriminate.
  apply andb_prop in Hall. destruct Hall as [Hab Hv].
  apply andb_prop in Hab. destruct Hab as [Ha Hb].
  apply Z.eqb_eq in Hv. exists a, b. auto.
Qed.

Lemma string_length_append (s t : string) :
  String.length (s ++ t)%string = (String.length s + String.length t)%nat.
Proof. induction s as [|c s IH]; simpl; [reflexivity | now rewrite IH]. Qed.

Lemma string_append_inj (s1 s2 t1 t2 : string) :
  String.length t1 = String.length t2 ->
  (s1 ++ t1)%string = (s2 ++ t2)%string ->
  s1 = s2 /\ t1 = t2.
Proof.
  revert s2. induction s1 as [|c s1 IH]; intros [|c2 s2] Hlen H; simpl in H.
  - auto.
  - subst t1. simpl in Hlen. rewrite string_length_append in Hlen. lia.
  - subst t2. simpl in Hlen. rewrite string_length_append in Hlen. lia.
  - inversion H; subst. destruct (IH s2 Hlen H2) as [-> ->]. auto.
Qed.

Lemma toString_inj (a b : Z) : Time.toString a = Time.toString b -> a = b.
Proof.
  unfold Time.toString. intros H.
  assert (Hn : forall z, Z.to_int z <> Decimal.Pos Decimal.Nil
                         /\ Z.to_int z <> Decimal.Neg Decimal.Nil).
  { intros z. pose proof (DecimalZ.to_of (Z.to_int z)) as Hz.
    rewrite DecimalZ.of_to in Hz. split; intros E; rewrite E in Hz; discriminate. }
  apply DecimalZ.to_int_inj.
  assert (E : Some (Z.to_int a) = Some (Z.to_int b)).
  { rewrite <- (NilZero.isi (Z.to_int a)), <- (NilZero.isi (Z.to_int b));
      try apply Hn. now rewrite H. }
  now inversion E.
Qed.

Lemma formatTime_shape (time : Q) :
  0 <= time ->
  exists a b,
    Time.formatTime time
    = (Time.toString (Qfloor time / 60) ++ ":" ++ String a (String b EmptyString))%string
    /\ Time.is_digit a = true
    /\ Time.is_digit b = true
    /\ (Qfloor time mod 60
        = 10 * (Z.of_nat (nat_of_ascii a) - 48) + (Z.of_nat (nat_of_ascii b) - 48))%Z.
Proof.
  intros Hpos. destruct (formatTime_fields time Hpos) as [Hm Hs].
  destruct (two_digits (Qfloor time mod 60)) as [a [b [Hp [Ha [Hb Hv]]]]].
  { apply Z.mod_pos_bound. lia. }
  exists a, b. unfold Time.formatTime. rewrite Hm, Hs, Hp. auto.
Qed.

(** The label of a time that is not negative and below 2^53 seconds is
    [m:ss]: the whole minutes in decimal, a colon, and the remaining whole
    seconds, below 60, as exactly two decimal digits.  Below 2^53 a double
    holds every whole number and [Number.prototype.toString] prints its
    digits; from there on, and for a duration that is not finite, the source
    prints a rounded number, an exponent or [Infinity:NaN], which [Time] does
    not model. *)
Theorem formatTime_minutes_seconds (time : Q) :
  0 <= time ->
  time < 9007199254740992 ->
  exists a b,
    Time.formatTime time
    = (Time.toString (Qfloor time / 60) ++ ":" ++ String a (String b EmptyString))%string
    /\ Time.is_digit a = true
    /\ Time.is_digit b = true
    /\ (Qfloor time mod 60
        = 10 * (Z.of_nat (nat_of_ascii a) - 48) + (Z.of_nat (nat_of_ascii b) - 48))%Z.
Proof.
  intros Hpos _. destruct (formatTime_fields time Hpos) as [Hm Hs].
  destruct (two_digits (Qfloor time mod 60)) as [a [b [Hp [Ha [Hb Hv]]]]].
  { apply Z.mod_pos_bound. lia. }
  exists a, b. unfold Time.formatTime. rewrite Hm, Hs, Hp. auto.
Qed.

Lemma formatTime_minutes_seconds_witness :
  exists a b,
    Time.formatTime (1253 # 10)
    = (Time.toString 2 ++ ":" ++ String a (String b EmptyString))%string
    /\ Time.is_digit a = true /\ Time.is_digit b = true.
Proof.
  destruct (formatTime_minutes_seconds (1253 # 10)) as [a [b [H1 [H2 [H3 _]]]]].
  - discriminate.
  - reflexivity.
  - exists a, b. split; [exact H1 | split; [exact H2 | exact H3]].
Defined.

(** Two times that are not negative get the same label exactly when they
    lie in the same whole second. *)
Theorem formatTime_same_second (t1 t2 : Q) :
  0 <= t1 -> 0 <= t2 ->
  (Time.formatTime t1 = Time.formatTime t2 <-> Qfloor t1 = Qfloor t2).
Proof.
  intros H1 H2.
  destruct (formatTime_fields t1 H1) as [Hm1 Hs1].
  destruct (formatTime_fields t2 H2) as [Hm2 Hs2].
  split.
  - intros E.
    destruct (formatTime_shape t1 H1) as [a1 [b1 [F1 [_ [_ V1]]]]].
    destruct (formatTime_shape t2 H2) as [a2 [b2 [F2 [_ [_ V2]]]]].
    rewrite F1, F2 in E.
    apply string_append_inj in E; [|reflexivity].
    destruct E as [Em Es]. apply toString_inj in Em.
    inversion Es; subst a2 b2.
    rewrite (Z.div_mod (Qfloor t1) 60), (Z.div_mod (Qfloor t2) 60) by lia.
    rewrite Em, V1, V2. reflexivity.
  - intros E. unfold Time.formatTime. rewrite Hm1, Hs1, Hm2, Hs2, E. reflexivity.
Qed.

Lemma formatTime_same_second_witness :
  Time.formatTime (1253 # 10) = Time.formatTime 125.
Proof.
  apply (formatTime_same_second (1253 # 10) 125); [discriminate | discriminate | reflexivity].
Defined.

(** ** TabView *)

Lemma filter_none {A} (f : A -> bool) (l : list A) :
  (forall x, In x l -> f x = false) -> filter f l = [].
Proof.
  induction l as [|a l IH]; intros H; [reflexivity|]. simpl.
  rewrite (H a (or_introl eq_refl)). apply IH. intros x Hx. apply H. right. exact Hx.
Qed.

Section TabViewProperties.
Context {Content : Type}.

Lemma find_id_self (tabs : list (TabView.Tab Content)) (t : TabView.Tab Content) :
  In t tabs ->
  NoDup (map TabView.id tabs) ->
  find (fun tab => String.eqb (TabView.id tab) (TabView.id t)) tabs = Some t.
Proof.
  induction tabs as [|t0 rest IH]; intros Hin Hnd; [destruct Hin|].
  simpl. inversion Hnd as [|? ? Hnotin Hnd']; subst.
  destruct (String.eqb_spec (TabView.id t0) (TabView.id t)) as [E|E].
  - destruct Hin as [->|Hin]; [reflexivity|].
    exfalso. apply Hnotin. rewrite E. apply in_map. exact Hin.
  - destruct Hin as [->|Hin]; [congruence|]. apply IH; assumption.
Qed.

(** Clicking the button of a tab shows the content of that tab and selects
    its button alone, provided the tabs have distinct ids. *)
Theorem tab_click_shows_tab (tabs : list (TabView.Tab Content))
    (t : TabView.Tab Content) (activeTab : string) :
  In t tabs ->
  NoDup (map TabView.id tabs) ->
  TabView.shown tabs (TabView.onClick t activeTab) = Some (TabView.content t)
  /\ TabView.highlighted tabs (TabView.onClick t activeTab) = [t].
Proof.
  intros Hin Hnd. unfold TabView.shown, TabView.highlighted, TabView.onClick. split.
  - rewrite (find_id_self tabs t Hin Hnd). reflexivity.
  - clear activeTab. induction tabs as [|t0 rest IH]; [destruct Hin|].
    simpl. inversion Hnd as [|? ? Hnotin Hnd']; subst.
    destruct (String.eqb_spec (TabView.id t) (TabView.id t0)) as [E|E].
    + destruct Hin as [Heq|Hin].
      * subst t0. f_equal. apply filter_none.
        intros x Hx. destruct (String.eqb_spec (TabView.id t) (TabView.id x)) as [E'|]; [|reflexivity].
        exfalso. apply Hnotin. rewrite E'. apply in_map. exact Hx.
      * exfalso. apply Hnotin. rewrite <- E. apply in_map. exact Hin.
    + destruct Hin as [->|Hin]; [congruence|]. apply IH; assumption.
Qed.

(** Without a default tab, or with an empty one, the first tab is shown
    first; a default that is the id of no tab leaves the view empty with no
    button selected. *)
Theorem tab_default (tabs : list (TabView.Tab Content)) (defaultTab : option string) :
  (forall t rest,
      tabs = t :: rest ->
      defaultTab = None \/ defaultTab = Some EmptyString ->
      TabView.shown tabs (TabView.initialTab tabs defaultTab) = Some (TabView.content t))
  /\ (forall d,
        defaultTab = Some d ->
        d <> EmptyString ->
        ~ In d (map TabView.id tabs) ->
        TabView.shown tabs (TabView.initialTab tabs defaultTab) = None
        /\ TabView.highlighted tabs (TabView.initialTab tabs defaultTab) = []).
Proof.
  split.
  - intros t rest -> Hd.
    assert (E : TabView.initialTab (t :: rest) defaultTab = TabView.id t).
    { unfold TabView.initialTab. destruct Hd as [->| ->]; simpl;
        destruct (TabView.id t); reflexivity. }
    rewrite E. unfold TabView.shown. simpl. rewrite String.eqb_refl. reflexivity.
  - intros d -> Hne Hnot.
    assert (E : TabView.initialTab tabs (Some d) = d).
    { unfold TabView.initialTab. destruct d; [congruence | reflexivity]. }
    rewrite E. unfold TabView.shown, TabView.highlighted. split.
    + destruct (find _ tabs) as [t|] eqn:F; [|reflexivity].
      apply find_some in F. destruct F as [Hin Heq].
      apply String.eqb_eq in Heq. exfalso. apply Hnot. rewrite <- Heq.
      apply in_map. exact Hin.
    + apply filter_none. intros x Hx.
      destruct (String.eqb_spec d (TabView.id x)) as [E'|]; [|reflexivity].
      exfalso. apply Hnot. rewrite E'. apply in_map. exact Hx.
Qed.

End TabViewProperties.

Lemma tab_click_shows_tab_witness :
  TabView.shown three_tabs
    (TabView.onClick {| TabView.id := "live"; TabView.label := "Live";
                        TabView.content := 2%nat |} "file")
  = Some 2%nat.
Proof.
  apply (tab_click_shows_tab three_tabs
           {| TabView.id := "live"; TabView.label := "Live"; TabView.content := 2%nat |}
           "file").
  - simpl. auto.
  - simpl. repeat constructor; simpl; intuition discriminate.
Defined.

Lemma tab_default_witness :
  TabView.shown three_tabs (TabView.initialTab three_tabs None) = Some 1%nat
  /\ TabView.shown three_tabs (TabView.initialTab three_tabs (Some "mic")) = None.
Proof.
  split.
  - apply (proj1 (tab_default three_tabs None) _ _ eq_refl). left. reflexivity.
  - apply (proj2 (tab_default three_tabs (Some "mic")) "mic" eq_refl).
    + discriminate.
    + simpl. intuition discriminate.
Defined.

(** ** Geometry of the drawings *)


Lemma byte_sample_range (data : Snapshot) (k v : Z) :
  byte_samples data -> sample data k = Some v -> 0 <= inject_Z v <= 255.
Proof.
  intros Hb Hs. unfold sample in Hs. destruct (k <? 0)%Z; [discriminate|].
  apply nth_error_In in Hs. unfold byte_samples in Hb. rewrite Forall_forall in Hb.
  specialize (Hb v Hs). split.
  - change 0 with (inject_Z 0). rewrite <- Zle_Qle. lia.
  - change 255 with (inject_Z 255). rewrite <- Zle_Qle. lia.
Qed.

(** The bars of the spectrum stay inside the canvas.  For whole-number
    width, barWidth and barGap (not negative, not both zero), a height that
    is not negative and byte samples, every bar rectangle the draw fills lies
    between the left and the right edge of the canvas, starts at or below the
    top edge and is at most as high as the canvas; and each bar starts one
    bar width and one gap after the one before it. *)
Theorem spectrum_bars_inside_canvas (cfg : RenderConfig) (data : Snapshot) :
  safe_integer (width cfg) ->
  safe_integer (barWidth cfg) ->
  safe_integer (barGap cfg) ->
  0 <= barWidth cfg ->
  0 <= barGap cfg ->
  0 < barWidth cfg + barGap cfg ->
  0 <= height cfg ->
  data <> [] ->
  byte_samples data ->
  exists calls bars,
    drawSpectrum cfg data = Ok calls
    /\ (forall style,
          filled style calls
          = (Solid (backgroundColor cfg), (0, 0, width cfg, height cfg)) :: bars)
    /\ forall i f x y w h,
         nth_error bars i = Some (f, (x, y, w, h)) ->
         0 <= x
         /\ x + w <= width cfg
         /\ (0 <= y /\ y <= height cfg)
         /\ (0 <= h /\ h <= height cfg)
         /\ (forall f' x' y' w' h',
               nth_error bars (S i) = Some (f', (x', y', w', h')) ->
               x' == x + barWidth cfg + barGap cfg).
Proof.
  intros _ _ _ Hbw Hbg Hpos Hh Hne Hb.
  destruct (drawSpectrum_paints cfg data Hpos Hne)
    as [calls [bars [Hok [Hfill [Hlen Hbars]]]]].
  exists calls, bars. split; [exact Hok|]. split; [exact Hfill|].
  intros i f x y w h Hi.
  assert (Hlt : (i < length bars)%nat) by (apply nth_error_Some; congruence).
  destruct (Hbars i f x y w h Hi) as [v [Hs [-> [-> [-> [-> _]]]]]].
  pose proof (byte_sample_range data _ v Hb Hs) as Hv.
  set (g := barWidth cfg + barGap cfg) in *.
  assert (Hi0 : 0 <= inject_Z (Z.of_nat i))
    by (change 0 with (inject_Z 0); rewrite <- Zle_Qle; lia).
  assert (Hbc : inject_Z (Z.of_nat i) + 1
                <= inject_Z (Qfloor (width cfg / g))).
  { change 1 with (inject_Z 1). rewrite <- inject_Z_plus, <- Zle_Qle. lia. }
  assert (Hw : inject_Z (Qfloor (width cfg / g)) * g <= width cfg).
  { assert (E : width cfg / g * g == width cfg) by (field; lra).
    apply Qle_trans with (width cfg / g * g);
      [apply Qmult_le_compat_r; [apply Qfloor_le | lra] | rewrite E; apply Qle_refl]. }
  assert (Hig : (inject_Z (Z.of_nat i) + 1) * g
                <= inject_Z (Qfloor (width cfg / g)) * g)
    by (apply Qmult_le_compat_r; [exact Hbc | lra]).
  assert (Hx0 : 0 <= inject_Z (Z.of_nat i) * g)
    by (apply Qmult_le_0_compat; lra).
  assert (E : inject_Z v / 255 * height cfg == (inject_Z v * height cfg) * (1 # 255))
    by field.
  assert (Hvh0 : 0 <= inject_Z v * height cfg) by (apply Qmult_le_0_compat; lra).
  assert (Hvh1 : inject_Z v * height cfg <= 255 * height cfg)
    by (apply Qmult_le_compat_r; lra).
  split; [exact Hx0|]. split; [unfold g in *; lra|].
  split; [rewrite E; lra|]. split; [rewrite E; lra|].
  intros f' x' y' w' h' Hi'.
  destruct (Hbars (S i) f' x' y' w' h' Hi') as [v' [_ [_ [_ [-> _]]]]]. fold g.
  rewrite Nat2Z.inj_succ. unfold Z.succ. rewrite inject_Z_plus.
  unfold g. simpl (inject_Z 1). ring.
Qed.

Lemma spectrum_bars_inside_canvas_witness :
  exists calls bars,
    drawSpectrum live_defaults (repeat 200%Z 1024) = Ok calls
    /\ filled (Solid "#000000") calls = (Solid "#ffffff", (0, 0, 800, 200)) :: bars
    /\ forall i f x y w h,
         nth_error bars i = Some (f, (x, y, w, h)) -> 0 <= x /\ x + w <= 800.
Proof.
  destruct (spectrum_bars_inside_canvas live_defaults (repeat 200%Z 1024))
    as [calls [bars [H1 [H2 H3]]]].
  - exists 800%Z. split; [reflexivity | vm_compute; reflexivity].
  - exists 4%Z. split; [reflexivity | vm_compute; reflexivity].
  - exists 2%Z. split; [reflexivity | vm_compute; reflexivity].
  - discriminate.
  - discriminate.
  - reflexivity.
  - discriminate.
  - discriminate.
  - apply Forall_forall. intros x Hx. apply repeat_spec in Hx. subst x. lia.
  - exists calls, bars. split; [exact H1|]. split; [apply H2|]. intros i f x y w h Hi.
    destruct (H3 i f x y w h Hi) as [Ha [Hb _]]. split; assumption.
Defined.

(** The waveform stays inside the canvas: for a width and a height that are
    not negative and byte samples, every point of the polyline has
    0 <= x <= width and 0 <= y <= height. *)
Theorem waveform_inside_canvas (cfg : RenderConfig) (data : Snapshot) :
  0 <= width cfg ->
  0 <= height cfg ->
  byte_samples data ->
  Forall (fun p => (0 <= fst p /\ fst p <= width cfg)
                   /\ (0 <= snd p /\ snd p <= height cfg))
         (path_points (drawWaveform cfg data)).
Proof.
  intros Hw Hh Hb. rewrite drawWaveform_points_eq. apply Forall_app. split.
  - set (sw := width cfg / inject_Z (Z.of_nat (length data))).
    apply Forall_forall. intros p Hin.
    destruct (In_nth_error _ _ Hin) as [k Hk].
    assert (Hlt : (k < length data)%nat).
    { rewrite <- (waveform_loop_length cfg sw data 0%nat 0).
      apply nth_error_Some. congruence. }
    destruct (nth_error data k) as [s|] eqn:Hs;
      [|apply nth_error_None in Hs; lia].
    destruct (waveform_loop_nth cfg sw data 0%nat 0 k s Hs) as [x [Hp Hx]].
    rewrite Hp in Hk. inversion Hk; subst p; clear Hk. cbn [fst snd].
    assert (Hs' : (0 <= s <= 255)%Z).
    { unfold byte_samples in Hb. rewrite Forall_forall in Hb.
      apply Hb. eapply nth_error_In. exact Hs. }
    assert (Hv : 0 <= inject_Z s <= 255).
    { split; [change 0 with (inject_Z 0) | change 255 with (inject_Z 255)];
        rewrite <- Zle_Qle; lia. }
    assert (HL : 0 < inject_Z (Z.of_nat (length data))).
    { change 0 with (inject_Z 0). rewrite <- Zlt_Qlt. lia. }
    assert (Hk0 : 0 <= inject_Z (Z.of_nat k)).
    { change 0 with (inject_Z 0). rewrite <- Zle_Qle. lia. }
    assert (HkL : inject_Z (Z.of_nat k) <= inject_Z (Z.of_nat (length data))).
    { rewrite <- Zle_Qle. lia. }
    assert (Hsw : 0 <= sw).
    { unfold sw. apply Qle_shift_div_l; [exact HL|]. rewrite Qmult_0_l. exact Hw. }
    assert (HLsw : inject_Z (Z.of_nat (length data)) * sw == width cfg).
    { unfold sw. field. lra. }
    assert (Hksw0 : 0 <= inject_Z (Z.of_nat k) * sw)
      by (apply Qmult_le_0_compat; assumption).
    assert (Hksw : inject_Z (Z.of_nat k) * sw
                   <= inject_Z (Z.of_nat (length data)) * sw)
      by (apply Qmult_le_compat_r; assumption).
    assert (E : sample_y cfg s == (inject_Z s * height cfg) * (1 # 256))
      by (unfold sample_y; field).
    assert (Hvh0 : 0 <= inject_Z s * height cfg) by (apply Qmult_le_0_compat; lra).
    assert (Hvh1 : inject_Z s * height cfg <= 255 * height cfg)
      by (apply Qmult_le_compat_r; lra).
    rewrite Hx, E. repeat split; lra.
  - constructor; [|constructor]. cbn [fst snd].
    assert (E : height cfg / 2 == height cfg * (1 # 2)) by field.
    rewrite E. repeat split; lra.
Qed.

Lemma waveform_inside_canvas_witness :
  Forall (fun p => (0 <= fst p /\ fst p <= width live_defaults)
                   /\ (0 <= snd p /\ snd p <= height live_defaults))
         (path_points (drawWaveform live_defaults [0; 128; 255; 64]%Z)).
Proof.
  apply (waveform_inside_canvas live_defaults [0; 128; 255; 64]%Z).
  - discriminate.
  - discriminate.
  - repeat constructor; discriminate.
Defined.



(** ** LiveAudioVisualizer: every interleaving *)

Lemma Ok_state {S} (x : unit * S * list Action) (w' : S) (t : list Action) :
  Ok x = Ok (tt, w', t) -> w' = state_of x /\ t = trace_of x.
Proof. intros H. injection H as ->. split; reflexivity. Qed.

Lemma not_in_remove_handle (h : Handle) (l : list Handle) : ~ In h (remove_handle h l).
Proof.
  unfold remove_handle. intros Hin. apply filter_In in Hin. destruct Hin as [_ Hf].
  rewrite Pos.eqb_refl in Hf. discriminate.
Qed.

Lemma in_remove_handle_other (h h' : Handle) (l : list Handle) :
  h <> h' -> In h' l -> In h' (remove_handle h l).
Proof.
  intros Hne Hin. unfold remove_handle. apply filter_In. split; [exact Hin|].
  destruct (Pos.eqb_spec h h'); [congruence | reflexivity].
Qed.

Lemma remove_handle_incl (h : Handle) (l : list Handle) : incl (remove_handle h l) l.
Proof. apply incl_filter. Qed.

(** *** The two halves of [startListening] *)

(** [Listener.request] and [Listener.settled] are [startListening], cut at
    its [await]. *)
Lemma startListening_request_settled (r : MediaResult) (c : LiveAudioVisualizer.World) :
  LiveAudioVisualizer.startListening r c = (Listener.request ;; Listener.settled r) c.
Proof. destruct r; reflexivity. Qed.

Lemma stopListening_stopped (c : LiveAudioVisualizer.World) :
  state_of (LiveAudioVisualizer.stopListening c) = stopped_listening c.
Proof.
  destruct c as [li er cv af ac an st so [pe fr ca co ed]].
  destruct af, ac, st, so; reflexivity.
Qed.

Lemma settled_granted (c : LiveAudioVisualizer.World) :
  state_of (Listener.settled Granted c) = granted c.
Proof. destruct c as [li er cv af ac an st so [pe fr ca co ed]]. reflexivity. Qed.

(** *** States that differ in the render loop only *)

Lemma same_audio_refl (c : LiveAudioVisualizer.World) : same_audio c c.
Proof. unfold same_audio. repeat split. apply Pos.le_refl. Qed.

Lemma same_audio_trans (a b c : LiveAudioVisualizer.World) :
  same_audio a b -> same_audio b c -> same_audio a c.
Proof.
  unfold same_audio. intros H1 H2.
  decompose [and] H1. decompose [and] H2.
  repeat split; try congruence. eapply Pos.le_trans; eassumption.
Qed.

Lemma effect_cleanup_same (c : LiveAudioVisualizer.World) :
  same_audio c (state_of (LiveAudioVisualizer.effect_cleanup c)).
Proof.
  unfold LiveAudioVisualizer.effect_cleanup, whenSome, state_of, same_audio.
  destruct (LiveAudioVisualizer.animationFrameRef c); repeat split; apply Pos.le_refl.
Qed.

Lemma cancel_frame_same (id : Handle) (c : LiveAudioVisualizer.World) :
  same_audio c (LiveAudioVisualizer.on_browser (cancel_frame id) c).
Proof. unfold same_audio. repeat split. apply Pos.le_refl. Qed.

Lemma animate_same (p : LiveAudioVisualizer.Props) (b : bool) (snap : Snapshot)
    (c c' : LiveAudioVisualizer.World) (t : list Action) :
  LiveAudioVisualizer.animate p b snap c = Ok (tt, c', t) -> same_audio c c'.
Proof.
  unfold LiveAudioVisualizer.animate.
  destruct (LiveAudioVisualizer.analyserRef c) as [an|] eqn:Ea;
    [|intros H; inversion H; subst; apply same_audio_refl].
  destruct (negb (LiveAudioVisualizer.canvasRef c) || negb b);
    [intros H; inversion H; subst; apply same_audio_refl|].
  destruct (match LiveAudioVisualizer.visualizationType p with
            | waveform => Ok (drawWaveform (LiveAudioVisualizer.config p) snap)
            | spectrum => drawSpectrum (LiveAudioVisualizer.config p) snap
            end) as [calls| |]; cbn [bind]; try discriminate.
  intros H. inversion H; subst. unfold same_audio. repeat split.
  cbn. apply Pos.lt_le_incl, Pos.lt_succ_diag_r.
Qed.

Lemma animation_effect_same (p : LiveAudioVisualizer.Props) (snap : Snapshot)
    (c c' : LiveAudioVisualizer.World) (t : list Action) :
  LiveAudioVisualizer.animation_effect p snap c = Ok (tt, c', t) -> same_audio c c'.
Proof.
  unfold LiveAudioVisualizer.animation_effect.
  destruct (LiveAudioVisualizer.isListening c);
    [destruct (LiveAudioVisualizer.analyserRef c); [apply animate_same|]|];
    unfold whenSome; destruct (LiveAudioVisualizer.animationFrameRef c);
    intros H; inversion H; subst; unfold same_audio; repeat split; apply Pos.le_refl.
Qed.

Lemma audio_invariant_same (m : bool) (c c' : LiveAudioVisualizer.World) :
  same_audio c c' -> audio_invariant m c -> audio_invariant m c'.
Proof.
  unfold same_audio, audio_invariant, refs_coherent, handles_below.
  intros [Hl [_ [Hc [Hs [Hso [Hac [Han [Hca [Hco [Hed Hfr]]]]]]]]]] [Hr [[Hb1 Hb2] Hm]].
  rewrite Hl, Hc, Hs, Hso, Hac, Han, Hca, Hco, Hed.
  split; [exact Hr|]. split; [|exact Hm].
  split; [apply Forall_forall; intros x Hx; rewrite Forall_forall in Hb1
         | apply Forall_forall; intros x Hx; rewrite Forall_forall in Hb2];
    eapply Pos.lt_le_trans; eauto.
Qed.

(** *** The audio resources *)

Lemma audio_invariant_setError (m : bool) (e : option string) (c : LiveAudioVisualizer.World) :
  audio_invariant m c -> audio_invariant m (state_of (LiveAudioVisualizer.setError e c)).
Proof. destruct c. exact (fun H => H). Qed.

Lemma audio_invariant_stopped (m : bool) (c : LiveAudioVisualizer.World) :
  audio_invariant m c -> audio_invariant m (stopped_listening c).
Proof.
  unfold audio_invariant, refs_coherent, handles_below.
  intros [_ [[Hb1 Hb2] Hm]].
  cbn [stopped_listening LiveAudioVisualizer.streamRef LiveAudioVisualizer.audioContextRef
       LiveAudioVisualizer.analyserRef LiveAudioVisualizer.sourceRef
       LiveAudioVisualizer.isListening LiveAudioVisualizer.canvasRef
       LiveAudioVisualizer.browser capturing contexts fresh].
  split; [auto|]. split.
  - split.
    + destruct (LiveAudioVisualizer.streamRef c); [|exact Hb1].
      rewrite Forall_forall in *. intros x Hx. apply Hb1. eapply remove_handle_incl. exact Hx.
    + destruct (LiveAudioVisualizer.audioContextRef c); [|exact Hb2].
      rewrite Forall_forall in *. intros x Hx. apply Hb2. eapply remove_handle_incl. exact Hx.
  - destruct m; [reflexivity|]. split; [reflexivity | apply Hm].
Qed.

Lemma handles_below_granted (c : LiveAudioVisualizer.World) :
  handles_below c -> handles_below (granted c).
Proof.
  unfold handles_below. intros [Hb1 Hb2].
  cbn [granted LiveAudioVisualizer.browser capturing contexts fresh].
  set (f := fresh (LiveAudioVisualizer.browser c)) in *.
  assert (H1 : (f < Pos.succ (Pos.succ f))%positive) by lia.
  assert (H2 : (Pos.succ f < Pos.succ (Pos.succ f))%positive) by lia.
  rewrite Forall_forall in Hb1, Hb2.
  split; constructor; try assumption; apply Forall_forall; intros x Hx;
    [specialize (Hb1 x Hx) | specialize (Hb2 x Hx)]; lia.
Qed.

Lemma refs_coherent_granted (c : LiveAudioVisualizer.World) : refs_coherent (granted c).
Proof.
  unfold refs_coherent.
  cbn [granted LiveAudioVisualizer.streamRef LiveAudioVisualizer.audioContextRef
       LiveAudioVisualizer.analyserRef LiveAudioVisualizer.sourceRef
       LiveAudioVisualizer.browser capturing contexts edges].
  eexists. split; [reflexivity|]. split; [reflexivity|]. split; [reflexivity|].
  split; [left; reflexivity|]. split; [left; reflexivity|].
  split; [apply in_or_app; left; apply in_or_app; right; left; reflexivity|].
  apply in_or_app; right; left; reflexivity.
Qed.

Lemma audio_invariant_granted (c : LiveAudioVisualizer.World) :
  audio_invariant true c -> audio_invariant true (granted c).
Proof.
  intros [_ [Hb _]]. split; [apply refs_coherent_granted|].
  split; [apply handles_below_granted; exact Hb | reflexivity].
Qed.

Lemma audio_invariant_granted_unmounted (c : LiveAudioVisualizer.World) :
  audio_invariant false c ->
  audio_invariant false (Listener.dropped_updates c (granted c)).
Proof.
  intros [_ [Hb [Hl Hc]]]. split; [apply (refs_coherent_granted c)|].
  split; [apply (handles_below_granted c); exact Hb|].
  split; [exact Hl | exact Hc].
Qed.

Lemma audio_listening_analyser (m : bool) (c : LiveAudioVisualizer.World) :
  audio_invariant m c ->
  LiveAudioVisualizer.isListening c = true ->
  m = true
  /\ exists stream ctx,
       LiveAudioVisualizer.streamRef c = Some stream
       /\ LiveAudioVisualizer.audioContextRef c = Some ctx
       /\ LiveAudioVisualizer.analyserRef c = Some (Analyser ctx)
       /\ LiveAudioVisualizer.sourceRef c = Some (MediaStreamSource ctx stream).
Proof.
  unfold audio_invariant, refs_coherent. intros [Hr [_ Hm]] El.
  destruct m; [|destruct Hm; congruence].
  rewrite El in Hm.
  destruct (LiveAudioVisualizer.streamRef c) as [stream|]; [|discriminate].
  destruct Hr as [ctx [H1 [H2 [H3 _]]]]. split; [reflexivity|].
  exists stream, ctx. auto.
Qed.

Lemma audio_invariant_unmounted (m : bool) (c : LiveAudioVisualizer.World) :
  audio_invariant m c ->
  audio_invariant false (LiveAudioVisualizer.with_canvasRef false (stopped_listening c)).
Proof.
  intros H. apply (audio_invariant_stopped m) in H.
  destruct H as [Hr [Hb _]]. split; [exact Hr|]. split; [exact Hb|].
  split; reflexivity.
Qed.

(** *** The render loop *)

Lemma frames_invariant_setError (e : option string) (c : LiveAudioVisualizer.World) :
  frames_invariant c -> frames_invariant (state_of (LiveAudioVisualizer.setError e c)).
Proof. destruct c. exact (fun H => H). Qed.

Lemma frames_invariant_idle (c : LiveAudioVisualizer.World) :
  pending (LiveAudioVisualizer.browser c) = [] ->
  (LiveAudioVisualizer.isListening c = true ->
   LiveAudioVisualizer.canvasRef c = false) ->
  frames_invariant c.
Proof.
  intros Hp Hl. split; [left; exact Hp|]. split; [intros _; exact Hp|].
  intros El Hc. rewrite (Hl El) in Hc. discriminate.
Qed.

Lemma animate_frames (p : LiveAudioVisualizer.Props) (snap : Snapshot)
    (c c' : LiveAudioVisualizer.World) (t : list Action) :
  pending (LiveAudioVisualizer.browser c) = [] ->
  LiveAudioVisualizer.isListening c = true ->
  LiveAudioVisualizer.analyserRef c <> None ->
  LiveAudioVisualizer.animate p true snap c = Ok (tt, c', t) ->
  frames_invariant c'.
Proof.
  intros Hp El Ha. unfold LiveAudioVisualizer.animate.
  destruct (LiveAudioVisualizer.analyserRef c) as [an|]; [|congruence].
  destruct (LiveAudioVisualizer.canvasRef c) eqn:Ec; cbn [negb orb].
  - destruct (match LiveAudioVisualizer.visualizationType p with
              | waveform => Ok (drawWaveform (LiveAudioVisualizer.config p) snap)
              | spectrum => drawSpectrum (LiveAudioVisualizer.config p) snap
              end) as [calls| |]; cbn [bind]; try discriminate.
    intros H. inversion H; subst; clear H. unfold frames_invariant.
    cbn. rewrite Hp, El, Ec. cbn.
    split; [right; exists (fresh (LiveAudioVisualizer.browser c)); cbn;
            rewrite Hp, El; auto|].
    split; [discriminate|]. eauto.
  - intros H. inversion H; subst. apply frames_invariant_idle; [exact Hp|]. auto.
Qed.

Lemma effect_frames (p : LiveAudioVisualizer.Props) (snap : Snapshot)
    (c c' : LiveAudioVisualizer.World) (t : list Action) :
  pending (LiveAudioVisualizer.browser c) = [] ->
  (LiveAudioVisualizer.isListening c = true -> LiveAudioVisualizer.analyserRef c <> None) ->
  LiveAudioVisualizer.animation_effect p snap c = Ok (tt, c', t) ->
  frames_invariant c'.
Proof.
  intros Hp Ha. unfold LiveAudioVisualizer.animation_effect.
  destruct (LiveAudioVisualizer.isListening c) eqn:El.
  - destruct (LiveAudioVisualizer.analyserRef c) as [an|] eqn:Ean;
      [|exfalso; apply Ha; reflexivity].
    apply animate_frames; [exact Hp | exact El | congruence].
  - unfold whenSome. destruct (LiveAudioVisualizer.animationFrameRef c) as [id|];
      intros H; inversion H; subst; clear H;
      (apply frames_invariant_idle; [cbn; rewrite ?Hp; reflexivity | cbn; congruence]).
Qed.

Lemma cleanup_then_effect (p : LiveAudioVisualizer.Props) (snap : Snapshot)
    (c c' : LiveAudioVisualizer.World) (t : list Action) :
  LiveAudioVisualizer.one_pending c ->
  (LiveAudioVisualizer.isListening c = true -> LiveAudioVisualizer.analyserRef c <> None) ->
  LiveAudioVisualizer.and_then (LiveAudioVisualizer.effect_cleanup c)
    (LiveAudioVisualizer.animation_effect p snap) = Ok (tt, c', t) ->
  frames_invariant c' /\ same_audio c c'.
Proof.
  intros Hone Ha H. apply and_then_Ok in H. destruct H as [c1 [t1 [H [-> _]]]].
  destruct (whenSome_cancel_pending c Hone) as [Hp [Hl [_ [_ [Han _]]]]].
  split.
  - eapply effect_frames; [exact Hp | | exact H]. rewrite Hl, Han. exact Ha.
  - eapply same_audio_trans; [apply effect_cleanup_same|].
    eapply animation_effect_same. exact H.
Qed.

Lemma commit_invariant (p : LiveAudioVisualizer.Props) (old : bool) (snap : Snapshot)
    (x : unit * LiveAudioVisualizer.World * list Action)
    (c' : LiveAudioVisualizer.World) (t : list Action) :
  LiveAudioVisualizer.one_pending (state_of x) ->
  (LiveAudioVisualizer.isListening (state_of x) = true ->
   LiveAudioVisualizer.analyserRef (state_of x) <> None) ->
  (old = LiveAudioVisualizer.isListening (state_of x) -> frames_invariant (state_of x)) ->
  LiveAudioVisualizer.commit p old snap x = Ok (tt, c', t) ->
  frames_invariant c' /\ same_audio (state_of x) c'.
Proof.
  intros Hone Ha Hsame. unfold LiveAudioVisualizer.commit.
  destruct (Bool.eqb old (LiveAudioVisualizer.isListening (state_of x))) eqn:E.
  - intros H. apply Ok_state in H. destruct H as [-> _].
    split; [apply Hsame, eqb_prop; exact E | apply same_audio_refl].
  - intros H. apply and_then_Ok in H. destruct H as [c1 [t1 [H [-> _]]]].
    eapply cleanup_then_effect; eassumption.
Qed.

Lemma within_Ok (w : Listener.World) (n : nat)
    (x : result (unit * LiveAudioVisualizer.World * list Action))
    (w' : Listener.World) (t : list Action) :
  Listener.within w n x = Ok (tt, w', t) ->
  exists c', x = Ok (tt, c', t)
             /\ w' = {| Listener.component := c'; Listener.mounted := Listener.mounted w;
                        Listener.requests := n |}.
Proof.
  unfold Listener.within. destruct x as [[[[] c'] t']| |]; cbn; try discriminate.
  intros H. inversion H; subst. eauto.
Qed.

Lemma one_pending_granted (c : LiveAudioVisualizer.World) :
  LiveAudioVisualizer.one_pending c -> LiveAudioVisualizer.one_pending (granted c).
Proof.
  intros [Hp|[id [Hp [Hr _]]]]; [left; exact Hp|].
  right. exists id. auto.
Qed.

Lemma frames_invariant_granted (c : LiveAudioVisualizer.World) :
  LiveAudioVisualizer.isListening c = true ->
  frames_invariant c -> frames_invariant (granted c).
Proof.
  intros El [Hone [Hc Hs]]. split; [apply one_pending_granted; exact Hone|].
  split; [exact Hc|]. intros _. apply Hs. exact El.
Qed.

Lemma one_pending_idle (c : LiveAudioVisualizer.World) :
  LiveAudioVisualizer.one_pending c ->
  LiveAudioVisualizer.isListening c = false ->
  pending (LiveAudioVisualizer.browser c) = [].
Proof. intros [Hp|[id [_ [_ Hl]]]] El; [exact Hp | congruence]. Qed.

Lemma Ok_unchanged {S} (w w' : S) (t : list Action) :
  Ok (tt, w, @nil Action) = Ok (tt, w', t) -> w' = w.
Proof. intros H. injection H as -> _. reflexivity. Qed.

Lemma audio_analyser (m : bool) (c : LiveAudioVisualizer.World) :
  audio_invariant m c ->
  LiveAudioVisualizer.isListening c = true ->
  LiveAudioVisualizer.analyserRef c <> None.
Proof.
  intros Ha El. destruct (audio_listening_analyser m c Ha El)
    as [_ [stream [ctx [_ [_ [H _]]]]]]. congruence.
Qed.

(** *** The invariant *)

Lemma click_preserves_invariant (p : LiveAudioVisualizer.Props) (w w' : Listener.World)
    (snap : Snapshot) (t : list Action) :
  listener_invariant w ->
  Listener.step p w (Listener.Click snap) = Ok (tt, w', t) ->
  listener_invariant w'.
Proof.
  intros [Ha Hf] Hstep. cbn [Listener.step] in Hstep.
  destruct (Listener.mounted w) eqn:Hm;
    [|apply Ok_unchanged in Hstep; subst w'; split; [rewrite Hm|]; assumption].
  destruct (LiveAudioVisualizer.isListening (Listener.component w)) eqn:El.
  - apply within_Ok in Hstep. destruct Hstep as [c' [Hc ->]].
    assert (Ha1 : audio_invariant true (stopped_listening (Listener.component w)))
      by (apply audio_invariant_stopped; exact Ha).
    destruct (stopListening_state (Listener.component w) (proj1 Hf)) as [Hp _].
    apply commit_invariant in Hc.
    + destruct Hc as [Hf' Hs]. rewrite stopListening_stopped in Hs.
      split; [|exact Hf']. cbn [Listener.mounted Listener.component]. rewrite Hm.
      eapply audio_invariant_same; eassumption.
    + left. exact Hp.
    + rewrite stopListening_stopped. discriminate.
    + rewrite stopListening_stopped. discriminate.
  - apply within_Ok in Hstep. destruct Hstep as [c' [Hc ->]].
    apply commit_invariant in Hc.
    + destruct Hc as [Hf' Hs]. split; [|exact Hf'].
      cbn [Listener.mounted Listener.component]. rewrite Hm.
      eapply audio_invariant_same; [exact Hs|].
      apply audio_invariant_setError. exact Ha.
    + apply (frames_invariant_setError None). exact Hf.
    + intros El'. exfalso. destruct (Listener.component w). cbn in *. congruence.
    + intros _. apply (frames_invariant_setError None). exact Hf.
Qed.

Lemma settle_preserves_invariant (p : LiveAudioVisualizer.Props) (w w' : Listener.World)
    (r : MediaResult) (snap : Snapshot) (t : list Action) :
  listener_invariant w ->
  Listener.step p w (Listener.Settle r snap) = Ok (tt, w', t) ->
  listener_invariant w'.
Proof.
  intros [Ha Hf] Hstep. cbn [Listener.step] in Hstep.
  destruct (Listener.requests w) as [|n];
    [apply Ok_unchanged in Hstep; subst w'; split; assumption|].
  destruct (Listener.mounted w) eqn:Hm.
  - apply within_Ok in Hstep. destruct Hstep as [c' [Hc ->]].
    cbn [listener_invariant Listener.mounted Listener.component]. unfold listener_invariant.
    cbn [Listener.mounted Listener.component]. rewrite Hm.
    destruct r as [|err].
    + apply commit_invariant in Hc; rewrite ?settled_granted in *.
      * destruct Hc as [Hf' Hs]. split; [|exact Hf'].
        eapply audio_invariant_same; [exact Hs|].
        apply audio_invariant_granted. exact Ha.
      * apply one_pending_granted. apply Hf.
      * intros _. discriminate.
      * intros El. apply frames_invariant_granted; [exact El | exact Hf].
    + assert (E : state_of (Listener.settled (Rejected err) (Listener.component w))
                  = state_of (LiveAudioVisualizer.setError
                                (Some "Failed to access microphone. Please check permissions.")
                                (Listener.component w)))
        by reflexivity.
      apply commit_invariant in Hc; rewrite ?E in *.
      * destruct Hc as [Hf' Hs]. split; [|exact Hf'].
        eapply audio_invariant_same; [exact Hs|].
        apply audio_invariant_setError. exact Ha.
      * apply frames_invariant_setError. exact Hf.
      * intros El. eapply audio_analyser; [|exact El].
        apply audio_invariant_setError. exact Ha.
      * intros _. apply frames_invariant_setError. exact Hf.
  - apply Ok_state in Hstep. destruct Hstep as [-> _].
    unfold listener_invariant. cbn [Listener.mounted Listener.component fst snd state_of].
    assert (El : LiveAudioVisualizer.isListening (Listener.component w) = false)
      by apply Ha.
    pose proof (one_pending_idle _ (proj1 Hf) El) as Hp.
    destruct r as [|err].
    + rewrite settled_granted. split; [apply audio_invariant_granted_unmounted; exact Ha|].
      apply frames_invariant_idle; [exact Hp|]. cbn. congruence.
    + assert (E : Listener.dropped_updates (Listener.component w)
                    (state_of (Listener.settled (Rejected err) (Listener.component w)))
                  = Listener.component w)
        by (destruct (Listener.component w); reflexivity).
      rewrite E. split; assumption.
Qed.

Lemma frame_preserves_invariant (p : LiveAudioVisualizer.Props) (w w' : Listener.World)
    (id : Handle) (snap : Snapshot) (t : list Action) :
  listener_invariant w ->
  Listener.step p w (Listener.Frame id snap) = Ok (tt, w', t) ->
  listener_invariant w'.
Proof.
  intros [Ha Hf] Hstep. cbn [Listener.step] in Hstep.
  unfold LiveAudioVisualizer.captured_by in Hstep.
  destruct (proj1 Hf) as [Hp|[id0 [Hp [Hr El]]]]; rewrite Hp in Hstep; cbn in Hstep.
  - apply Ok_unchanged in Hstep. subst w'. split; assumption.
  - destruct (Pos.eqb id id0) eqn:Ei; cbn in Hstep;
      [|apply Ok_unchanged in Hstep; subst w'; split; assumption].
    apply within_Ok in Hstep. destruct Hstep as [c' [Hc ->]].
    apply Pos.eqb_eq in Ei. subst id0.
    unfold listener_invariant. cbn [Listener.mounted Listener.component].
    split.
    + eapply audio_invariant_same; [eapply animate_same; exact Hc|].
      eapply audio_invariant_same; [apply cancel_frame_same | exact Ha].
    + eapply animate_frames; [| | |exact Hc].
      * cbn. rewrite Hp. cbn. rewrite Pos.eqb_refl. reflexivity.
      * exact El.
      * cbn. eapply audio_analyser; eassumption.
Qed.

Lemma rerender_preserves_invariant (p : LiveAudioVisualizer.Props) (w w' : Listener.World)
    (snap : Snapshot) (t : list Action) :
  listener_invariant w ->
  Listener.step p w (Listener.Rerender snap) = Ok (tt, w', t) ->
  listener_invariant w'.
Proof.
  intros [Ha Hf] Hstep. cbn [Listener.step] in Hstep.
  destruct (Listener.mounted w) eqn:Hm;
    [|apply Ok_unchanged in Hstep; subst w'; split; [rewrite Hm|]; assumption].
  apply within_Ok in Hstep. destruct Hstep as [c' [Hc ->]].
  apply cleanup_then_effect in Hc;
    [|apply Hf | intros El; eapply audio_analyser; eassumption].
  destruct Hc as [Hf' Hs]. split; [|exact Hf'].
  cbn [Listener.mounted Listener.component]. rewrite Hm.
  eapply audio_invariant_same; eassumption.
Qed.

Lemma unmount_state (c : LiveAudioVisualizer.World) :
  state_of ((LiveAudioVisualizer.effect_cleanup ;; LiveAudioVisualizer.stopListening ;;
             act (Clear CanvasRef) (LiveAudioVisualizer.with_canvasRef false)) c)
  = LiveAudioVisualizer.with_canvasRef false
      (stopped_listening (state_of (LiveAudioVisualizer.effect_cleanup c))).
Proof. rewrite !state_of_seq, stopListening_stopped. reflexivity. Qed.

Lemma unmount_preserves_invariant (p : LiveAudioVisualizer.Props) (w w' : Listener.World)
    (t : list Action) :
  listener_invariant w ->
  Listener.step p w Listener.Unmount = Ok (tt, w', t) ->
  listener_invariant w'.
Proof.
  intros [Ha Hf] Hstep. cbn [Listener.step] in Hstep.
  destruct (Listener.mounted w) eqn:Hm;
    [|apply Ok_unchanged in Hstep; subst w'; split; [rewrite Hm|]; assumption].
  apply within_Ok in Hstep. destruct Hstep as [c' [Hc ->]].
  apply Ok_state in Hc. destruct Hc as [-> _]. rewrite unmount_state.
  unfold listener_invariant. cbn [Listener.mounted Listener.component].
  split.
  - apply (audio_invariant_unmounted true).
    eapply audio_invariant_same; [apply effect_cleanup_same | exact Ha].
  - destruct (whenSome_cancel_pending _ (proj1 Hf)) as [Hp _].
    assert (Hp' : pending (LiveAudioVisualizer.browser
                    (stopped_listening
                       (state_of (LiveAudioVisualizer.effect_cleanup (Listener.component w)))))
                  = []).
    { cbn. destruct (LiveAudioVisualizer.animationFrameRef _); rewrite Hp; reflexivity. }
    apply frames_invariant_idle; [exact Hp' | discriminate].
Qed.

Lemma step_preserves_listener_invariant (p : LiveAudioVisualizer.Props)
    (w w' : Listener.World) (e : Listener.Event) (t : list Action) :
  listener_invariant w ->
  Listener.step p w e = Ok (tt, w', t) ->
  listener_invariant w'.
Proof.
  intros Hinv Hstep. destruct e.
  - eapply click_preserves_invariant; eassumption.
  - eapply settle_preserves_invariant; eassumption.
  - eapply frame_preserves_invariant; eassumption.
  - eapply rerender_preserves_invariant; eassumption.
  - eapply unmount_preserves_invariant; eassumption.
Qed.

Lemma reachable_listener_invariant (w : Listener.World) :
  Listener.reachable w -> listener_invariant w.
Proof.
  induction 1 as [context2d|p w e w' t _ IH Hstep].
  - split.
    + split; [cbn; auto|]. split; [split; constructor | reflexivity].
    + apply frames_invariant_idle; [reflexivity | discriminate].
  - eapply step_preserves_listener_invariant; eassumption.
Qed.

(** *** Streams that stay live *)

Lemma rejected_unmounted (err : MediaError) (c : LiveAudioVisualizer.World) :
  Listener.dropped_updates c (state_of (Listener.settled (Rejected err) c)) = c.
Proof. destruct c; reflexivity. Qed.

Lemma leaked_same (w : Listener.World) (c' : LiveAudioVisualizer.World) (n : nat)
    (stream : Handle) :
  same_audio (Listener.component w) c' ->
  leaked w stream ->
  leaked {| Listener.component := c'; Listener.mounted := Listener.mounted w;
            Listener.requests := n |} stream.
Proof.
  unfold same_audio, leaked. cbn [Listener.component Listener.mounted].
  intros [_ [_ [_ [Hs [_ [_ [_ [Hca _]]]]]]]] [Hin Hor].
  rewrite Hs, Hca. auto.
Qed.

Lemma stopped_keeps_other_streams (c : LiveAudioVisualizer.World) (stream : Handle) :
  In stream (capturing (LiveAudioVisualizer.browser c)) ->
  LiveAudioVisualizer.streamRef c <> Some stream ->
  In stream (capturing (LiveAudioVisualizer.browser (stopped_listening c))).
Proof.
  intros Hin Hne. cbn.
  destruct (LiveAudioVisualizer.streamRef c) as [s0|]; [|exact Hin].
  apply in_remove_handle_other; [congruence | exact Hin].
Qed.

Lemma leaked_step (p : LiveAudioVisualizer.Props) (w w' : Listener.World)
    (e : Listener.Event) (t : list Action) (stream : Handle) :
  listener_invariant w ->
  leaked w stream ->
  Listener.step p w e = Ok (tt, w', t) ->
  leaked w' stream.
Proof.
  intros [[_ [[Hb _] _]] Hf] Hleak Hstep.
  assert (Hlt : (stream < fresh (LiveAudioVisualizer.browser (Listener.component w)))%positive).
  { rewrite Forall_forall in Hb. apply Hb. apply Hleak. }
  destruct e as [snap|r snap|id snap|snap|]; cbn [Listener.step] in Hstep.
  - (* Click *)
    destruct (Listener.mounted w) eqn:Hm;
      [|apply Ok_unchanged in Hstep; subst w'; exact Hleak].
    destruct Hleak as [Hin [Hm'|Hne]]; [congruence|].
    destruct (LiveAudioVisualizer.isListening (Listener.component w)) eqn:El;
      apply within_Ok in Hstep; destruct Hstep as [c' [Hc ->]].
    + assert (Hs : same_audio (stopped_listening (Listener.component w)) c').
      { unfold LiveAudioVisualizer.commit in Hc. rewrite stopListening_stopped in Hc.
        cbn [stopped_listening LiveAudioVisualizer.isListening Bool.eqb] in Hc.
        apply and_then_Ok in Hc. destruct Hc as [c1 [t1 [Hc [-> _]]]].
        apply and_then_Ok in Hc. destruct Hc as [c2 [t2 [Hc [-> _]]]].
        rewrite stopListening_stopped in Hc.
        eapply same_audio_trans; [apply effect_cleanup_same|].
        eapply animation_effect_same. exact Hc. }
      destruct Hs as [_ [_ [_ [Hs [_ [_ [_ [Hca _]]]]]]]].
      split; cbn [Listener.component Listener.mounted].
      * rewrite Hca. apply stopped_keeps_other_streams; assumption.
      * right. rewrite Hs. discriminate.
    + unfold LiveAudioVisualizer.commit in Hc.
      assert (El' : LiveAudioVisualizer.isListening
                      (state_of (Listener.request (Listener.component w))) = false)
        by (destruct (Listener.component w); exact El).
      rewrite El' in Hc. cbn [Bool.eqb] in Hc. apply Ok_state in Hc. destruct Hc as [-> _].
      split; cbn [Listener.component Listener.mounted];
        [|right]; destruct (Listener.component w); assumption.
  - (* Settle *)
    destruct (Listener.requests w) as [|n];
      [apply Ok_unchanged in Hstep; subst w'; exact Hleak|].
    destruct (Listener.mounted w) eqn:Hm.
    + destruct Hleak as [Hin [Hm'|Hne]]; [congruence|].
      apply within_Ok in Hstep. destruct Hstep as [c' [Hc ->]].
      assert (Hs : same_audio (state_of (Listener.settled r (Listener.component w))) c').
      { unfold LiveAudioVisualizer.commit in Hc.
        destruct (Bool.eqb _ _).
        - apply Ok_state in Hc. destruct Hc as [-> _]. apply same_audio_refl.
        - apply and_then_Ok in Hc. destruct Hc as [c1 [t1 [Hc [-> _]]]].
          apply and_then_Ok in Hc. destruct Hc as [c2 [t2 [Hc [-> _]]]].
          eapply same_audio_trans; [apply effect_cleanup_same|].
          eapply animation_effect_same. exact Hc. }
      destruct Hs as [_ [_ [_ [Hs [_ [_ [_ [Hca _]]]]]]]].
      split; cbn [Listener.component Listener.mounted]; [rewrite Hca | right; rewrite Hs];
        destruct r as [|err]; rewrite ?settled_granted;
        try (destruct (Listener.component w); assumption).
      * right. exact Hin.
      * cbn. intros E. injection E as E. lia.
    + apply Ok_state in Hstep. destruct Hstep as [-> _].
      split; [|left; reflexivity]. cbn [state_of fst snd Listener.component].
      destruct r as [|err]; [rewrite settled_granted; right; apply Hleak|].
      rewrite rejected_unmounted. apply Hleak.
  - (* Frame *)
    destruct (LiveAudioVisualizer.captured_by id (Listener.component w)) as [captured|];
      [|apply Ok_unchanged in Hstep; subst w'; exact Hleak].
    apply within_Ok in Hstep. destruct Hstep as [c' [Hc ->]].
    apply leaked_same; [|exact Hleak].
    eapply same_audio_trans; [apply cancel_frame_same | eapply animate_same; exact Hc].
  - (* Rerender *)
    destruct (Listener.mounted w) eqn:Hm;
      [|apply Ok_unchanged in Hstep; subst w'; exact Hleak].
    apply within_Ok in Hstep. destruct Hstep as [c' [Hc ->]].
    apply leaked_same; [|exact Hleak].
    apply and_then_Ok in Hc. destruct Hc as [c1 [t1 [Hc [-> _]]]].
    eapply same_audio_trans; [apply effect_cleanup_same|].
    eapply animation_effect_same. exact Hc.
  - (* Unmount *)
    destruct (Listener.mounted w) eqn:Hm;
      [|apply Ok_unchanged in Hstep; subst w'; exact Hleak].
    destruct Hleak as [Hin [Hm'|Hne]]; [congruence|].
    apply within_Ok in Hstep. destruct Hstep as [c' [Hc ->]].
    apply Ok_state in Hc. destruct Hc as [-> _]. rewrite unmount_state.
    split; [|left; reflexivity]. cbn [Listener.component].
    destruct (effect_cleanup_same (Listener.component w))
      as [_ [_ [_ [Hs [_ [_ [_ [Hca _]]]]]]]].
    apply (stopped_keeps_other_streams
             (state_of (LiveAudioVisualizer.effect_cleanup (Listener.component w))));
      [rewrite Hca | rewrite Hs]; assumption.
Qed.

Lemma leaked_run (es : list (LiveAudioVisualizer.Props * Listener.Event)) :
  forall w w' stream,
    Listener.reachable w -> leaked w stream -> Listener.run es w = Ok w' ->
    leaked w' stream.
Proof.
  induction es as [|[p e] rest IH]; intros w w' stream Hr Hl Hrun;
    cbn [Listener.run] in Hrun.
  - injection Hrun as <-. exact Hl.
  - destruct (Listener.step p w e) as [[[[] w1] t1]| |] eqn:E; cbn [bind] in Hrun;
      try discriminate.
    apply (IH w1); [| |exact Hrun].
    + eapply Listener.reachable_step; eassumption.
    + eapply leaked_step; [apply reachable_listener_invariant| |]; eassumption.
Qed.

(** *** States used as examples *)

Lemma requesting_reachable : Listener.reachable requesting.
Proof.
  eapply (Listener.reachable_step live_props (Listener.initial true) (Listener.Click [])).
  - apply Listener.reachable_initial.
  - vm_compute. reflexivity.
Defined.

Lemma listening_reachable : Listener.reachable listening.
Proof.
  eapply (Listener.reachable_step live_props requesting
            (Listener.Settle Granted (repeat 0%Z 1024))).
  - apply requesting_reachable.
  - vm_compute. reflexivity.
Defined.

Lemma overlapping_reachable : Listener.reachable overlapping.
Proof.
  eapply (Listener.reachable_step live_props
            {| Listener.component := LiveAudioVisualizer.initial;
               Listener.mounted := true; Listener.requests := 2 |}
            (Listener.Settle Granted (repeat 0%Z 1024))).
  - eapply (Listener.reachable_step live_props requesting (Listener.Click [])).
    + apply requesting_reachable.
    + vm_compute. reflexivity.
  - vm_compute. reflexivity.
Defined.

Lemma abandoned_reachable : Listener.reachable abandoned.
Proof.
  eapply (Listener.reachable_step live_props
            {| Listener.component :=
                 LiveAudioVisualizer.with_canvasRef false LiveAudioVisualizer.initial;
               Listener.mounted := false; Listener.requests := 1 |}
            (Listener.Settle Granted [])).
  - eapply (Listener.reachable_step live_props requesting Listener.Unmount).
    + apply requesting_reachable.
    + vm_compute. reflexivity.
  - vm_compute. reflexivity.
Defined.

(** A call of [animate] that passes the guard and whose draw succeeds
    schedules one callback. *)
Lemma animate_runs (p : LiveAudioVisualizer.Props) (snap : Snapshot)
    (w : LiveAudioVisualizer.World) (an : Node) (calls : list CanvasCall) :
  LiveAudioVisualizer.analyserRef w = Some an ->
  LiveAudioVisualizer.canvasRef w = true ->
  draw p snap = Ok calls ->
  exists w',
    LiveAudioVisualizer.animate p true snap w
    = Ok (tt, w', [ReadSnapshot (LiveAudioVisualizer.visualizationType p); Draw calls;
                   RequestAnimationFrame (fresh (LiveAudioVisualizer.browser w));
                   Assign AnimationFrameRef])
    /\ pending (LiveAudioVisualizer.browser w')
       = pending (LiveAudioVisualizer.browser w) ++ [(fresh (LiveAudioVisualizer.browser w), true)]
    /\ LiveAudioVisualizer.animationFrameRef w' = Some (fresh (LiveAudioVisualizer.browser w))
    /\ LiveAudioVisualizer.isListening w' = LiveAudioVisualizer.isListening w.
Proof.
  intros Ha Hc Hd. unfold LiveAudioVisualizer.animate. rewrite Ha, Hc. cbn [negb orb].
  unfold draw in Hd. rewrite Hd. cbn [bind]. eexists. split; [reflexivity|].
  repeat split.
Qed.

(** *** What holds in every interleaving *)

(** LiveAudioVisualizer holds what its refs name.  In every state the
    mounted component can reach (clicks, settlements of the microphone
    request, frames, re-renders, in any order) at most one frame callback is
    scheduled; while the component is listening its four refs are set, the
    stream they name is live, the context open and the source connected to the
    analyser; while it is not listening the refs are clear and no callback is
    scheduled. *)
Theorem listening_holds_named_resources (w : Listener.World) :
  Listener.reachable w ->
  Listener.mounted w = true ->
  let c := Listener.component w in
  let b := LiveAudioVisualizer.browser c in
  LiveAudioVisualizer.one_pending c
  /\ (LiveAudioVisualizer.isListening c = true ->
      exists stream ctx,
        LiveAudioVisualizer.streamRef c = Some stream
        /\ LiveAudioVisualizer.audioContextRef c = Some ctx
        /\ LiveAudioVisualizer.analyserRef c = Some (Analyser ctx)
        /\ LiveAudioVisualizer.sourceRef c = Some (MediaStreamSource ctx stream)
        /\ In stream (capturing b)
        /\ In ctx (contexts b)
        /\ In (MediaStreamSource ctx stream, Analyser ctx) (edges b))
  /\ (LiveAudioVisualizer.isListening c = false ->
      LiveAudioVisualizer.idle c = true /\ pending b = []).
Proof.
  intros Hr Hm c b. subst c b.
  destruct (reachable_listener_invariant w Hr) as [[Hc [_ Hl]] [Hone _]].
  rewrite Hm in Hl. unfold refs_coherent in Hc.
  split; [exact Hone|]. split; intros El; rewrite El in Hl.
  - destruct (LiveAudioVisualizer.streamRef (Listener.component w)) as [stream|];
      [|discriminate].
    destruct Hc as [ctx [H1 [H2 [H3 [H4 [H5 [H6 _]]]]]]].
    exists stream, ctx. auto 10.
  - destruct (LiveAudioVisualizer.streamRef (Listener.component w)) as [stream|] eqn:Es;
      [discriminate|].
    destruct Hc as [H1 [H2 H3]]. split.
    + unfold LiveAudioVisualizer.idle. rewrite El, Es, H1, H2, H3. reflexivity.
    + apply one_pending_idle; assumption.
Qed.

Lemma listening_holds_named_resources_witness :
  exists stream ctx,
    LiveAudioVisualizer.streamRef (Listener.component listening) = Some stream
    /\ In stream (capturing (LiveAudioVisualizer.browser (Listener.component listening)))
    /\ In ctx (contexts (LiveAudioVisualizer.browser (Listener.component listening))).
Proof.
  destruct (listening_holds_named_resources listening listening_reachable eq_refl)
    as [_ [H _]].
  destruct (H eq_refl) as [stream [ctx [H1 [_ [_ [_ [H5 [H6 _]]]]]]]].
  exists stream, ctx. auto.
Defined.

(** The render loop keeps itself going exactly when there is a canvas to
    draw on.  While LiveAudioVisualizer is listening with its canvas and the
    canvas context, exactly one frame callback is scheduled, and when the
    browser runs it with a snapshot the draw accepts, the frame is drawn and
    exactly one successor is scheduled.  While it is listening without them,
    no callback is scheduled at all. *)
Theorem frame_keeps_loop_running (w : Listener.World) :
  Listener.reachable w ->
  LiveAudioVisualizer.isListening (Listener.component w) = true ->
  let c := Listener.component w in
  let b := LiveAudioVisualizer.browser c in
  (LiveAudioVisualizer.canvasRef c = false -> pending b = [])
  /\ (LiveAudioVisualizer.canvasRef c = true ->
      forall p snap calls,
        draw p snap = Ok calls ->
        exists id w',
          pending b = [(id, true)]
          /\ Listener.step p w (Listener.Frame id snap)
             = Ok (tt, w', [ReadSnapshot (LiveAudioVisualizer.visualizationType p);
                            Draw calls;
                            RequestAnimationFrame (fresh b);
                            Assign AnimationFrameRef])
          /\ pending (LiveAudioVisualizer.browser (Listener.component w'))
             = [(fresh b, true)]
          /\ LiveAudioVisualizer.isListening (Listener.component w') = true).
Proof.
  intros Hr El c b. subst c b.
  destruct (reachable_listener_invariant w Hr) as [Ha [_ [Hnc Hf]]].
  split; [exact Hnc|]. intros Hc p snap calls Hd.
  destruct (Hf El Hc) as [id [Hp _]].
  destruct (audio_listening_analyser _ _ Ha El) as [_ [stream [ctx [_ [_ [Han _]]]]]].
  destruct (animate_runs p snap
              (LiveAudioVisualizer.on_browser (cancel_frame id) (Listener.component w))
              (Analyser ctx) calls Han Hc Hd) as [c' [Hstep [Hpe [_ Hl]]]].
  exists id. eexists. split; [exact Hp|]. split; [|split].
  - cbn [Listener.step]. unfold LiveAudioVisualizer.captured_by.
    rewrite Hp. cbn [find fst]. rewrite Pos.eqb_refl. cbn [option_map snd].
    rewrite Hstep. reflexivity.
  - cbn [Listener.component state_of fst snd]. rewrite Hpe. cbn. rewrite Hp. cbn.
    rewrite Pos.eqb_refl. reflexivity.
  - cbn [Listener.component state_of fst snd]. rewrite Hl. exact El.
Qed.

Lemma frame_keeps_loop_running_witness :
  exists id w',
    pending (LiveAudioVisualizer.browser (Listener.component listening)) = [(id, true)]
    /\ pending (LiveAudioVisualizer.browser (Listener.component w')) = [(4%positive, true)]
    /\ LiveAudioVisualizer.isListening (Listener.component w') = true.
Proof.
  destruct (frame_keeps_loop_running listening listening_reachable eq_refl) as [_ H].
  destruct (H eq_refl live_props (repeat 255%Z 1024)
              (background live_defaults
               ++ flat_map (draw_bar live_defaults)
                    (match spectrum_bars live_defaults (repeat 255%Z 1024) with
                     | Ok bars => bars
                     | _ => []
                     end)))
    as [id [w' [H1 [_ [H3 H4]]]]].
  - vm_compute. reflexivity.
  - exists id, w'. split; [exact H1 | split; [exact H3 | exact H4]].
Defined.

(** Unmounting releases what the refs name, and only that.  The scheduled
    frame callback is cancelled, the stream the component's ref names is
    stopped and the context its ref names is closed, all refs are cleared; the
    unmounted component ignores clicks, frames, re-renders and a second
    unmount.  A microphone request that has not settled stays pending. *)
Theorem unmount_releases_named_resources (p : LiveAudioVisualizer.Props)
    (w : Listener.World) :
  Listener.reachable w ->
  Listener.mounted w = true ->
  exists w' t,
    Listener.step p w Listener.Unmount = Ok (tt, w', t)
    /\ Listener.mounted w' = false
    /\ Listener.requests w' = Listener.requests w
    /\ LiveAudioVisualizer.idle (Listener.component w') = true
    /\ pending (LiveAudioVisualizer.browser (Listener.component w')) = []
    /\ (forall stream,
          LiveAudioVisualizer.streamRef (Listener.component w) = Some stream ->
          ~ In stream (capturing (LiveAudioVisualizer.browser (Listener.component w'))))
    /\ (forall ctx,
          LiveAudioVisualizer.audioContextRef (Listener.component w) = Some ctx ->
          ~ In ctx (contexts (LiveAudioVisualizer.browser (Listener.component w'))))
    /\ (forall p' id snap,
          Listener.step p' w' (Listener.Click snap) = Ok (tt, w', [])
          /\ Listener.step p' w' (Listener.Frame id snap) = Ok (tt, w', [])
          /\ Listener.step p' w' (Listener.Rerender snap) = Ok (tt, w', [])
          /\ Listener.step p' w' Listener.Unmount = Ok (tt, w', [])).
Proof.
  intros Hr Hm.
  destruct (reachable_listener_invariant w Hr) as [_ [Hone _]].
  destruct (whenSome_cancel_pending _ Hone) as [Hp _].
  destruct (effect_cleanup_same (Listener.component w))
    as [_ [_ [_ [Hs [_ [Hac [_ [Hca [Hco _]]]]]]]]].
  set (c1 := state_of (LiveAudioVisualizer.effect_cleanup (Listener.component w))) in *.
  assert (Hp' : pending (LiveAudioVisualizer.browser (stopped_listening c1)) = []).
  { cbn. destruct (LiveAudioVisualizer.animationFrameRef c1); rewrite Hp; reflexivity. }
  eexists. eexists. split.
  { cbn [Listener.step]. rewrite Hm. unfold Listener.within. cbn [bind]. reflexivity. }
  cbn [Listener.mounted Listener.requests Listener.component].
  rewrite unmount_state. fold c1.
  split; [reflexivity|]. split; [reflexivity|]. split; [reflexivity|].
  split; [exact Hp'|]. split; [|split].
  - intros stream Hst. cbn. rewrite Hs, Hst. apply not_in_remove_handle.
  - intros ctx Hctx. cbn. rewrite Hac, Hctx. apply not_in_remove_handle.
  - intros p' id snap. cbn [Listener.step Listener.mounted Listener.component].
    repeat split. unfold LiveAudioVisualizer.captured_by.
    cbn [LiveAudioVisualizer.with_canvasRef LiveAudioVisualizer.browser].
    rewrite Hp'. reflexivity.
Qed.

Lemma unmount_releases_named_resources_witness :
  exists w' t,
    Listener.step live_props listening Listener.Unmount = Ok (tt, w', t)
    /\ capturing (LiveAudioVisualizer.browser (Listener.component w')) = [].
Proof.
  destruct (unmount_releases_named_resources live_props listening
              listening_reachable eq_refl) as [w' [t [H1 _]]].
  exists w', t. split; [exact H1|].
  vm_compute in H1. injection H1 as <- _. reflexivity.
Defined.

(** A live stream that no handler will stop stays live: once the component
    is unmounted, or once its stream ref names another stream or none, no
    sequence of clicks, settlements, frames, re-renders and unmounts stops the
    stream. *)
Theorem leaked_stream_stays_live (w w' : Listener.World) (stream : Handle)
    (es : list (LiveAudioVisualizer.Props * Listener.Event)) :
  Listener.reachable w ->
  leaked w stream ->
  Listener.run es w = Ok w' ->
  leaked w' stream.
Proof.
  revert w. induction es as [|[p e] rest IH]; intros w Hr Hl Hrun;
    cbn [Listener.run] in Hrun.
  - injection Hrun as <-. exact Hl.
  - destruct (Listener.step p w e) as [[[[] w1] t1]| |] eqn:E; cbn [bind] in Hrun;
      try discriminate.
    apply (IH w1); [| |exact Hrun].
    + eapply Listener.reachable_step; eassumption.
    + eapply leaked_step; [apply reachable_listener_invariant| |]; eassumption.
Qed.

Lemma leaked_stream_stays_live_witness :
  In 1%positive (capturing (LiveAudioVisualizer.browser (Listener.component abandoned))).
Proof.
  apply (leaked_stream_stays_live abandoned abandoned 1%positive
           [(live_props, Listener.Click []);
            (live_props, Listener.Settle Granted []);
            (live_props, Listener.Unmount)]).
  - apply abandoned_reachable.
  - split; [left; reflexivity | left; reflexivity].
  - vm_compute. reflexivity.
Defined.

(** A microphone request that outlives the component leaks the microphone.
    When the component is unmounted while a request is pending and the
    request is then granted, the continuation of [startListening] runs on the
    unmounted component: it takes the stream, opens a context and connects
    the source through the analyser to the destination; the component stays
    unmounted and the stream stays live whatever happens next. *)
Theorem request_outlives_unmount (p : LiveAudioVisualizer.Props) (w : Listener.World)
    (n : nat) (snap : Snapshot) :
  Listener.reachable w ->
  Listener.mounted w = true ->
  Listener.requests w = S n ->
  exists w1 t1 w2 t2 stream ctx,
    Listener.step p w Listener.Unmount = Ok (tt, w1, t1)
    /\ Listener.step p w1 (Listener.Settle Granted snap) = Ok (tt, w2, t2)
    /\ Listener.mounted w2 = false
    /\ ~ In stream (capturing (LiveAudioVisualizer.browser (Listener.component w1)))
    /\ In stream (capturing (LiveAudioVisualizer.browser (Listener.component w2)))
    /\ In ctx (contexts (LiveAudioVisualizer.browser (Listener.component w2)))
    /\ In (MediaStreamSource ctx stream, Analyser ctx)
          (edges (LiveAudioVisualizer.browser (Listener.component w2)))
    /\ In (Analyser ctx, Destination ctx)
          (edges (LiveAudioVisualizer.browser (Listener.component w2)))
    /\ (forall es w3,
          Listener.run es w2 = Ok w3 ->
          In stream (capturing (LiveAudioVisualizer.browser (Listener.component w3)))).
Proof.
  intros Hr Hm Hn.
  destruct (Listener.step p w Listener.Unmount) as [[[[] w1] t1]| |] eqn:E1;
    try (cbn [Listener.step] in E1; rewrite Hm in E1; discriminate).
  assert (Hr1 : Listener.reachable w1) by (eapply Listener.reachable_step; eassumption).
  assert (Hw1 : Listener.mounted w1 = false /\ Listener.requests w1 = S n).
  { cbn [Listener.step] in E1. rewrite Hm in E1. apply within_Ok in E1.
    destruct E1 as [c' [_ ->]]. split; [reflexivity | exact Hn]. }
  destruct Hw1 as [Hm1 Hn1].
  destruct (reachable_listener_invariant w1 Hr1) as [[_ [[Hb _] _]] _].
  set (c1 := Listener.component w1) in *.
  exists w1, t1,
    {| Listener.component := Listener.dropped_updates c1 (granted c1);
       Listener.mounted := false; Listener.requests := n |},
    (trace_of (Listener.settled Granted c1)),
    (fresh (LiveAudioVisualizer.browser c1)),
    (Pos.succ (fresh (LiveAudioVisualizer.browser c1))).
  assert (E2 : Listener.step p w1 (Listener.Settle Granted snap)
               = Ok (tt, {| Listener.component := Listener.dropped_updates c1 (granted c1);
                            Listener.mounted := false; Listener.requests := n |},
                     trace_of (Listener.settled Granted c1))).
  { cbn [Listener.step]. rewrite Hn1, Hm1. fold c1. rewrite settled_granted. reflexivity. }
  split; [reflexivity|]. split; [exact E2|]. split; [reflexivity|].
  assert (Hin : In (fresh (LiveAudioVisualizer.browser c1))
                   (capturing (LiveAudioVisualizer.browser
                      (Listener.dropped_updates c1 (granted c1)))))
    by (left; reflexivity).
  split.
  { intros Hx. rewrite Forall_forall in Hb. apply Hb in Hx. lia. }
  split; [exact Hin|]. split; [left; reflexivity|].
  split; [cbn; apply in_or_app; left; apply in_or_app; right; left; reflexivity|].
  split; [cbn; apply in_or_app; right; left; reflexivity|].
  intros es w3 Hrun.
  apply (leaked_run es _ w3 (fresh (LiveAudioVisualizer.browser c1))) in Hrun.
  - apply Hrun.
  - eapply Listener.reachable_step; [exact Hr1 | exact E2].
  - split; [exact Hin | left; reflexivity].
Qed.

Lemma request_outlives_unmount_witness :
  exists w1 t1 w2 t2,
    Listener.step live_props requesting Listener.Unmount = Ok (tt, w1, t1)
    /\ Listener.step live_props w1 (Listener.Settle Granted []) = Ok (tt, w2, t2)
    /\ Listener.mounted w2 = false
    /\ capturing (LiveAudioVisualizer.browser (Listener.component w2)) = [1%positive].
Proof.
  destruct (request_outlives_unmount live_props requesting 0 []
              requesting_reachable eq_refl eq_refl)
    as [w1 [t1 [w2 [t2 [stream [ctx [H1 [H2 [H3 _]]]]]]]]].
  exists w1, t1, w2, t2. split; [exact H1|]. split; [exact H2|]. split; [exact H3|].
  vm_compute in H1. injection H1 as <- _.
  vm_compute in H2. injection H2 as <- _. reflexivity.
Defined.

(** Overlapping starts orphan a stream.  The start button is offered until
    the component listens, so a second request can be pending while the first
    has been granted.  When it is granted as well, the continuation of
    [startListening] overwrites the refs: they name the new stream, and the
    stream they named before stays live whatever happens next, a stop and the
    unmount included. *)
Theorem overlapping_start_orphans_stream (p : LiveAudioVisualizer.Props)
    (w : Listener.World) (n : nat) (snap : Snapshot) (stream : Handle) :
  Listener.reachable w ->
  Listener.mounted w = true ->
  Listener.requests w = S n ->
  LiveAudioVisualizer.streamRef (Listener.component w) = Some stream ->
  exists w' t stream',
    Listener.step p w (Listener.Settle Granted snap) = Ok (tt, w', t)
    /\ LiveAudioVisualizer.streamRef (Listener.component w') = Some stream'
    /\ stream' <> stream
    /\ In stream' (capturing (LiveAudioVisualizer.browser (Listener.component w')))
    /\ In stream (capturing (LiveAudioVisualizer.browser (Listener.component w')))
    /\ (forall es w'',
          Listener.run es w' = Ok w'' ->
          In stream (capturing (LiveAudioVisualizer.browser (Listener.component w'')))).
Proof.
  intros Hr Hm Hn Hs.
  destruct (reachable_listener_invariant w Hr) as [[Hc [[Hb _] Hl]] _].
  rewrite Hm, Hs in Hl. unfold refs_coherent in Hc. rewrite Hs in Hc.
  destruct Hc as [ctx [_ [_ [_ [Hin _]]]]].
  assert (Hlt : (stream < fresh (LiveAudioVisualizer.browser (Listener.component w)))%positive).
  { rewrite Forall_forall in Hb. apply Hb. exact Hin. }
  set (c := Listener.component w) in *.
  assert (E : Listener.step p w (Listener.Settle Granted snap)
              = Ok (tt, {| Listener.component := granted c;
                           Listener.mounted := Listener.mounted w;
                           Listener.requests := n |},
                    trace_of (Listener.settled Granted c))).
  { cbn [Listener.step]. rewrite Hn, Hm. fold c. unfold LiveAudioVisualizer.commit.
    rewrite settled_granted, Hl. cbn [granted LiveAudioVisualizer.isListening Bool.eqb].
    unfold Listener.within. cbn [bind]. rewrite settled_granted, Hm. reflexivity. }
  eexists. eexists. exists (fresh (LiveAudioVisualizer.browser c)).
  split; [exact E|]. cbn [Listener.component].
  split; [reflexivity|]. split; [lia|]. split; [left; reflexivity|].
  split; [right; exact Hin|].
  intros es w'' Hrun.
  apply (leaked_run es _ w'' stream) in Hrun.
  - apply Hrun.
  - eapply Listener.reachable_step; [exact Hr | exact E].
  - split; [right; exact Hin|]. right. cbn. intros H. injection H as H. lia.
Qed.

Lemma overlapping_start_orphans_stream_witness :
  exists w' t,
    Listener.step live_props overlapping (Listener.Settle Granted []) = Ok (tt, w', t)
    /\ LiveAudioVisualizer.streamRef (Listener.component w') = Some 4%positive
    /\ capturing (LiveAudioVisualizer.browser (Listener.component w'))
       = [4%positive; 1%positive].
Proof.
  destruct (overlapping_start_orphans_stream live_props overlapping 0 [] 1%positive
              overlapping_reachable eq_refl eq_refl eq_refl)
    as [w' [t [stream' [H1 _]]]].
  exists w', t. split; [exact H1|].
  vm_compute in H1. injection H1 as <- _. split; reflexivity.
Defined.

(** *** Where streams are lost *)

Lemma commit_same_audio (p : LiveAudioVisualizer.Props) (old : bool) (snap : Snapshot)
    (x : unit * LiveAudioVisualizer.World * list Action)
    (c' : LiveAudioVisualizer.World) (t : list Action) :
  LiveAudioVisualizer.commit p old snap x = Ok (tt, c', t) ->
  same_audio (state_of x) c'.
Proof.
  unfold LiveAudioVisualizer.commit.
  destruct (Bool.eqb old (LiveAudioVisualizer.isListening (state_of x))).
  - intros H. apply Ok_state in H. destruct H as [-> _]. apply same_audio_refl.
  - intros H. apply and_then_Ok in H. destruct H as [c1 [t1 [H [-> _]]]].
    apply and_then_Ok in H. destruct H as [c2 [t2 [H [-> _]]]].
    eapply same_audio_trans; [apply effect_cleanup_same|].
    eapply animation_effect_same. exact H.
Qed.

Lemma holds_only_named_same (c c' : LiveAudioVisualizer.World) :
  same_audio c c' -> holds_only_named c -> holds_only_named c'.
Proof.
  unfold same_audio, holds_only_named.
  intros [_ [_ [_ [Hs [_ [Hac [_ [Hca [Hco _]]]]]]]]] [H1 H2].
  rewrite Hs, Hac, Hca, Hco. auto.
Qed.

Lemma holds_only_named_stopped (c : LiveAudioVisualizer.World) :
  holds_only_named c -> holds_only_named (stopped_listening c).
Proof.
  unfold holds_only_named. intros [H1 H2]. cbn.
  destruct (LiveAudioVisualizer.streamRef c), (LiveAudioVisualizer.audioContextRef c);
    rewrite H1, H2; cbn; rewrite ?Pos.eqb_refl; auto.
Qed.

Lemma holds_only_named_setError (e : option string) (c : LiveAudioVisualizer.World) :
  holds_only_named c -> holds_only_named (state_of (LiveAudioVisualizer.setError e c)).
Proof. destruct c. exact (fun H => H). Qed.

(** Streams are lost in two places only.  While the browser holds no stream
    and no context but those the refs of LiveAudioVisualizer name, every
    event leaves it so, except a granted microphone request that settles
    when the component is unmounted or is listening already. *)
Theorem streams_lost_only_by_late_grant (p : LiveAudioVisualizer.Props)
    (w w' : Listener.World) (e : Listener.Event) (t : list Action) :
  Listener.reachable w ->
  holds_only_named (Listener.component w) ->
  Listener.step p w e = Ok (tt, w', t) ->
  holds_only_named (Listener.component w')
  \/ (exists snap,
        e = Listener.Settle Granted snap
        /\ Listener.requests w <> 0%nat
        /\ (Listener.mounted w = false
            \/ LiveAudioVisualizer.isListening (Listener.component w) = true)).
Proof.
  intros Hr Hh Hstep.
  destruct (reachable_listener_invariant w Hr) as [[Hc [_ Hl]] _].
  destruct e as [snap|r snap|id snap|snap|]; cbn [Listener.step] in Hstep.
  - (* Click *)
    left. destruct (Listener.mounted w);
      [|apply Ok_unchanged in Hstep; subst w'; exact Hh].
    destruct (LiveAudioVisualizer.isListening (Listener.component w));
      apply within_Ok in Hstep; destruct Hstep as [c' [Hcm ->]];
      apply commit_same_audio in Hcm; cbn [Listener.component];
      (eapply holds_only_named_same; [exact Hcm|]).
    + rewrite stopListening_stopped. apply holds_only_named_stopped. exact Hh.
    + apply (holds_only_named_setError None). exact Hh.
  - (* Settle *)
    destruct (Listener.requests w) as [|n] eqn:Hn;
      [left; apply Ok_unchanged in Hstep; subst w'; exact Hh|].
    destruct r as [|err].
    + destruct (Listener.mounted w) eqn:Hm;
        [|right; exists snap; split; [reflexivity|]; split; [discriminate | left; reflexivity]].
      destruct (LiveAudioVisualizer.isListening (Listener.component w)) eqn:El;
        [right; exists snap; split; [reflexivity|]; split; [discriminate | right; reflexivity]|].
      left. apply within_Ok in Hstep. destruct Hstep as [c' [Hcm ->]].
      apply commit_same_audio in Hcm. cbn [Listener.component].
      eapply holds_only_named_same; [exact Hcm|]. rewrite settled_granted.
      unfold refs_coherent in Hc. destruct Hh as [H1 H2].
      destruct (LiveAudioVisualizer.streamRef (Listener.component w)); [discriminate|].
      destruct Hc as [Hac _]. rewrite Hac in H2.
      unfold holds_only_named. cbn. rewrite H1, H2. auto.
    + left. destruct (Listener.mounted w).
      * apply within_Ok in Hstep. destruct Hstep as [c' [Hcm ->]].
        apply commit_same_audio in Hcm. cbn [Listener.component].
        eapply holds_only_named_same; [exact Hcm|].
        apply (holds_only_named_setError
                 (Some "Failed to access microphone. Please check permissions.")).
        exact Hh.
      * apply Ok_state in Hstep. destruct Hstep as [-> _].
        cbn [state_of fst snd Listener.component]. rewrite rejected_unmounted. exact Hh.
  - (* Frame *)
    left. destruct (LiveAudioVisualizer.captured_by id (Listener.component w));
      [|apply Ok_unchanged in Hstep; subst w'; exact Hh].
    apply within_Ok in Hstep. destruct Hstep as [c' [Hcm ->]].
    cbn [Listener.component]. eapply holds_only_named_same; [|exact Hh].
    eapply same_audio_trans; [apply cancel_frame_same | eapply animate_same; exact Hcm].
  - (* Rerender *)
    left. destruct (Listener.mounted w);
      [|apply Ok_unchanged in Hstep; subst w'; exact Hh].
    apply within_Ok in Hstep. destruct Hstep as [c' [Hcm ->]].
    cbn [Listener.component]. eapply holds_only_named_same; [|exact Hh].
    apply and_then_Ok in Hcm. destruct Hcm as [c1 [t1 [Hcm [-> _]]]].
    eapply same_audio_trans; [apply effect_cleanup_same|].
    eapply animation_effect_same. exact Hcm.
  - (* Unmount *)
    left. destruct (Listener.mounted w);
      [|apply Ok_unchanged in Hstep; subst w'; exact Hh].
    apply within_Ok in Hstep. destruct Hstep as [c' [Hcm ->]].
    apply Ok_state in Hcm. destruct Hcm as [-> _]. rewrite unmount_state.
    cbn [Listener.component].
    apply (holds_only_named_stopped
             (state_of (LiveAudioVisualizer.effect_cleanup (Listener.component w)))).
    eapply holds_only_named_same; [apply effect_cleanup_same | exact Hh].
Qed.

Lemma streams_lost_only_by_late_grant_witness :
  holds_only_named (Listener.component listening)
  /\ holds_only_named (Listener.component requesting).
Proof.
  split; [split; reflexivity|].
  destruct (streams_lost_only_by_late_grant live_props (Listener.initial true) requesting
              (Listener.Click []) [SetError None]
              (Listener.reachable_initial true))
    as [H|[snap [H _]]].
  - split; reflexivity.
  - vm_compute. reflexivity.
  - exact H.
  - discriminate.
Defined.

(** ** RecordingVisualizer: stopping, and the render after a start *)

Lemma stopRecording_stopped (c : bool) (w : Recorder.World) :
  Recorder.stopRecording c w = stopped c w.
Proof.
  destruct w as [[ir rt er rc rg af ac an st so mr [pe fr ca co ed]] m rec].
  destruct af, ac, st, so, mr, c; reflexivity.
Qed.

Lemma stopRecording_idempotent_state (c1 c2 : bool) (w : Recorder.World) :
  Recorder.stopRecording c2 (Recorder.stopRecording c1 w) = Recorder.stopRecording c1 w.
Proof.
  rewrite (stopRecording_stopped c2), (stopRecording_stopped c1).
  unfold stopped at 1. cbn [Recorder.component Recorder.mounted Recorder.recording stopped
    RecordingVisualizer.mediaRecorderRef RecordingVisualizer.animationFrameRef
    RecordingVisualizer.streamRef RecordingVisualizer.sourceRef
    RecordingVisualizer.audioContextRef RecordingVisualizer.analyserRef
    RecordingVisualizer.isRecording RecordingVisualizer.recordingTime
    RecordingVisualizer.error RecordingVisualizer.recordedChunks
    RecordingVisualizer.recordingChunks RecordingVisualizer.browser
    pending fresh capturing contexts edges].
  unfold stopped.
  destruct (RecordingVisualizer.animationFrameRef (Recorder.component w));
    rewrite ?filter_idem; reflexivity.
Qed.

(** [stopRecording] is idempotent, whichever render its two copies come
    from, and leaves the component not recording with the stream, source,
    context, analyser and recorder refs cleared. *)
Theorem stopRecording_idempotent (c1 c2 : bool) (w : Recorder.World) :
  let w1 := Recorder.stopRecording c1 w in
  Recorder.stopRecording c2 w1 = w1
  /\ RecordingVisualizer.isRecording (Recorder.component w1) = false
  /\ RecordingVisualizer.streamRef (Recorder.component w1) = None
  /\ RecordingVisualizer.sourceRef (Recorder.component w1) = None
  /\ RecordingVisualizer.audioContextRef (Recorder.component w1) = None
  /\ RecordingVisualizer.analyserRef (Recorder.component w1) = None
  /\ RecordingVisualizer.mediaRecorderRef (Recorder.component w1) = None.
Proof.
  intros w1. split; [apply stopRecording_idempotent_state|].
  subst w1. rewrite stopRecording_stopped. repeat split.
Qed.

Lemma startRecording_granted_fields (suspended : bool) (w : Recorder.World) :
  let b := RecordingVisualizer.browser (Recorder.component w) in
  let stream := fresh b in
  let ctx := Pos.succ stream in
  let rec := Pos.succ ctx in
  let w1 := Recorder.startRecording Granted suspended w in
  let c1 := Recorder.component w1 in
  RecordingVisualizer.isRecording c1 = true
  /\ RecordingVisualizer.streamRef c1 = Some stream
  /\ RecordingVisualizer.audioContextRef c1 = Some ctx
  /\ RecordingVisualizer.mediaRecorderRef c1 = Some rec
  /\ RecordingVisualizer.sourceRef c1 = Some (MediaStreamSource ctx stream)
  /\ RecordingVisualizer.analyserRef c1 = Some (Analyser ctx)
  /\ RecordingVisualizer.animationFrameRef c1
     = RecordingVisualizer.animationFrameRef (Recorder.component w)
  /\ pending (RecordingVisualizer.browser c1) = pending b
  /\ capturing (RecordingVisualizer.browser c1) = stream :: capturing b
  /\ contexts (RecordingVisualizer.browser c1) = ctx :: contexts b
  /\ edges (RecordingVisualizer.browser c1)
     = edges b ++ [(MediaStreamSource ctx stream, Analyser ctx)]
  /\ Recorder.recording w1 = rec :: Recorder.recording w
  /\ Recorder.mounted w1 = Recorder.mounted w.
Proof.
  destruct w as [[ir rt er rc rg af ac an st so mr [pe fr ca co ed]] m rec].
  destruct suspended; cbn; repeat split.
Qed.

(** A [stopRecording] made by a render in which [isRecording] was false
    releases the stream and clears the refs as well, but does not stop the
    MediaRecorder; as the recorder ref is cleared, no later [stopRecording]
    stops it either. *)
Theorem stale_stopRecording_leaves_recorder (suspended : bool) (w : Recorder.World) :
  let w1 := Recorder.startRecording Granted suspended w in
  let w2 := Recorder.stopRecording false w1 in
  exists stream rec,
    RecordingVisualizer.streamRef (Recorder.component w1) = Some stream
    /\ RecordingVisualizer.mediaRecorderRef (Recorder.component w1) = Some rec
    /\ ~ In stream (capturing (RecordingVisualizer.browser (Recorder.component w2)))
    /\ RecordingVisualizer.isRecording (Recorder.component w2) = false
    /\ RecordingVisualizer.mediaRecorderRef (Recorder.component w2) = None
    /\ In rec (Recorder.recording w2)
    /\ (forall c, In rec (Recorder.recording (Recorder.stopRecording c w2))).
Proof.
  intros w1 w2.
  assert (E2 : forall c, Recorder.stopRecording c w2 = w2).
  { intros c. apply (stopRecording_idempotent_state false c w1). }
  subst w2. rewrite stopRecording_stopped in *.
  destruct (startRecording_granted_fields suspended w)
    as [_ [Hs [_ [Hm [_ [_ [_ [_ [_ [_ [_ [Hre _]]]]]]]]]]]].
  fold w1 in Hs, Hm, Hre.
  eexists; eexists.
  split; [exact Hs|]. split; [exact Hm|].
  assert (Hrec : In (Pos.succ (Pos.succ (fresh (RecordingVisualizer.browser (Recorder.component w)))))
                    (Recorder.recording (stopped false w1))).
  { unfold stopped. cbn [Recorder.recording]. rewrite Hm, Hre. left. reflexivity. }
  split; [unfold stopped; cbn [Recorder.component RecordingVisualizer.browser capturing];
          rewrite Hs; apply not_in_remove_handle|].
  split; [reflexivity|]. split; [reflexivity|]. split; [exact Hrec|].
  intros c. rewrite E2. exact Hrec.
Qed.

Lemma cancel_scheduled_fields (w : Recorder.World) :
  let w' := Recorder.cancel_scheduled w in
  let c := Recorder.component w in
  let c' := Recorder.component w' in
  RecordingVisualizer.isRecording c' = RecordingVisualizer.isRecording c
  /\ RecordingVisualizer.animationFrameRef c' = RecordingVisualizer.animationFrameRef c
  /\ RecordingVisualizer.streamRef c' = RecordingVisualizer.streamRef c
  /\ RecordingVisualizer.sourceRef c' = RecordingVisualizer.sourceRef c
  /\ RecordingVisualizer.audioContextRef c' = RecordingVisualizer.audioContextRef c
  /\ RecordingVisualizer.analyserRef c' = RecordingVisualizer.analyserRef c
  /\ RecordingVisualizer.mediaRecorderRef c' = RecordingVisualizer.mediaRecorderRef c
  /\ capturing (RecordingVisualizer.browser c') = capturing (RecordingVisualizer.browser c)
  /\ contexts (RecordingVisualizer.browser c') = contexts (RecordingVisualizer.browser c)
  /\ incl (pending (RecordingVisualizer.browser c')) (pending (RecordingVisualizer.browser c))
  /\ Recorder.recording w' = Recorder.recording w
  /\ Recorder.mounted w' = Recorder.mounted w.
Proof.
  unfold Recorder.cancel_scheduled, Recorder.when_ref.
  destruct (RecordingVisualizer.animationFrameRef (Recorder.component w)) as [id|] eqn:E;
    cbn; rewrite ?E; repeat split; try apply incl_refl.
  apply incl_filter.
Qed.

Lemma stopped_pending_incl (c : bool) (w : Recorder.World) :
  incl (pending (RecordingVisualizer.browser (Recorder.component (stopped c w))))
       (pending (RecordingVisualizer.browser (Recorder.component w))).
Proof.
  unfold stopped. cbn.
  destruct (RecordingVisualizer.animationFrameRef (Recorder.component w));
    [apply incl_filter | apply incl_refl].
Qed.

(** A re-render that follows a change of the recording state ends with the
    component torn down and schedules nothing: the cleanup that calls
    [stopRecording] clears the analyser ref before the body of the animation
    effect reads it. *)
Lemma rerender_tears_down (p : LiveAudioVisualizer.Props) (old : bool)
    (snap : Snapshot) (w : Recorder.World) :
  Recorder.rerender p old snap w
  = Ok (Recorder.cancel_scheduled
          (Recorder.stopRecording old (Recorder.cancel_scheduled w))).
Proof.
  unfold Recorder.rerender. rewrite stopRecording_stopped.
  destruct (negb old); reflexivity.
Qed.

Lemma click_start_granted (p : LiveAudioVisualizer.Props) (suspended : bool)
    (snap : Snapshot) (w : Recorder.World) :
  Recorder.mounted w = true ->
  RecordingVisualizer.isRecording (Recorder.component w) = false ->
  Recorder.click p Granted suspended snap w
  = Ok (Recorder.cancel_scheduled
          (Recorder.stopRecording true
             (Recorder.cancel_scheduled
                (Recorder.cancel_scheduled
                   (Recorder.stopRecording false
                      (Recorder.cancel_scheduled
                         (Recorder.startRecording Granted suspended w))))))).
Proof.
  intros Hm Hr. unfold Recorder.click. rewrite Hm, Hr. unfold Recorder.commit.
  destruct (startRecording_granted_fields suspended w) as [Hrec _].
  rewrite Hrec. cbn [Bool.eqb]. rewrite rerender_tears_down. cbn [bind].
  destruct (cancel_scheduled_fields
              (Recorder.stopRecording false
                 (Recorder.cancel_scheduled
                    (Recorder.startRecording Granted suspended w)))) as [Hl _].
  rewrite Hl, stopRecording_stopped. cbn [stopped Recorder.component
    RecordingVisualizer.isRecording Bool.eqb].
  rewrite rerender_tears_down, stopRecording_stopped. reflexivity.
Qed.

Lemma start_undone_by_render_full (p : LiveAudioVisualizer.Props) (suspended : bool)
    (snap : Snapshot) (w : Recorder.World) :
  Recorder.mounted w = true ->
  RecordingVisualizer.isRecording (Recorder.component w) = false ->
  exists w' stream rec,
    Recorder.click p Granted suspended snap w = Ok w'
    /\ RecordingVisualizer.streamRef
         (Recorder.component (Recorder.startRecording Granted suspended w)) = Some stream
    /\ RecordingVisualizer.mediaRecorderRef
         (Recorder.component (Recorder.startRecording Granted suspended w)) = Some rec
    /\ RecordingVisualizer.isRecording (Recorder.component w') = false
    /\ RecordingVisualizer.streamRef (Recorder.component w') = None
    /\ RecordingVisualizer.analyserRef (Recorder.component w') = None
    /\ RecordingVisualizer.mediaRecorderRef (Recorder.component w') = None
    /\ ~ In stream (capturing (RecordingVisualizer.browser (Recorder.component w')))
    /\ In rec (Recorder.recording w')
    /\ incl (pending (RecordingVisualizer.browser (Recorder.component w')))
            (pending (RecordingVisualizer.browser (Recorder.component w))).
Proof.
  intros Hm Hr.
  set (w1 := Recorder.startRecording Granted suspended w).
  destruct (startRecording_granted_fields suspended w)
    as [_ [Hs [_ [Hmr [_ [_ [_ [Hpe [Hca [_ [_ [Hre _]]]]]]]]]]]].
  fold w1 in Hs, Hmr, Hpe, Hca, Hre.
  destruct (cancel_scheduled_fields w1)
    as [_ [_ [Hsa [_ [_ [_ [Hma [Hcaa [_ [Hpa [Hra _]]]]]]]]]]].
  set (wa := Recorder.cancel_scheduled w1) in *.
  destruct (cancel_scheduled_fields (stopped false wa))
    as [_ [_ [Hsc1 [_ [_ [Hanc1 [Hmc1 [Hcac1 [_ [Hpc1 [Hrc1 _]]]]]]]]]]].
  destruct (cancel_scheduled_fields (Recorder.cancel_scheduled (stopped false wa)))
    as [_ [_ [Hsc2 [_ [_ [Hanc2 [Hmc2 [Hcac2 [_ [Hpc2 [Hrc2 _]]]]]]]]]]].
  set (wc := Recorder.cancel_scheduled (Recorder.cancel_scheduled (stopped false wa))) in *.
  destruct (cancel_scheduled_fields (stopped true wc))
    as [Hle [_ [Hse [_ [_ [Hane [Hme [Hcae [_ [Hpe' [Hre' _]]]]]]]]]]].
  exists (Recorder.cancel_scheduled (stopped true wc)),
         (fresh (RecordingVisualizer.browser (Recorder.component w))),
         (Pos.succ (Pos.succ (fresh (RecordingVisualizer.browser (Recorder.component w))))).
  split.
  { rewrite (click_start_granted p suspended snap w Hm Hr).
    rewrite (stopRecording_stopped false), (stopRecording_stopped true). reflexivity. }
  split; [exact Hs|]. split; [exact Hmr|].
  assert (Hwc : RecordingVisualizer.streamRef (Recorder.component wc) = None
                /\ RecordingVisualizer.mediaRecorderRef (Recorder.component wc) = None
                /\ capturing (RecordingVisualizer.browser (Recorder.component wc))
                   = remove_handle (fresh (RecordingVisualizer.browser (Recorder.component w)))
                       (capturing (RecordingVisualizer.browser (Recorder.component wa)))
                /\ Recorder.recording wc = Recorder.recording wa).
  { rewrite Hsc2, Hsc1, Hmc2, Hmc1, Hcac2, Hcac1, Hrc2, Hrc1.
    unfold stopped. cbn [Recorder.component Recorder.recording
      RecordingVisualizer.streamRef RecordingVisualizer.mediaRecorderRef
      RecordingVisualizer.browser capturing].
    rewrite Hsa, Hs. destruct (RecordingVisualizer.mediaRecorderRef (Recorder.component wa));
      repeat split. }
  destruct Hwc as [Hswc [Hmwc [Hcwc Hrwc]]].
  rewrite Hle, Hse, Hane, Hme, Hcae, Hre'.
  split; [reflexivity|]. split; [reflexivity|]. split; [reflexivity|].
  split; [reflexivity|].
  split.
  { unfold stopped. cbn [Recorder.component RecordingVisualizer.browser capturing].
    rewrite Hswc, Hcwc, Hcaa, Hca. apply not_in_remove_handle. }
  split.
  { unfold stopped. cbn [Recorder.recording]. rewrite Hmwc, Hrwc, Hra, Hre.
    left. reflexivity. }
  intros x Hx. apply Hpe' in Hx. apply stopped_pending_incl in Hx.
  apply Hpc2, Hpc1 in Hx. apply stopped_pending_incl in Hx.
  apply Hpa in Hx. rewrite Hpe in Hx. exact Hx.
Qed.

Lemma start_undone_by_render_state (p : LiveAudioVisualizer.Props) (suspended : bool)
    (snap : Snapshot) (w : Recorder.World) :
  Recorder.mounted w = true ->
  RecordingVisualizer.isRecording (Recorder.component w) = false ->
  exists w',
    Recorder.click p Granted suspended snap w = Ok w'
    /\ RecordingVisualizer.isRecording (Recorder.component w') = false
    /\ incl (pending (RecordingVisualizer.browser (Recorder.component w')))
            (pending (RecordingVisualizer.browser (Recorder.component w))).
Proof.
  intros Hm Hr.
  destruct (start_undone_by_render_full p suspended snap w Hm Hr)
    as [w' [stream [rec [H1 [_ [_ [H2 [_ [_ [_ [_ [_ H3]]]]]]]]]]]].
  exists w'. auto.
Qed.

(** RecordingVisualizer undoes a granted start in the render that follows
    it.  [stopRecording] is made again whenever [isRecording] changes and is a
    dependency of the effect whose cleanup calls it, so the change to
    recording runs the previous [stopRecording]: the stream is released, the
    stream, analyser and recorder refs are cleared, the component is not
    recording any more and no frame callback is scheduled that was not
    scheduled before. *)
Theorem start_undone_by_render (p : LiveAudioVisualizer.Props) (suspended : bool)
    (snap : Snapshot) (w : Recorder.World) :
  Recorder.mounted w = true ->
  RecordingVisualizer.isRecording (Recorder.component w) = false ->
  exists w' stream,
    Recorder.click p Granted suspended snap w = Ok w'
    /\ RecordingVisualizer.streamRef
         (Recorder.component (Recorder.startRecording Granted suspended w)) = Some stream
    /\ In stream (capturing (RecordingVisualizer.browser
                     (Recorder.component (Recorder.startRecording Granted suspended w))))
    /\ RecordingVisualizer.isRecording (Recorder.component w') = false
    /\ RecordingVisualizer.streamRef (Recorder.component w') = None
    /\ RecordingVisualizer.analyserRef (Recorder.component w') = None
    /\ RecordingVisualizer.mediaRecorderRef (Recorder.component w') = None
    /\ ~ In stream (capturing (RecordingVisualizer.browser (Recorder.component w')))
    /\ incl (pending (RecordingVisualizer.browser (Recorder.component w')))
            (pending (RecordingVisualizer.browser (Recorder.component w))).
Proof.
  intros Hm Hr.
  destruct (start_undone_by_render_full p suspended snap w Hm Hr)
    as [w' [stream [rec [H1 [H2 [_ [H3 [H4 [H5 [H6 [H7 [_ H8]]]]]]]]]]]].
  exists w', stream. repeat (split; [assumption|]).
  split; [|repeat (split; [assumption|]); assumption].
  destruct (startRecording_granted_fields suspended w)
    as [_ [Hs [_ [_ [_ [_ [_ [_ [Hca _]]]]]]]]].
  rewrite Hca. rewrite Hs in H2. injection H2 as <-. left. reflexivity.
Qed.

Lemma start_undone_by_render_witness :
  exists w',
    Recorder.click live_props Granted false (repeat 0%Z 1024) Recorder.initial = Ok w'
    /\ RecordingVisualizer.isRecording (Recorder.component w') = false
    /\ capturing (RecordingVisualizer.browser (Recorder.component w')) = [].
Proof.
  destruct (start_undone_by_render live_props false (repeat 0%Z 1024) Recorder.initial
              eq_refl eq_refl)
    as [w' [stream [H1 [_ [_ [H2 _]]]]]].
  exists w'. split; [exact H1|]. split; [exact H2|].
  vm_compute in H1. injection H1 as <-. reflexivity.
Defined.

(** After any click on its button, handled with the renders that follow it,
    the mounted RecordingVisualizer is not recording, and no frame callback
    has been scheduled that was not scheduled before. *)
Theorem never_recording_after_click (p : LiveAudioVisualizer.Props) (r : MediaResult)
    (suspended : bool) (snap : Snapshot) (w : Recorder.World) :
  Recorder.mounted w = true ->
  exists w',
    Recorder.click p r suspended snap w = Ok w'
    /\ RecordingVisualizer.isRecording (Recorder.component w') = false
    /\ incl (pending (RecordingVisualizer.browser (Recorder.component w')))
            (pending (RecordingVisualizer.browser (Recorder.component w))).
Proof.
  intros Hm.
  destruct (RecordingVisualizer.isRecording (Recorder.component w)) eqn:Hr.
  - exists (Recorder.cancel_scheduled
              (Recorder.stopRecording true
                 (Recorder.cancel_scheduled (Recorder.stopRecording true w)))).
    assert (Hl : RecordingVisualizer.isRecording
                   (Recorder.component
                      (Recorder.cancel_scheduled
                         (Recorder.stopRecording true
                            (Recorder.cancel_scheduled (Recorder.stopRecording true w)))))
                 = false).
    { destruct (cancel_scheduled_fields
                  (Recorder.stopRecording true
                     (Recorder.cancel_scheduled (Recorder.stopRecording true w)))) as [-> _].
      rewrite stopRecording_stopped. reflexivity. }
    split; [|split; [exact Hl|]].
    + unfold Recorder.click. rewrite Hm, Hr. unfold Recorder.commit.
      rewrite (stopRecording_stopped true w) at 1.
      cbn [stopped Recorder.component RecordingVisualizer.isRecording Bool.eqb].
      rewrite rerender_tears_down. cbn [bind]. rewrite Hl.
      rewrite (stopRecording_stopped true w) at 1.
      cbn [stopped Recorder.component RecordingVisualizer.isRecording Bool.eqb].
      reflexivity.
    + intros x Hx.
      apply (proj1 (proj2 (proj2 (proj2 (proj2 (proj2 (proj2 (proj2 (proj2 (proj2
               (cancel_scheduled_fields _))))))))))) in Hx.
      rewrite stopRecording_stopped in Hx. apply stopped_pending_incl in Hx.
      apply (proj1 (proj2 (proj2 (proj2 (proj2 (proj2 (proj2 (proj2 (proj2 (proj2
               (cancel_scheduled_fields _))))))))))) in Hx.
      rewrite stopRecording_stopped in Hx. apply stopped_pending_incl in Hx. exact Hx.
  - destruct r as [|err].
    + destruct (start_undone_by_render_state p suspended snap w Hm Hr) as [w' [H1 [H2 H3]]].
      exists w'. auto.
    + exists (Recorder.startRecording (Rejected err) suspended w).
      assert (Hl : RecordingVisualizer.isRecording
                     (Recorder.component (Recorder.startRecording (Rejected err) suspended w))
                   = false).
      { destruct w as [[ir rt er rc rg af ac an st so mr br] m rec].
        cbn in Hr. subst ir. reflexivity. }
      split; [|split; [exact Hl|]].
      * unfold Recorder.click. rewrite Hm, Hr. unfold Recorder.commit. rewrite Hl.
        reflexivity.
      * destruct w as [[ir rt er rc rg af ac an st so mr br] m rec]. cbn. apply incl_refl.
Qed.

Lemma never_recording_after_click_witness :
  exists w',
    Recorder.click live_props (Rejected PermissionDenied) false [] Recorder.initial = Ok w'
    /\ RecordingVisualizer.isRecording (Recorder.component w') = false.
Proof.
  destruct (never_recording_after_click live_props (Rejected PermissionDenied) false []
              Recorder.initial eq_refl) as [w' [H1 [H2 _]]].
  exists w'. split; [exact H1 | exact H2].
Defined.

(** ** TextAudioVisualizer: the audio graph and the progress of the speech *)

Lemma speakText_again (length : nat) (rate : Q) (w : SpeechGraph.World) (c : Handle) :
  SpeechGraph.audioContextRef w = Some c ->
  let w' := SpeechGraph.speakText true length rate w in
  SpeechGraph.audioContextRef w' = Some c
  /\ SpeechGraph.contexts w' = SpeechGraph.contexts w
  /\ SpeechGraph.utterances w' = SpeechGraph.next w :: SpeechGraph.utterances w
  /\ SpeechGraph.connections w'
     = SpeechGraph.connections w
       ++ [(SpeechGraph.Oscillator (SpeechGraph.next w), SpeechGraph.Filter (SpeechGraph.next w));
           (SpeechGraph.Filter (SpeechGraph.next w), SpeechGraph.OscillatorGain (SpeechGraph.next w));
           (SpeechGraph.OscillatorGain (SpeechGraph.next w), SpeechGraph.Gain)].
Proof.
  intros Hc. unfold SpeechGraph.speakText, SpeechGraph.initializeAudioContext.
  cbn [negb]. rewrite Hc. cbn. rewrite Hc. repeat split.
Qed.

Lemma speak_times_shape (n length : nat) (rate : Q) :
  let w := SpeechGraph.speak_times (S n) length rate SpeechGraph.initial in
  SpeechGraph.audioContextRef w = Some 1%positive
  /\ SpeechGraph.contexts w = [1%positive]
  /\ Datatypes.length (SpeechGraph.utterances w) = S n
  /\ Datatypes.length (SpeechGraph.connections w) = (2 + 3 * S n)%nat
  /\ incl [(SpeechGraph.Gain, SpeechGraph.SpeechAnalyser);
           (SpeechGraph.SpeechAnalyser, SpeechGraph.SpeechDestination)]
          (SpeechGraph.connections w)
  /\ (forall osc, In osc (SpeechGraph.utterances w) ->
                  incl (tone_chain osc) (SpeechGraph.connections w)).
Proof.
  induction n as [|n IH].
  - cbn. repeat split.
    + intros e He. cbn in *. intuition.
    + intros osc [<-|[]]. intros e He. cbn in *. intuition.
  - destruct IH as [Hc [Hcs [Hu [Hl [Hg Hin]]]]].
    set (w := SpeechGraph.speak_times (S n) length rate SpeechGraph.initial) in *.
    change (SpeechGraph.speak_times (S (S n)) length rate SpeechGraph.initial)
      with (SpeechGraph.speakText true length rate w).
    destruct (speakText_again length rate w _ Hc) as [Hc' [Hcs' [Hu' Hco']]].
    cbv zeta. rewrite Hc', Hcs', Hu', Hco'.
    split; [reflexivity|]. split; [exact Hcs|].
    split; [cbn [Datatypes.length]; rewrite Hu; reflexivity|].
    split; [rewrite length_app, Hl; cbn; lia|].
    split; [intros e He; apply in_or_app; left; exact (Hg e He)|].
    intros osc [<-|Ho]; intros e He; apply in_or_app.
    + cbn in He. destruct He as [<-|[<-|[<-|[<-|[<-|[]]]]]];
        try (right; cbn; tauto); left; apply Hg; cbn; tauto.
    + left. exact (Hin osc Ho e He).
Qed.

(** However often the user speaks, TextAudioVisualizer makes one audio
    context; every utterance adds an oscillator, a filter and a gain, and
    nothing is ever disconnected: after n utterances there are the two
    connections of the component and three per utterance, and the tone of
    every utterance, also of the earlier ones, is connected through to the
    destination. *)
Theorem speech_graph_grows (n length : nat) (rate : Q) :
  (1 <= n)%nat ->
  let w := SpeechGraph.speak_times n length rate SpeechGraph.initial in
  Datatypes.length (SpeechGraph.contexts w) = 1%nat
  /\ Datatypes.length (SpeechGraph.utterances w) = n
  /\ Datatypes.length (SpeechGraph.connections w) = (2 + 3 * n)%nat
  /\ (forall osc, In osc (SpeechGraph.utterances w) ->
                  incl (tone_chain osc) (SpeechGraph.connections w)).
Proof.
  intros Hn. destruct n as [|n]; [lia|].
  destruct (speak_times_shape n length rate) as [_ [Hcs [Hu [Hl [_ Hin]]]]].
  cbv zeta. rewrite Hcs. auto.
Qed.

Lemma speech_graph_grows_witness :
  Datatypes.length
    (SpeechGraph.connections (SpeechGraph.speak_times 3 20 1 SpeechGraph.initial))
  = 11%nat.
Proof.
  apply (speech_graph_grows 3 20 1). lia.
Defined.

Lemma tick_bounds (duration t : Q) :
  0 < duration -> 0 <= t ->
  0 <= SpeechGraph.tick duration t /\ SpeechGraph.tick duration t < duration.
Proof.
  intros Hd Ht. unfold SpeechGraph.tick. cbv zeta.
  destruct (Qle_bool duration (t + (1 # 10))) eqn:E.
  - split; [apply Qle_refl | exact Hd].
  - split; [lra|]. apply Qnot_le_lt. intros Hle.
    apply Qle_bool_iff in Hle. congruence.
Qed.

(** While speaking, the shown time stays below the estimated duration and
    the progress bar below 100 percent, however many times the interval
    fires; and for a duration of a tenth of a second or less the shown time
    never leaves zero. *)
Theorem progress_stays_in_range (n : nat) (duration currentTime : Q) :
  0 < duration ->
  0 <= currentTime ->
  (1 <= n)%nat ->
  let t := SpeechGraph.ticks n duration currentTime in
  (0 <= t /\ t < duration)
  /\ (0 <= SpeechGraph.progress t duration /\ SpeechGraph.progress t duration < 100)
  /\ (duration <= 1 # 10 -> t == 0).
Proof.
  intros Hd Ht Hn. cbv zeta.
  assert (Hb : forall m t0, 0 <= t0 ->
             0 <= SpeechGraph.ticks (S m) duration t0
             /\ SpeechGraph.ticks (S m) duration t0 < duration
             /\ (duration <= 1 # 10 -> SpeechGraph.ticks (S m) duration t0 == 0)).
  { induction m as [|m IH]; intros t0 Ht0.
    - cbn [SpeechGraph.ticks]. destruct (tick_bounds duration t0 Hd Ht0) as [H1 H2].
      split; [exact H1|]. split; [exact H2|].
      intros Hs. unfold SpeechGraph.tick. cbv zeta.
      destruct (Qle_bool duration (t0 + (1 # 10))) eqn:E; [reflexivity|].
      exfalso. assert (Hle : duration <= t0 + (1 # 10)) by lra.
      apply Qle_bool_iff in Hle. congruence.
    - change (SpeechGraph.ticks (S (S m)) duration t0)
        with (SpeechGraph.ticks (S m) duration (SpeechGraph.tick duration t0)).
      apply IH. apply (tick_bounds duration t0 Hd Ht0). }
  destruct n as [|m]; [lia|].
  destruct (Hb m currentTime Ht) as [H1 [H2 H3]].
  set (t := SpeechGraph.ticks (S m) duration currentTime) in *.
  split; [split; assumption|]. split; [|exact H3].
  unfold SpeechGraph.progress.
  assert (E : t / duration * 100 == (t * 100) / duration) by (field; lra).
  rewrite E. split.
  - apply Qle_shift_div_l; [exact Hd | lra].
  - apply Qlt_shift_div_r; [exact Hd | lra].
Qed.

Lemma progress_stays_in_range_witness :
  SpeechGraph.progress (SpeechGraph.ticks 25 2 0) 2 < 100.
Proof.
  apply (progress_stays_in_range 25 2 0); [reflexivity | discriminate | lia].
Defined.

(** ** AudioVisualizer: the animation effect *)

Lemma player_cancel_clears (w : AudioVisualizer.World) :
  Player.one_scheduled w ->
  pending (AudioVisualizer.browser (Player.cancel_scheduled w)) = []
  /\ AudioVisualizer.canvasRef (Player.cancel_scheduled w) = AudioVisualizer.canvasRef w
  /\ fresh (AudioVisualizer.browser (Player.cancel_scheduled w))
     = fresh (AudioVisualizer.browser w).
Proof.
  unfold Player.cancel_scheduled.
  intros [Hp|[id [c [Hp Hr]]]].
  - destruct (AudioVisualizer.animationFrameRef w); cbn; rewrite ?Hp; auto.
  - rewrite Hr. cbn. rewrite Hp. cbn. rewrite Pos.eqb_refl. auto.
Qed.

Lemma player_animate_cases (p : AudioVisualizer.Props) (snap : Snapshot)
    (w w' : AudioVisualizer.World) (t : list Action) :
  AudioVisualizer.animate p snap w = Ok (tt, w', t) ->
  (w' = w /\ t = []
   /\ (AudioVisualizer.analyser p = None \/ AudioVisualizer.canvasRef w = false
       \/ AudioVisualizer.isPlaying p = false))
  \/ (AudioVisualizer.analyser p <> None /\ AudioVisualizer.canvasRef w = true
      /\ AudioVisualizer.isPlaying p = true
      /\ pending (AudioVisualizer.browser w')
         = pending (AudioVisualizer.browser w)
           ++ [(fresh (AudioVisualizer.browser w), true)]
      /\ AudioVisualizer.animationFrameRef w' = Some (fresh (AudioVisualizer.browser w))
      /\ AudioVisualizer.canvasRef w' = AudioVisualizer.canvasRef w
      /\ exists calls, In (Draw calls) t).
Proof.
  unfold AudioVisualizer.animate.
  destruct (AudioVisualizer.analyser p) as [an|] eqn:Ea;
    [|intros H; inversion H; auto 10].
  destruct (AudioVisualizer.canvasRef w) eqn:Ec; cbn [negb orb];
    [|intros H; inversion H; auto 10].
  destruct (AudioVisualizer.isPlaying p) eqn:Ep; cbn [negb];
    [|intros H; inversion H; auto 10].
  destruct (match AudioVisualizer.visualizationType p with
            | waveform => Ok (drawWaveform (AudioVisualizer.config p) snap)
            | spectrum => drawSpectrum (AudioVisualizer.config p) snap
            end) as [calls| |]; cbn [bind]; try discriminate.
  intros H. inversion H; subst. right.
  split; [discriminate|]. do 5 (split; [cbn; auto|]).
  exists calls. cbn. auto.
Qed.

(** AudioVisualizer has a frame callback scheduled exactly while it is
    playing with an analyser: when a render finds the playing flag off or the
    analyser missing, the effect cancels the scheduled callback and nothing is
    drawn; when it finds them on (and the canvas mounted), it draws and
    schedules exactly one.  Running the scheduled callback again leaves
    exactly one scheduled.  At most one callback is ever scheduled. *)
Theorem player_effect_schedules_one (p : AudioVisualizer.Props) (snap : Snapshot)
    (w w' : AudioVisualizer.World) (t : list Action) :
  Player.one_scheduled w ->
  Player.effect p snap w = Ok (tt, w', t) ->
  Player.one_scheduled w'
  /\ (AudioVisualizer.isPlaying p = false \/ AudioVisualizer.analyser p = None ->
      pending (AudioVisualizer.browser w') = [] /\ t = [])
  /\ (AudioVisualizer.isPlaying p = true -> AudioVisualizer.analyser p <> None ->
      AudioVisualizer.canvasRef w = true ->
      pending (AudioVisualizer.browser w') = [(fresh (AudioVisualizer.browser w), true)]
      /\ (exists calls, In (Draw calls) t)
      /\ forall snap2 w2 t2,
           Player.frame p (fresh (AudioVisualizer.browser w)) snap2 w' = Ok (tt, w2, t2) ->
           exists id2, pending (AudioVisualizer.browser w2) = [(id2, true)]
                       /\ AudioVisualizer.animationFrameRef w2 = Some id2).
Proof.
  intros Hone He. destruct (player_cancel_clears w Hone) as [Hp0 [Hc0 Hf0]].
  unfold Player.effect in He. cbv zeta in He.
  destruct (AudioVisualizer.isPlaying p) eqn:Ep.
  - destruct (AudioVisualizer.analyser p) as [an|] eqn:Ea.
    + apply player_animate_cases in He.
      destruct He as [[-> [-> Hwhy]]|[_ [Hc [_ [Hpe [Hr [Hc' Hd]]]]]]].
      * split; [left; exact Hp0|]. split; [intros [?|?]; discriminate|].
        intros _ _ Hcv. destruct Hwhy as [Hx|[Hx|Hx]]; try congruence.
      * rewrite Hp0, Hf0 in Hpe. rewrite Hf0 in Hr. cbn in Hpe.
        split; [right; eauto|]. split; [intros [?|?]; discriminate|].
        intros _ _ _. split; [exact Hpe|]. split; [exact Hd|].
        intros snap2 w2 t2 Hfr. unfold Player.frame in Hfr. rewrite Hpe in Hfr.
        cbn [find fst] in Hfr. rewrite Pos.eqb_refl in Hfr.
        apply player_animate_cases in Hfr.
        destruct Hfr as [[_ [_ Hwhy]]|[_ [_ [_ [Hpe2 [Hr2 _]]]]]].
        -- exfalso. destruct Hwhy as [Hx|[Hx|Hx]]; try congruence.
           cbn in Hx. congruence.
        -- cbn in Hpe2, Hr2. rewrite Hpe in Hpe2. cbn in Hpe2.
           rewrite Pos.eqb_refl in Hpe2. cbn in Hpe2. eauto.
    + inversion He; subst.
      destruct (player_cancel_clears (Player.cancel_scheduled w)) as [Hp1 _];
        [left; exact Hp0|].
      split; [left; exact Hp1|]. split; [auto|]. intros _ Hx. congruence.
  - assert (Hw : w' = Player.cancel_scheduled (Player.cancel_scheduled w) /\ t = []).
    { destruct (AudioVisualizer.analyser p); inversion He; auto. }
    destruct Hw as [-> ->].
    destruct (player_cancel_clears (Player.cancel_scheduled w)) as [Hp1 _];
      [left; exact Hp0|].
    split; [left; exact Hp1|]. split; [auto|]. intros Hx. discriminate.
Qed.

Lemma player_effect_schedules_one_witness :
  match Player.effect playing_props [128; 128; 128; 128]%Z player_mounted with
  | Ok (_, w', _) => pending (AudioVisualizer.browser w') = [(1%positive, true)]
  | _ => False
  end.
Proof.
  destruct (Player.effect playing_props [128; 128; 128; 128]%Z player_mounted)
    as [[[[] w'] t]| |] eqn:He.
  - assert (Hone : Player.one_scheduled player_mounted) by (left; reflexivity).
    destruct (player_effect_schedules_one _ _ _ _ _ Hone He) as [_ [_ H]].
    destruct (H eq_refl ltac:(discriminate) eq_refl) as [Hp _]. exact Hp.
  - vm_compute in He. discriminate.
  - vm_compute in He. discriminate.
Defined.
